(** * GinService structured logger: a shallow embedding and its properties

    The development follows the Go package [logger] of the service:
    - [types.go]      levels, fields, entries and the three interfaces;
    - [formatters.go] the JSON and the text formatter;
    - [handlers.go]   the console, file and multi handlers;
    - [config.go]     the configuration and its validation;
    - [logger.go]     the logger itself.

    Go strings are byte strings and are modelled by [string]; a [[]byte]
    is a [list ascii].  A [map[string]interface{}] is a [gmap string Value].
    Effects (sinks, the clock, the heap of shared field maps) are threaded
    through an explicit [World]. *)

From Stdlib Require Import ZArith NArith String Ascii List Lia.
From Stdlib Require Import Decimal DecimalString DecimalFacts DecimalN DecimalZ.
From Stdlib Require HexadecimalString.
From stdpp Require Import base option list sorting strings gmap fin_maps.

Local Open Scope Z_scope.
Local Open Scope string_scope.
Local Open Scope list_scope.

(** ** Bytes and strings *)

Abbreviation bytes := (list ascii) (only parsing).

Definition code (a : ascii) : N := N_of_ascii a.
Definition chr (n : N) : ascii := ascii_of_N n.

Definition to_bytes (s : string) : bytes := list_ascii_of_string s.
Definition of_bytes (b : bytes) : string := string_of_list_ascii b.

(** [strings.Join]. *)
Fixpoint strings_Join (elems : list string) (sep : string) : string :=
  match elems with
  | [] => ""
  | [e] => e
  | e :: es => e +:+ sep +:+ strings_Join es sep
  end.

(** [strings.ToUpper], on the ASCII letters; the formatter only applies it
    to the result of [Level.String], which is ASCII. *)
Definition upper_byte (a : ascii) : ascii :=
  let n := code a in
  if ((97 <=? n) && (n <=? 122))%N then chr (n - 32) else a.

Fixpoint strings_ToUpper (s : string) : string :=
  match s with
  | EmptyString => EmptyString
  | String a s' => String (upper_byte a) (strings_ToUpper s')
  end.

(** [strconv.Itoa] and the [%d] verb: the decimal digits of an integer,
    with a leading minus sign for negative numbers. *)
Definition itoa (z : Z) : string := NilZero.string_of_int (Z.to_int z).

Fixpoint zeros (n : nat) : string :=
  match n with
  | O => ""
  | S n' => String "0" (zeros n')
  end.

(** [appendInt] of package [time]: sign, zero padding to [width], digits. *)
Definition appendInt (x : Z) (width : nat) : string :=
  let digits := itoa (Z.abs x) in
  (if (x <? 0)%Z then "-" else "") +:+
  zeros (width - String.length digits) +:+ digits.

(** [filepath.Base] for slash-separated paths: the last element of the
    path, after trailing slashes are dropped. *)
Definition is_sep (a : ascii) : bool := Ascii.eqb a "/".

Fixpoint drop_seps (rev_path : bytes) : bytes :=
  match rev_path with
  | a :: r => if is_sep a then drop_seps r else rev_path
  | [] => []
  end.

Fixpoint take_elem (rev_path : bytes) : bytes :=
  match rev_path with
  | a :: r => if is_sep a then [] else a :: take_elem r
  | [] => []
  end.

Definition filepath_Base (path : string) : string :=
  if String.eqb path "" then "."
  else
    let last := rev (take_elem (drop_seps (rev (to_bytes path)))) in
    match last with
    | [] => "/"
    | _ => of_bytes last
    end.

(** ** types.go *)

Definition Level := Z.

Definition DebugLevel : Level := 0.
Definition InfoLevel : Level := 1.
Definition WarnLevel : Level := 2.
Definition ErrorLevel : Level := 3.
Definition FatalLevel : Level := 4.

Definition Level_String (l : Level) : string :=
  if (l =? DebugLevel)%Z then "DEBUG"
  else if (l =? InfoLevel)%Z then "INFO"
  else if (l =? WarnLevel)%Z then "WARN"
  else if (l =? ErrorLevel)%Z then "ERROR"
  else if (l =? FatalLevel)%Z then "FATAL"
  else "UNKNOWN".

(** The dynamic values an [interface{}] field can hold: nil, booleans,
    integers, strings and slices of [interface{}] that are not nil.
    [VChan] is a channel (a [chan int]), the representative of the kinds
    that [encoding/json] refuses; it carries the address that [%v] prints.
    Floating-point numbers, structs, nested maps, byte slices and nil
    slices are not modelled. *)
#[local] Unset Elimination Schemes.
Inductive Value : Type :=
| VNil
| VBool (b : bool)
| VInt (n : Z)
| VString (s : string)
| VSlice (vs : list Value)
| VChan (addr : N).
#[local] Set Elimination Schemes.

Abbreviation Fields := (gmap string Value) (only parsing).

(** A Go [error] value, identified with the text its [Error] method
    returns; a nil error is [None]. *)
Definition error := string.

(** A [time.Time], seen through the civil fields that [Time.Format]
    prints; [offset] is the zone offset in seconds east of UTC. *)
Record Time := mkTime {
  year : Z; month : Z; day : Z;
  hour : Z; minute : Z; second : Z;
  nanosecond : Z; offset : Z
}.

(** A [context.Context]: the chain of key/value pairs it carries. *)
Definition Context := list (string * string).

Record Entry := mkEntry {
  entry_Level : Level;
  entry_Timestamp : Time;
  entry_Message : string;
  entry_Fields : Fields;
  entry_Error : option error;
  entry_Context : Context
}.

(** ** encoding/json

    [json.Marshal] and a JSON reader, for the values above.  A JSON
    document is a tree; numbers are the integers. *)

#[local] Unset Elimination Schemes.
Inductive json : Type :=
| JNull
| JBool (b : bool)
| JNum (n : Z)
| JStr (s : string)
| JArr (items : list json)
| JObj (members : list (string * json)).
#[local] Set Elimination Schemes.

Definition dquote : ascii := "034"%char.
Definition backslash : ascii := "092"%char.
Definition newline : ascii := "010"%char.

Definition hex_digit (n : N) : ascii :=
  if (n <? 10)%N then chr (48 + n) else chr (87 + n).

(** The bytes below 0x80 that [Marshal] copies unchanged: the printable
    ones except the quote, the backslash and the HTML characters. *)
Definition html_safe (n : N) : bool :=
  ((32 <=? n) && negb (n =? 34) && negb (n =? 92)
   && negb (n =? 60) && negb (n =? 62) && negb (n =? 38))%N.

Definition escape_ascii (a : ascii) : bytes :=
  let n := code a in
  if html_safe n then [a]
  else if ((n =? 92) || (n =? 34))%N then [backslash; a]
  else if (n =? 8)%N then [backslash; "b"%char]
  else if (n =? 12)%N then [backslash; "f"%char]
  else if (n =? 10)%N then [backslash; "n"%char]
  else if (n =? 13)%N then [backslash; "r"%char]
  else if (n =? 9)%N then [backslash; "t"%char]
  else [backslash; "u"%char; "0"%char; "0"%char;
        hex_digit (n / 16); hex_digit (n mod 16)].

(** UTF-8, as package [unicode/utf8] decodes it: the length of the
    sequence a leading byte announces, and the range its second byte must
    lie in. *)
Definition cont (n : N) : bool := ((128 <=? n) && (n <=? 191))%N.

Definition rune_len (b1 : N) : nat :=
  if (b1 <? 194)%N then 0
  else if (b1 <? 224)%N then 2
  else if (b1 <? 240)%N then 3
  else if (b1 <? 245)%N then 4
  else 0.

Definition second_ok (b1 b2 : N) : bool :=
  if (b1 =? 224)%N then ((160 <=? b2) && (b2 <=? 191))%N
  else if (b1 =? 237)%N then ((128 <=? b2) && (b2 <=? 159))%N
  else if (b1 =? 240)%N then ((144 <=? b2) && (b2 <=? 191))%N
  else if (b1 =? 244)%N then ((128 <=? b2) && (b2 <=? 143))%N
  else cont b2.

(** U+2028 and U+2029 are the sequences E2 80 A8 and E2 80 A9. *)
Definition line_sep (b1 b2 b3 : N) : bool :=
  ((b1 =? 226) && (b2 =? 128) && ((b3 =? 168) || (b3 =? 169)))%N.

Definition replacement : bytes :=
  [backslash; "u"%char; "f"%char; "f"%char; "f"%char; "d"%char].

(** [appendString] of [encoding/json], with HTML escaping on (the setting
    of [Marshal]): the body of a JSON string literal. *)
Fixpoint appendString (s : string) : bytes :=
  match s with
  | EmptyString => []
  | String b1 s1 =>
    let n1 := code b1 in
    if (n1 <? 128)%N then escape_ascii b1 ++ appendString s1
    else
      let bad := replacement ++ appendString s1 in
      match rune_len n1, s1 with
      | 2%nat, String b2 s2 =>
        if second_ok n1 (code b2) then b1 :: b2 :: appendString s2 else bad
      | 3%nat, String b2 (String b3 s3) =>
        if second_ok n1 (code b2) && cont (code b3) then
          if line_sep n1 (code b2) (code b3) then
            [backslash; "u"%char; "2"%char; "0"%char; "2"%char;
             hex_digit (code b3 mod 16)] ++ appendString s3
          else b1 :: b2 :: b3 :: appendString s3
        else bad
      | 4%nat, String b2 (String b3 (String b4 s4)) =>
        if second_ok n1 (code b2) && cont (code b3) && cont (code b4) then
          b1 :: b2 :: b3 :: b4 :: appendString s4
        else bad
      | _, _ => bad
      end
  end.

Definition quote (s : string) : bytes := dquote :: appendString s ++ [dquote].

(** The elements of an array or the members of an object, with commas
    between them. *)
Definition encode_list {A : Type} (enc : A -> bytes) : list A -> bytes :=
  fix go (l : list A) : bytes :=
    match l with
    | [] => []
    | x :: l' =>
      match l' with
      | [] => enc x
      | _ :: _ => enc x ++ ","%char :: go l'
      end
    end.

(** The compact encoding of a JSON tree. *)
Fixpoint encode (j : json) : bytes :=
  match j with
  | JNull => to_bytes "null"
  | JBool true => to_bytes "true"
  | JBool false => to_bytes "false"
  | JNum n => to_bytes (itoa n)
  | JStr s => quote s
  | JArr items => "["%char :: encode_list encode items ++ ["]"%char]
  | JObj members =>
    "{"%char ::
    encode_list (fun '(k, x) => quote k ++ ":"%char :: encode x) members
    ++ ["}"%char]
  end.

Definition encode_member (m : string * json) : bytes :=
  let '(k, x) := m in quote k ++ ":"%char :: encode x.

(** All the elements, or none if one of them fails. *)
Definition all_some {A B : Type} (f : A -> option B) : list A -> option (list B) :=
  fix go (l : list A) : option (list B) :=
    match l with
    | [] => Some []
    | x :: l' =>
      match f x, go l' with
      | Some y, Some ys => Some (y :: ys)
      | _, _ => None
      end
    end.

(** What [Marshal] makes of a Go value: [None] for an unsupported kind. *)
Fixpoint to_json (v : Value) : option json :=
  match v with
  | VNil => Some JNull
  | VBool b => Some (JBool b)
  | VInt n => Some (JNum n)
  | VString s => Some (JStr s)
  | VSlice vs =>
    match all_some to_json vs with
    | Some js => Some (JArr js)
    | None => None
    end
  | VChan _ => None
  end.

(** Map keys are written in increasing byte order. *)
Definition key_le (a b : string * Value) : Prop := String.leb a.1 b.1 = true.

#[local] Instance key_le_dec a b : Decision (key_le a b).
Proof. unfold key_le. apply _. Defined.

Definition sorted_pairs (m : Fields) : list (string * Value) :=
  merge_sort key_le (map_to_list m).

Definition member_to_json (m : string * Value) : option (string * json) :=
  match to_json m.2 with
  | Some j => Some (m.1, j)
  | None => None
  end.

Definition members_to_json (l : list (string * Value))
  : option (list (string * json)) :=
  all_some member_to_json l.

(** [json.Marshal] applied to a [map[string]interface{}]. *)
Definition json_Marshal (data : Fields) : bytes * option error :=
  match members_to_json (sorted_pairs data) with
  | Some ms => (encode (JObj ms), None)
  | None => ([], Some "json: unsupported type: chan int")
  end.

(** A reader for JSON text.  String escapes are decoded to UTF-8;
    surrogate escapes, which [Marshal] never writes, are refused, and so
    is a number with a fraction or an exponent. *)
Definition hex_val (a : ascii) : option N :=
  let n := code a in
  if ((48 <=? n) && (n <=? 57))%N then Some (n - 48)%N
  else if ((97 <=? n) && (n <=? 102))%N then Some (n - 87)%N
  else if ((65 <=? n) && (n <=? 70))%N then Some (n - 55)%N
  else None.

Definition hex4 (a b c d : ascii) : option N :=
  match hex_val a, hex_val b, hex_val c, hex_val d with
  | Some x, Some y, Some z, Some t => Some (((x * 16 + y) * 16 + z) * 16 + t)%N
  | _, _, _, _ => None
  end.

Definition utf8_encode (c : N) : option string :=
  if (c <? 128)%N then Some (String (chr c) "")
  else if (c <? 2048)%N then
    Some (String (chr (192 + c / 64)) (String (chr (128 + c mod 64)) ""))
  else if ((55296 <=? c) && (c <=? 57343))%N then None
  else
    Some (String (chr (224 + c / 4096))
         (String (chr (128 + (c / 64) mod 64))
         (String (chr (128 + c mod 64)) ""))).

Definition prepend (p : string) (r : option (string * bytes))
  : option (string * bytes) :=
  match r with
  | Some (s, rest) => Some (p +:+ s, rest)
  | None => None
  end.

(** The body of a string literal, up to and including its closing quote. *)
Fixpoint parse_chars (bs : bytes) : option (string * bytes) :=
  match bs with
  | [] => None
  | b :: r =>
    let n := code b in
    if (n =? 34)%N then Some ("", r)
    else if (n =? 92)%N then
      match r with
      | [] => None
      | e :: r1 =>
        let m := code e in
        if (m =? 34)%N then prepend (String dquote "") (parse_chars r1)
        else if (m =? 92)%N then prepend (String backslash "") (parse_chars r1)
        else if (m =? 47)%N then prepend "/" (parse_chars r1)
        else if (m =? 98)%N then prepend (String (chr 8) "") (parse_chars r1)
        else if (m =? 102)%N then prepend (String (chr 12) "") (parse_chars r1)
        else if (m =? 110)%N then prepend (String (chr 10) "") (parse_chars r1)
        else if (m =? 114)%N then prepend (String (chr 13) "") (parse_chars r1)
        else if (m =? 116)%N then prepend (String (chr 9) "") (parse_chars r1)
        else if (m =? 117)%N then
          match r1 with
          | h1 :: h2 :: h3 :: h4 :: r5 =>
            match hex4 h1 h2 h3 h4 with
            | Some c =>
              match utf8_encode c with
              | Some u => prepend u (parse_chars r5)
              | None => None
              end
            | None => None
            end
          | _ => None
          end
        else None
      end
    else if (n <? 32)%N then None
    else prepend (String b "") (parse_chars r)
  end.

Definition is_ws (n : N) : bool :=
  ((n =? 32) || (n =? 9) || (n =? 10) || (n =? 13))%N.

Fixpoint skip_ws (bs : bytes) : bytes :=
  match bs with
  | b :: r => if is_ws (code b) then skip_ws r else bs
  | [] => []
  end.

Fixpoint expect (lit bs : bytes) : option bytes :=
  match lit, bs with
  | [], _ => Some bs
  | c :: lit', b :: bs' => if Ascii.eqb c b then expect lit' bs' else None
  | _ :: _, [] => None
  end.

Definition is_digit (n : N) : bool := ((48 <=? n) && (n <=? 57))%N.

Fixpoint span_digits (bs : bytes) : bytes * bytes :=
  match bs with
  | b :: r =>
    if is_digit (code b) then
      let (ds, rest) := span_digits r in (b :: ds, rest)
    else ([], bs)
  | [] => ([], [])
  end.

Definition starts_fraction (bs : bytes) : bool :=
  match bs with
  | c :: _ => ((code c =? 46) || (code c =? 101) || (code c =? 69))%N
  | [] => false
  end.

Definition parse_digits (neg : bool) (bs : bytes) : option (Z * bytes) :=
  let (ds, rest) := span_digits bs in
  match ds with
  | [] => None
  | d :: ds' =>
    if ((code d =? 48)%N && negb (bool_decide (ds' = []))) || starts_fraction rest
    then None
    else
      match NilEmpty.uint_of_string (of_bytes ds) with
      | Some u => Some (if neg then (- Z.of_uint u)%Z else Z.of_uint u, rest)
      | None => None
      end
  end.

Definition parse_number (bs : bytes) : option (Z * bytes) :=
  match bs with
  | b :: r => if (code b =? 45)%N then parse_digits true r
              else parse_digits false bs
  | [] => None
  end.

Fixpoint parse_value (fuel : nat) (bs : bytes) : option (json * bytes) :=
  match fuel with
  | O => None
  | S f =>
    match skip_ws bs with
    | [] => None
    | b :: r =>
      let n := code b in
      if (n =? 110)%N then
        option_map (pair JNull) (expect (to_bytes "ull") r)
      else if (n =? 116)%N then
        option_map (pair (JBool true)) (expect (to_bytes "rue") r)
      else if (n =? 102)%N then
        option_map (pair (JBool false)) (expect (to_bytes "alse") r)
      else if (n =? 34)%N then
        match parse_chars r with
        | Some (s, rest) => Some (JStr s, rest)
        | None => None
        end
      else if (n =? 91)%N then
        match skip_ws r with
        | c :: r' =>
          if (code c =? 93)%N then Some (JArr [], r')
          else
            match parse_elems f r with
            | Some (vs, rest) => Some (JArr vs, rest)
            | None => None
            end
        | [] => None
        end
      else if (n =? 123)%N then
        match skip_ws r with
        | c :: r' =>
          if (code c =? 125)%N then Some (JObj [], r')
          else
            match parse_members f r with
            | Some (ms, rest) => Some (JObj ms, rest)
            | None => None
            end
        | [] => None
        end
      else
        match parse_number (b :: r) with
        | Some (z, rest) => Some (JNum z, rest)
        | None => None
        end
    end
  end
with parse_elems (fuel : nat) (bs : bytes) : option (list json * bytes) :=
  match fuel with
  | O => None
  | S f =>
    match parse_value f bs with
    | Some (v, rest) =>
      match skip_ws rest with
      | c :: r =>
        if (code c =? 44)%N then
          match parse_elems f r with
          | Some (vs, rest') => Some (v :: vs, rest')
          | None => None
          end
        else if (code c =? 93)%N then Some ([v], r)
        else None
      | [] => None
      end
    | None => None
    end
  end
with parse_members (fuel : nat) (bs : bytes)
  : option (list (string * json) * bytes) :=
  match fuel with
  | O => None
  | S f =>
    match skip_ws bs with
    | q :: r =>
      if (code q =? 34)%N then
        match parse_chars r with
        | Some (k, rest) =>
          match skip_ws rest with
          | c :: r1 =>
            if (code c =? 58)%N then
              match parse_value f r1 with
              | Some (v, rest1) =>
                match skip_ws rest1 with
                | d :: r2 =>
                  if (code d =? 44)%N then
                    match parse_members f r2 with
                    | Some (ms, rest') => Some ((k, v) :: ms, rest')
                    | None => None
                    end
                  else if (code d =? 125)%N then Some ([(k, v)], r2)
                  else None
                | [] => None
                end
              | None => None
              end
            else None
          | [] => None
          end
        | None => None
        end
      else None
    | [] => None
    end
  end.

(** A whole document: one value, then nothing but white space. *)
Definition json_parse (bs : bytes) : option json :=
  match parse_value (S (length bs)) bs with
  | Some (j, rest) =>
    match skip_ws rest with
    | [] => Some j
    | _ :: _ => None
    end
  | None => None
  end.

(** The member of an object, as a reader into a map sees it: the last
    binding of a key wins. *)
Fixpoint assoc_last (k : string) (ms : list (string * json)) : option json :=
  match ms with
  | [] => None
  | (k', v) :: ms' =>
    match assoc_last k ms' with
    | Some v' => Some v'
    | None => if String.eqb k k' then Some v else None
    end
  end.

Definition json_get (k : string) (j : json) : option json :=
  match j with
  | JObj ms => assoc_last k ms
  | _ => None
  end.

(** What may follow a value inside a document: nothing, a comma, or a
    closing bracket or brace. *)
Definition ends_value (rest : bytes) : bool :=
  match rest with
  | [] => true
  | c :: _ => ((code c =? 44) || (code c =? 93) || (code c =? 125))%N
  end.

(** What a string becomes on its way through [Marshal]: a byte that does
    not start a well-formed UTF-8 sequence is replaced by U+FFFD. *)
Definition replacement_char : string :=
  String (chr 239) (String (chr 191) (String (chr 189) "")).

Fixpoint coerce_utf8 (s : string) : string :=
  match s with
  | EmptyString => EmptyString
  | String b1 s1 =>
    let n1 := code b1 in
    if (n1 <? 128)%N then String b1 (coerce_utf8 s1)
    else
      let bad := replacement_char +:+ coerce_utf8 s1 in
      match rune_len n1, s1 with
      | 2%nat, String b2 s2 =>
        if second_ok n1 (code b2) then String b1 (String b2 (coerce_utf8 s2))
        else bad
      | 3%nat, String b2 (String b3 s3) =>
        if second_ok n1 (code b2) && cont (code b3) then
          String b1 (String b2 (String b3 (coerce_utf8 s3)))
        else bad
      | 4%nat, String b2 (String b3 (String b4 s4)) =>
        if second_ok n1 (code b2) && cont (code b3) && cont (code b4) then
          String b1 (String b2 (String b3 (String b4 (coerce_utf8 s4))))
        else bad
      | _, _ => bad
      end
  end.

Definition valid_utf8 (s : string) : Prop := coerce_utf8 s = s.

Fixpoint coerce_json (j : json) : json :=
  match j with
  | JStr s => JStr (coerce_utf8 s)
  | JArr items => JArr (map coerce_json items)
  | JObj members =>
    JObj (map (fun '(k, x) => (coerce_utf8 k, coerce_json x)) members)
  | _ => j
  end.

Definition coerce_member (m : string * json) : string * json :=
  let '(k, x) := m in (coerce_utf8 k, coerce_json x).

(** The fuel that reading the encoding of a tree takes. *)
Fixpoint weight (j : json) : nat :=
  match j with
  | JArr items => S (list_sum (map (fun x => S (weight x)) items))
  | JObj members => S (list_sum (map (fun '(_, x) => S (weight x)) members))
  | _ => 1
  end.

(** ** formatters.go *)

(** One answer of [runtime.Caller]: the function, the file and the line
    of a frame of the call stack. *)
Record Frame := mkFrame {
  frame_func : string;
  frame_file : string;
  frame_line : Z
}.

(** [runtime.Caller], as the running [Format] sees it: the frame [skip]
    levels up, if there is one. *)
Definition Callers := nat -> option Frame.

(** The zone of the [Z07:00] layout element. *)
Definition format_zone (off : Z) : string :=
  if (off =? 0)%Z then "Z"
  else
    let zone := Z.quot off 60 in
    (if (zone <? 0)%Z then "-" else "+") +:+
    appendInt (Z.quot (Z.abs zone) 60) 2 +:+ ":" +:+
    appendInt (Z.rem (Z.abs zone) 60) 2.

Definition format_date_time (t : Time) : string :=
  appendInt (year t) 4 +:+ "-" +:+ appendInt (month t) 2 +:+ "-" +:+
  appendInt (day t) 2 +:+ "T" +:+ appendInt (hour t) 2 +:+ ":" +:+
  appendInt (minute t) 2 +:+ ":" +:+ appendInt (second t) 2.

(** [t.Format(time.RFC3339)], the layout [2006-01-02T15:04:05Z07:00]. *)
Definition Time_Format_RFC3339 (t : Time) : string :=
  format_date_time t +:+ format_zone (offset t).

(** [t.Format("2006-01-02T15:04:05.000Z07:00")]: the first three of the
    nine digits of the nanoseconds follow the seconds. *)
Definition Time_Format_millis (t : Time) : string :=
  format_date_time t +:+ "." +:+
  substring 0 3 (appendInt (nanosecond t) 9) +:+ format_zone (offset t).

(** [for k, v := range src { dst[k] = v }]. *)
Definition copy_into (src dst : Fields) : Fields :=
  map_fold (fun k v acc => <[k := v]> acc) dst src.

(** The loop [for i := 0; i < n; i++] over [runtime.Caller(i + 3)] that
    collects the frames of a stack trace. *)
Fixpoint stack_lines (callers : Callers) (line : Frame -> string)
    (i n : nat) : list string :=
  match n with
  | O => []
  | S n' =>
    match callers (i + 3)%nat with
    | Some fr => line fr :: stack_lines callers line (S i) n'
    | None => stack_lines callers line (S i) n'
    end
  end.

Record JSONFormatter := mkJSONFormatter {
  json_AddCaller : bool;
  json_AddStack : bool
}.

(** The three keys every entry starts with. *)
Definition json_base (entry : Entry) : Fields :=
  <["message" := VString (entry_Message entry)]>
  (<["timestamp" := VString (Time_Format_RFC3339 (entry_Timestamp entry))]>
  (<["level" := VString (Level_String (entry_Level entry))]> ∅)).

(** The slice [stack] of the JSON formatter: up to ten frames. *)
Definition json_stack (callers : Callers) : list string :=
  stack_lines callers
    (fun fr => filepath_Base (frame_file fr) +:+ ":" +:+
               itoa (frame_line fr) +:+ " " +:+ frame_func fr)
    0 10.

(** The map [data] that [JSONFormatter.Format] builds before it calls
    [json.Marshal]. *)
Definition JSONFormatter_data (f : JSONFormatter) (callers : Callers)
    (entry : Entry) : Fields :=
  let data := json_base entry in
  let data :=
    if (0 <? size (entry_Fields entry))%nat
    then copy_into (entry_Fields entry) data else data in
  let data :=
    match entry_Error entry with
    | Some e => <["error" := VString e]> data
    | None => data
    end in
  let data :=
    if json_AddCaller f then
      match callers 3%nat with
      | Some fr =>
        <["function" := VString (frame_func fr)]>
        (<["caller" := VString (filepath_Base (frame_file fr) +:+ ":" +:+
                                itoa (frame_line fr))]> data)
      | None => data
      end
    else data in
  if json_AddStack f && bool_decide (is_Some (entry_Error entry)) then
    let stack := json_stack callers in
    if (0 <? length stack)%nat
    then <["stack" := VSlice (VString <$> stack)]> data else data
  else data.

Definition JSONFormatter_Format (f : JSONFormatter) (callers : Callers)
    (entry : Entry) : bytes * option error :=
  json_Marshal (JSONFormatter_data f callers entry).

Record TextFormatter := mkTextFormatter {
  text_AddCaller : bool;
  text_AddStack : bool
}.

(** The [%v] verb of package [fmt]. *)
Fixpoint fmt_v (v : Value) : string :=
  match v with
  | VNil => "<nil>"
  | VBool true => "true"
  | VBool false => "false"
  | VInt n => itoa n
  | VString s => s
  | VSlice vs =>
    let fix items (l : list Value) : list string :=
      match l with
      | [] => []
      | x :: l' => fmt_v x :: items l'
      end in
    "[" +:+ strings_Join (items vs) " " +:+ "]"
  | VChan addr =>
    "0x" +:+ HexadecimalString.NilZero.string_of_uint (N.to_hex_uint addr)
  end.

(** The order in which [range] visits a map is not specified; the model
    takes the order of [map_to_list]. *)
Definition TextFormatter_Format (f : TextFormatter) (callers : Callers)
    (entry : Entry) : bytes * option error :=
  let parts := [Time_Format_millis (entry_Timestamp entry)] in
  let parts :=
    parts ++ ["[" +:+ strings_ToUpper (Level_String (entry_Level entry)) +:+ "]"] in
  let parts :=
    if text_AddCaller f then
      match callers 3%nat with
      | Some fr =>
        parts ++ ["(" +:+ filepath_Base (frame_file fr) +:+ ":" +:+
                  itoa (frame_line fr) +:+ " " +:+ frame_func fr +:+ ")"]
      | None => parts
      end
    else parts in
  let parts := parts ++ [entry_Message entry] in
  let parts :=
    if (0 <? size (entry_Fields entry))%nat then
      let fieldParts :=
        (fun kv : string * Value => kv.1 +:+ "=" +:+ fmt_v kv.2)
          <$> map_to_list (entry_Fields entry) in
      parts ++ ["{" +:+ strings_Join fieldParts " " +:+ "}"]
    else parts in
  let parts :=
    match entry_Error entry with
    | Some e => parts ++ ["error=" +:+ e]
    | None => parts
    end in
  let parts :=
    if text_AddStack f && bool_decide (is_Some (entry_Error entry)) then
      let stack :=
        stack_lines callers
          (fun fr => "  " +:+ filepath_Base (frame_file fr) +:+ ":" +:+
                     itoa (frame_line fr) +:+ " " +:+ frame_func fr)
          0 5 in
      if (0 <? length stack)%nat
      then (parts ++ [String newline "Stack trace:"]) ++ stack else parts
    else parts in
  (to_bytes (strings_Join parts " " +:+ String newline ""), None).

(** The [Formatter] interface: the two formatters of the package, or any
    other implementation of [Format]. *)
Inductive Formatter : Type :=
| FJSON (f : JSONFormatter)
| FText (f : TextFormatter)
| FCustom (format : Callers -> Entry -> bytes * option error).

Definition Formatter_Format (f : Formatter) (callers : Callers)
    (entry : Entry) : bytes * option error :=
  match f with
  | FJSON j => JSONFormatter_Format j callers entry
  | FText t => TextFormatter_Format t callers entry
  | FCustom format => format callers entry
  end.

(** ** The world the logger runs in *)

(** A sink: the bytes written so far and, when the sink is about to fail
    (closed pipe, full disk), how many more bytes it accepts. *)
Record Stream := mkStream {
  content : bytes;
  room : option nat
}.

(** [Write] of an [io.Writer]: all of [data] is appended, or the part the
    sink still accepts is appended and an error is returned. *)
Definition Stream_Write (s : Stream) (data : bytes) : Stream * option error :=
  match room s with
  | None => (mkStream (content s ++ data) None, None)
  | Some n =>
    if (length data <=? n)%nat
    then (mkStream (content s ++ data) (Some (n - length data)%nat), None)
    else (mkStream (content s ++ take n data) (Some 0%nat), Some "short write")
  end.

Definition new_file : Stream := mkStream [] None.

(** A reference to a field map on the heap; [None] is the nil map. *)
Definition FieldsRef := option positive.

(** The settings of a [lumberjack.Logger], the rotating writer of the
    file handler. *)
Record Lumberjack := mkLumberjack {
  lj_Filename : string;
  lj_MaxSize : Z;
  lj_MaxBackups : Z;
  lj_MaxAge : Z;
  lj_Compress : bool
}.

(** The world.  [callers] is the call stack as a [Format] sees it that
    is called by a handler which [log] called.

    [lumberjack] is a library outside this repository.  What its [Write]
    does with the bytes (append them to the log file, move the file to a
    backup and start a new one when the size limit would be passed, prune
    old backups, refuse the write) is the answer of [writer]: from the
    settings, the bytes, the log files and the clock it gives the log
    files afterwards, the number of readings of the clock, and the error.
    The library acts on the log files and on the clock only.

    [multi_frame] is the frame of [MultiHandler.Handle] at its call of a
    member, as [runtime.Caller] reports it. *)
Record World := mkWorld {
  heap : gmap positive (gmap string Value);
  stdout : Stream;
  stderr : Stream;
  files : gmap string Stream;
  clock : nat -> Time;
  ticks : nat;
  callers : Callers;
  mkdir_error : string -> option error;
  writer : Lumberjack -> bytes -> gmap string Stream -> nat
           -> gmap string Stream * nat * option error;
  multi_frame : Frame
}.

Definition set_heap (h : gmap positive (gmap string Value)) (w : World) : World :=
  mkWorld h (stdout w) (stderr w) (files w) (clock w) (ticks w)
          (callers w) (mkdir_error w) (writer w) (multi_frame w).

Definition set_stdout (s : Stream) (w : World) : World :=
  mkWorld (heap w) s (stderr w) (files w) (clock w) (ticks w)
          (callers w) (mkdir_error w) (writer w) (multi_frame w).

Definition set_stderr (s : Stream) (w : World) : World :=
  mkWorld (heap w) (stdout w) s (files w) (clock w) (ticks w)
          (callers w) (mkdir_error w) (writer w) (multi_frame w).

Definition set_files (fs : gmap string Stream) (w : World) : World :=
  mkWorld (heap w) (stdout w) (stderr w) fs (clock w) (ticks w)
          (callers w) (mkdir_error w) (writer w) (multi_frame w).

Definition set_callers (cs : Callers) (w : World) : World :=
  mkWorld (heap w) (stdout w) (stderr w) (files w) (clock w) (ticks w)
          cs (mkdir_error w) (writer w) (multi_frame w).

(** [time.Now]: the clock is read and moves on. *)
Definition time_Now (w : World) : Time * World :=
  (clock w (ticks w),
   mkWorld (heap w) (stdout w) (stderr w) (files w) (clock w) (S (ticks w))
           (callers w) (mkdir_error w) (writer w) (multi_frame w)).

(** Reading a map through its reference; a nil map reads as empty. *)
Definition deref (w : World) (r : FieldsRef) : Fields :=
  match r with
  | Some p => default ∅ (heap w !! p)
  | None => ∅
  end.

(** [make(Fields, n)]: a fresh map on the heap. *)
Definition alloc (m : Fields) (w : World) : positive * World :=
  let p := fresh (dom (heap w)) in
  (p, set_heap (<[p := m]> (heap w)) w).

(** ** handlers.go *)

Inductive Output : Type := Stdout | Stderr.

Record ConsoleHandler := mkConsoleHandler {
  console_output : Output;
  console_formatter : Formatter
}.

Definition NewConsoleHandler (output : string) (formatter : Formatter)
  : ConsoleHandler + error :=
  if String.eqb output "stdout" then inl (mkConsoleHandler Stdout formatter)
  else if String.eqb output "stderr" then inl (mkConsoleHandler Stderr formatter)
  else inr ("unsupported console output: " +:+ output).

Definition File_Write (o : Output) (data : bytes) (w : World)
  : World * option error :=
  match o with
  | Stdout =>
    let (s, err) := Stream_Write (stdout w) data in (set_stdout s w, err)
  | Stderr =>
    let (s, err) := Stream_Write (stderr w) data in (set_stderr s w, err)
  end.

Definition ConsoleHandler_Handle (h : ConsoleHandler) (entry : Entry)
    (w : World) : World * option error :=
  match Formatter_Format (console_formatter h) (callers w) entry with
  | (_, Some err) => (w, Some err)
  | (data, None) => File_Write (console_output h) data w
  end.

(** [Write] of the rotating writer: the library's answer for the log
    files, and as many readings of the clock as it took. *)
Definition Lumberjack_Write (l : Lumberjack) (data : bytes) (w : World)
  : World * option error :=
  let '(fs, readings, err) := writer w l data (files w) (ticks w) in
  (mkWorld (heap w) (stdout w) (stderr w) fs (clock w) (readings + ticks w)
           (callers w) (mkdir_error w) (writer w) (multi_frame w), err).

Record FileHandler := mkFileHandler {
  file_writer : Lumberjack;
  file_formatter : Formatter
}.

Definition FileHandler_Handle (h : FileHandler) (entry : Entry)
    (w : World) : World * option error :=
  match Formatter_Format (file_formatter h) (callers w) entry with
  | (_, Some err) => (w, Some err)
  | (data, None) => Lumberjack_Write (file_writer h) data w
  end.

(** The [Handler] interface: the three handlers of the package, or any
    other implementation of [Handle] that returns. *)
#[local] Unset Elimination Schemes.
Inductive Handler : Type :=
| HConsole (h : ConsoleHandler)
| HFile (h : FileHandler)
| HMulti (handlers : list Handler)
| HCustom (handle : Entry -> World -> World * option error).
#[local] Set Elimination Schemes.

(** The call stack as a [Format] sees it whose handler was called by
    [MultiHandler.Handle] in place of the caller it had: the frame [fr] of
    that method is two levels up, above [Format] and the handler, and
    every frame from there on is one level further away. *)
Definition deeper (fr : Frame) (cs : Callers) : Callers :=
  fun skip =>
    match skip with
    | 0%nat => cs 0%nat
    | 1%nat => cs 1%nat
    | 2%nat => Some fr
    | S up => cs up
    end.

(** Inside [MultiHandler.Handle], where a member is called; and back in
    the caller, with the call stack the caller had. *)
Definition enter_multi (w : World) : World :=
  set_callers (deeper (multi_frame w) (callers w)) w.

Definition leave_multi (w w' : World) : World :=
  set_callers (callers w) w'.

(** The loop of [MultiHandler.Handle], over the [Handle] of the members. *)
Definition MultiHandler_loop
    (Handle : Handler -> Entry -> World -> World * option error)
    (entry : Entry) : list Handler -> World -> option error
                      -> World * option error :=
  fix loop (handlers : list Handler) (w : World) (lastErr : option error) :=
    match handlers with
    | [] => (w, lastErr)
    | handler :: rest =>
      match Handle handler entry (enter_multi w) with
      | (w', Some err) => loop rest (leave_multi w w') (Some err)
      | (w', None) => loop rest (leave_multi w w') lastErr
      end
    end.

Fixpoint Handler_Handle (h : Handler) (entry : Entry) (w : World)
  : World * option error :=
  match h with
  | HConsole c => ConsoleHandler_Handle c entry w
  | HFile f => FileHandler_Handle f entry w
  | HMulti handlers => MultiHandler_loop Handler_Handle entry handlers w None
  | HCustom handle => handle entry w
  end.

Definition MultiHandler_Handle (handlers : list Handler) (entry : Entry)
    (w : World) : World * option error :=
  Handler_Handle (HMulti handlers) entry w.

(** ** config.go *)

Record Config := mkConfig {
  cfg_Level : Level;
  cfg_Format : string;
  cfg_Output : string;
  cfg_FilePath : string;
  cfg_MaxSize : Z;
  cfg_MaxBackups : Z;
  cfg_MaxAge : Z;
  cfg_Compress : bool;
  cfg_AddCaller : bool;
  cfg_AddStack : bool
}.

Definition DefaultConfig : Config :=
  mkConfig InfoLevel "json" "stdout" "logs/app.log" 100 3 28 true true false.

Definition set_Level (l : Level) (c : Config) : Config :=
  mkConfig l (cfg_Format c) (cfg_Output c) (cfg_FilePath c) (cfg_MaxSize c)
           (cfg_MaxBackups c) (cfg_MaxAge c) (cfg_Compress c)
           (cfg_AddCaller c) (cfg_AddStack c).

Definition set_Format (f : string) (c : Config) : Config :=
  mkConfig (cfg_Level c) f (cfg_Output c) (cfg_FilePath c) (cfg_MaxSize c)
           (cfg_MaxBackups c) (cfg_MaxAge c) (cfg_Compress c)
           (cfg_AddCaller c) (cfg_AddStack c).

Definition set_Output (o : string) (c : Config) : Config :=
  mkConfig (cfg_Level c) (cfg_Format c) o (cfg_FilePath c) (cfg_MaxSize c)
           (cfg_MaxBackups c) (cfg_MaxAge c) (cfg_Compress c)
           (cfg_AddCaller c) (cfg_AddStack c).

(** [os.MkdirAll(filepath.Dir(path), 0755)]: whether the directory of the
    log file can be created is the environment's answer. *)
Definition MkdirAll_Dir (path : string) (w : World) : option error :=
  mkdir_error w path.

(** [Validate] writes the defaults into the configuration it is called
    on; the model returns the configuration as it is afterwards. *)
Definition Config_Validate (c : Config) (w : World) : Config * option error :=
  let c :=
    if (cfg_Level c <? DebugLevel)%Z || (cfg_Level c >? FatalLevel)%Z
    then set_Level InfoLevel c else c in
  let c :=
    if negb (String.eqb (cfg_Format c) "json")
       && negb (String.eqb (cfg_Format c) "text")
    then set_Format "json" c else c in
  let c :=
    if negb (String.eqb (cfg_Output c) "stdout")
       && negb (String.eqb (cfg_Output c) "stderr")
       && negb (String.eqb (cfg_Output c) "file")
    then set_Output "stdout" c else c in
  if String.eqb (cfg_Output c) "file" then
    match MkdirAll_Dir (cfg_FilePath c) w with
    | Some err => (c, Some err)
    | None => (c, None)
    end
  else (c, None).

Definition NewFileHandler (config : Config) (formatter : Formatter)
  : FileHandler + error :=
  inl (mkFileHandler
         (mkLumberjack (cfg_FilePath config) (cfg_MaxSize config)
                       (cfg_MaxBackups config) (cfg_MaxAge config)
                       (cfg_Compress config))
         formatter).

(** ** logger.go *)

Record logger := mkLogger {
  logger_config : Config;
  logger_handler : Handler;
  logger_fields : FieldsRef
}.

Definition NewLogger (config : Config) (w : World) : (logger + error) * World :=
  match Config_Validate config w with
  | (_, Some err) => (inr err, w)
  | (config, None) =>
    let formatter :=
      if String.eqb (cfg_Format config) "json" then
        FJSON (mkJSONFormatter (cfg_AddCaller config) (cfg_AddStack config))
      else if String.eqb (cfg_Format config) "text" then
        FText (mkTextFormatter (cfg_AddCaller config) (cfg_AddStack config))
      else
        FJSON (mkJSONFormatter (cfg_AddCaller config) (cfg_AddStack config)) in
    let handler : Handler + error :=
      if String.eqb (cfg_Output config) "stdout"
         || String.eqb (cfg_Output config) "stderr" then
        match NewConsoleHandler (cfg_Output config) formatter with
        | inl consoleHandler => inl (HConsole consoleHandler)
        | inr err => inr err
        end
      else if String.eqb (cfg_Output config) "file" then
        match NewFileHandler config formatter with
        | inl fileHandler => inl (HFile fileHandler)
        | inr err => inr err
        end
      else
        match NewConsoleHandler "stdout" formatter with
        | inl consoleHandler => inl (HConsole consoleHandler)
        | inr err => inr err
        end in
    match handler with
    | inr err => (inr err, w)
    | inl handler =>
      let (p, w') := alloc ∅ w in
      (inl (mkLogger config handler (Some p)), w')
    end
  end.

(** How a call into the logger ends: it returns, the process exits with a
    status, or the goroutine panics. *)
Inductive Outcome : Type :=
| Returned (w : World)
| Exited (status : Z) (w : World)
| Panicked (w : World).

(** The map [baseFields] of [log], and the [newFields] of [WithFields]:
    the logger's fields, overlaid with the fields of the call. *)
Definition merge_fields (base extra : Fields) : Fields :=
  copy_into extra (copy_into base ∅).

(** The entry that [log] builds once the level has passed the filter. *)
Definition log_entry (l : logger) (ctx : Context) (level : Level)
    (msg : string) (err : option error) (fields : FieldsRef) (w : World)
  : Entry * World :=
  let baseFields :=
    merge_fields (deref w (logger_fields l)) (deref w fields) in
  let (now, w) := time_Now w in
  (mkEntry level now msg baseFields err ctx, w).

(** The entry that reports a failed write. *)
Definition fallback_entry (now : Time) (err : error) : Entry :=
  mkEntry ErrorLevel now "Failed to write log entry" ∅ (Some err) [].

Definition logger_log (l : logger) (ctx : Context) (level : Level)
    (msg : string) (err : option error) (fields : FieldsRef) (w : World)
  : Outcome :=
  if (level <? cfg_Level (logger_config l))%Z then Returned w
  else
    let (entry, w) := log_entry l ctx level msg err fields w in
    match Handler_Handle (logger_handler l) entry w with
    | (w, None) => Returned w
    | (w, Some err) =>
      match NewConsoleHandler "stderr" (FText (mkTextFormatter false false)) with
      | inl fallbackHandler =>
        let (now, w) := time_Now w in
        Returned (ConsoleHandler_Handle fallbackHandler
                    (fallback_entry now err) w).1
      | inr _ => Panicked w
      end
    end.

Definition logger_Debug (l : logger) (ctx : Context) (msg : string)
    (fields : FieldsRef) (w : World) : Outcome :=
  logger_log l ctx DebugLevel msg None fields w.

Definition logger_Info (l : logger) (ctx : Context) (msg : string)
    (fields : FieldsRef) (w : World) : Outcome :=
  logger_log l ctx InfoLevel msg None fields w.

Definition logger_Warn (l : logger) (ctx : Context) (msg : string)
    (fields : FieldsRef) (w : World) : Outcome :=
  logger_log l ctx WarnLevel msg None fields w.

Definition logger_Error (l : logger) (ctx : Context) (msg : string)
    (err : option error) (fields : FieldsRef) (w : World) : Outcome :=
  logger_log l ctx ErrorLevel msg err fields w.

(** [os.Exit(1)] follows the return of [log]. *)
Definition logger_Fatal (l : logger) (ctx : Context) (msg : string)
    (err : option error) (fields : FieldsRef) (w : World) : Outcome :=
  match logger_log l ctx FatalLevel msg err fields w with
  | Returned w' => Exited 1 w'
  | o => o
  end.

Definition logger_WithContext (l : logger) (ctx : Context) : logger :=
  mkLogger (logger_config l) (logger_handler l) (logger_fields l).

Definition logger_WithFields (l : logger) (fields : FieldsRef) (w : World)
  : logger * World :=
  let newFields :=
    merge_fields (deref w (logger_fields l)) (deref w fields) in
  let (p, w') := alloc newFields w in
  (mkLogger (logger_config l) (logger_handler l) (Some p), w').

(** ** handlers.go: closing

    [lumberjack]'s [Close], and the [Close] of a handler that is not one
    of the package, belong to the environment. *)
Record Closers := mkClosers {
  close_writer : Lumberjack -> World -> World * option error;
  close_custom : (Entry -> World -> World * option error)
                 -> World -> World * option error
}.

(** Stdout and stderr are not closed. *)
Definition ConsoleHandler_Close (h : ConsoleHandler) (w : World)
  : World * option error :=
  (w, None).

Definition FileHandler_Close (env : Closers) (h : FileHandler) (w : World)
  : World * option error :=
  close_writer env (file_writer h) w.

(** The loop of [MultiHandler.Close], over the [Close] of the members. *)
Definition MultiHandler_Close_loop
    (Close : Handler -> World -> World * option error)
  : list Handler -> World -> option error -> World * option error :=
  fix loop (handlers : list Handler) (w : World) (lastErr : option error) :=
    match handlers with
    | [] => (w, lastErr)
    | handler :: rest =>
      match Close handler w with
      | (w', Some err) => loop rest w' (Some err)
      | (w', None) => loop rest w' lastErr
      end
    end.

Fixpoint Handler_Close (env : Closers) (h : Handler) (w : World)
  : World * option error :=
  match h with
  | HConsole c => ConsoleHandler_Close c w
  | HFile f => FileHandler_Close env f w
  | HMulti handlers => MultiHandler_Close_loop (Handler_Close env) handlers w None
  | HCustom handle => close_custom env handle w
  end.

Definition MultiHandler_Close (env : Closers) (handlers : list Handler)
    (w : World) : World * option error :=
  Handler_Close env (HMulti handlers) w.

(** A handler built from console handlers alone. *)
Fixpoint console_only (h : Handler) : bool :=
  match h with
  | HConsole _ => true
  | HMulti handlers => forallb console_only handlers
  | _ => false
  end.

(** The members of a multi handler are closed once each, in the order of
    the list, each in the world its predecessor left. *)
Inductive closes (env : Closers)
  : list Handler -> World -> list (option error) -> World -> Prop :=
| closes_nil w : closes env [] w [] w
| closes_cons h hs w w1 r rs w2 :
    Handler_Close env h w = (w1, r) ->
    closes env hs w1 rs w2 ->
    closes env (h :: hs) w (r :: rs) w2.

(** ** middleware.go *)

(** The two functions of package [time] that the middleware applies to
    instants: [now.Sub(start).String()] and [t.UnixNano()]. *)
Record TimeOps := mkTimeOps {
  Since_String : Time -> Time -> string;
  UnixNano : Time -> Z
}.

(** What the middleware reads from a [gin.Context]: the request, the
    response writer and the errors of the handlers. *)
Record GinContext := mkGinContext {
  gin_Path : string;
  gin_RawQuery : string;
  gin_Method : string;
  gin_UserAgent : string;
  gin_HeaderRequestID : string;
  gin_ClientIP : string;
  gin_Status : Z;
  gin_Size : Z;
  gin_ErrorsLen : nat;
  gin_ErrorsString : string;
  gin_Context : Context
}.

(** [c.Request = c.Request.WithContext(ctx)]. *)
Definition set_gin_Context (ctx : Context) (c : GinContext) : GinContext :=
  mkGinContext (gin_Path c) (gin_RawQuery c) (gin_Method c) (gin_UserAgent c)
               (gin_HeaderRequestID c) (gin_ClientIP c) (gin_Status c)
               (gin_Size c) (gin_ErrorsLen c) (gin_ErrorsString c) ctx.

(** [c.Next()]: the rest of the handler chain, which returns.  The
    middleware is given the [logger] of this package as its [Logger]. *)
Definition Chain := GinContext -> World -> GinContext * World.

Definition HTTPMiddleware (ops : TimeOps) (log : logger) (Next : Chain)
    (c : GinContext) (w : World) : Outcome :=
  let (start, w) := time_Now w in
  let path := gin_Path c in
  let raw := gin_RawQuery c in
  let (c, w) := Next c w in
  let (now, w) := time_Now w in
  let latency := Since_String ops start now in
  let clientIP := gin_ClientIP c in
  let method := gin_Method c in
  let statusCode := gin_Status c in
  let bodySize := gin_Size c in
  let fields : Fields :=
    <["method" := VString method]>
    (<["path" := VString path]>
    (<["raw_query" := VString raw]>
    (<["client_ip" := VString clientIP]>
    (<["status" := VInt statusCode]>
    (<["latency" := VString latency]>
    (<["body_size" := VInt bodySize]>
    (<["user_agent" := VString (gin_UserAgent c)]> ∅))))))) in
  let fields :=
    if (0 <? gin_ErrorsLen c)%nat
    then <["errors" := VString (gin_ErrorsString c)]> fields else fields in
  let (p, w) := alloc fields w in
  let ctx := gin_Context c in
  if (500 <=? statusCode)%Z then
    logger_Error log ctx "HTTP Server Error" None (Some p) w
  else if (400 <=? statusCode)%Z then
    logger_Warn log ctx "HTTP Client Error" (Some p) w
  else if (300 <=? statusCode)%Z then
    logger_Info log ctx "HTTP Redirect" (Some p) w
  else
    logger_Info log ctx "HTTP Request" (Some p) w.

Definition charset : string :=
  "abcdefghijklmnopqrstuvwxyzABCDEFGHIJKLMNOPQRSTUVWXYZ0123456789".

(** [randomString]: one byte of [charset] per reading of the clock; an
    index below zero is a panic, [None]. *)
Fixpoint randomString (ops : TimeOps) (length : nat) (w : World)
  : option string * World :=
  match length with
  | O => (Some "", w)
  | S n =>
    let (t, w) := time_Now w in
    let i := Z.rem (UnixNano ops t) (Z.of_nat (String.length charset)) in
    if (i <? 0)%Z then (None, w)
    else
      match String.get (Z.to_nat i) charset with
      | None => (None, w)
      | Some ch =>
        match randomString ops n w with
        | (Some s, w') => (Some (String ch s), w')
        | (None, w') => (None, w')
        end
      end
  end.

(** [t.Format("20060102150405")]. *)
Definition Time_Format_compact (t : Time) : string :=
  appendInt (year t) 4 +:+ appendInt (month t) 2 +:+ appendInt (day t) 2 +:+
  appendInt (hour t) 2 +:+ appendInt (minute t) 2 +:+ appendInt (second t) 2.

Definition generateRequestID (ops : TimeOps) (w : World)
  : option string * World :=
  let (t, w) := time_Now w in
  match randomString ops 8 w with
  | (Some r, w') => (Some (Time_Format_compact t +:+ "-" +:+ r), w')
  | (None, w') => (None, w')
  end.

Definition RequestLogger (ops : TimeOps) (log : logger) (Next : Chain)
    (c : GinContext) (w : World) : Outcome :=
  let (start, w) := time_Now w in
  let requestID := gin_HeaderRequestID c in
  match (if String.eqb requestID "" then generateRequestID ops w
         else (Some requestID, w)) with
  | (None, w) => Panicked w
  | (Some requestID, w) =>
    let ctx := ("request_id", requestID) :: gin_Context c in
    let c := set_gin_Context ctx c in
    let started : Fields :=
      <["request_id" := VString requestID]>
      (<["method" := VString (gin_Method c)]>
      (<["path" := VString (gin_Path c)]>
      (<["client_ip" := VString (gin_ClientIP c)]> ∅))) in
    let (p, w) := alloc started w in
    match logger_Info log ctx "Request started" (Some p) w with
    | Returned w =>
      let (c, w) := Next c w in
      let (now, w) := time_Now w in
      let latency := Since_String ops start now in
      let fields : Fields :=
        <["request_id" := VString requestID]>
        (<["method" := VString (gin_Method c)]>
        (<["path" := VString (gin_Path c)]>
        (<["status" := VInt (gin_Status c)]>
        (<["latency" := VString latency]>
        (<["body_size" := VInt (gin_Size c)]> ∅))))) in
      let fields :=
        if (0 <? gin_ErrorsLen c)%nat
        then <["errors" := VString (gin_ErrorsString c)]> fields else fields in
      let (q, w) := alloc fields w in
      let ctx := gin_Context c in
      if (500 <=? gin_Status c)%Z then
        logger_Error log ctx "Request failed with server error" None (Some q) w
      else if (400 <=? gin_Status c)%Z then
        logger_Warn log ctx "Request failed with client error" (Some q) w
      else
        logger_Info log ctx "Request completed" (Some q) w
    | o => o
    end
  end.

(** ** Statements

    The notions the properties below are stated with. *)

(** What [MultiHandler.Handle] is expected to do, stated on its own:
    the members are visited once each, in the order of the list, each in
    the world its predecessor left and one call deeper than the multi
    handler itself; [results] are their answers. *)
Inductive visits (entry : Entry)
  : list Handler -> World -> list (option error) -> World -> Prop :=
| visits_nil w : visits entry [] w [] w
| visits_cons h hs w w1 r rs w2 :
    Handler_Handle h entry (enter_multi w) = (w1, r) ->
    visits entry hs (leave_multi w w1) rs w2 ->
    visits entry (h :: hs) w (r :: rs) w2.

(** The last error among the answers of the members. *)
Definition last_error (results : list (option error)) : option error :=
  last (omap id results).

(** A reference is usable in a world when it is nil or allocated. *)
Definition ref_ok (w : World) (r : FieldsRef) : Prop :=
  match r with
  | Some p => p ∈ dom (heap w)
  | None => True
  end.

(** The keys that the JSON formatter writes after it has copied the
    fields of the entry, and so over a field of the same name. *)
Definition engine_keys (f : JSONFormatter) (cs : Callers) (e : Entry)
  : list string :=
  (if bool_decide (is_Some (entry_Error e)) then ["error"] else []) ++
  (if json_AddCaller f && bool_decide (is_Some (cs 3%nat))
   then ["caller"; "function"] else []) ++
  (if json_AddStack f && bool_decide (is_Some (entry_Error e))
      && (0 <? length (json_stack cs))%nat
   then ["stack"] else []).




(** What [Marshal] needs of a member of the map, and what the reader
    needs to find the member again. *)
Definition member_ok (k : string) (v : Value) : Prop :=
  valid_utf8 k /\ is_Some (to_json v).

(** The line that reports a failed write. *)
Definition fallback_line (now : Time) (e : error) : bytes :=
  to_bytes (Time_Format_millis now +:+
            " [ERROR] Failed to write log entry error=" +:+ e +:+
            String newline "").

(** The level, format and output of a configuration, or the default
    where the configuration has an unrecognised one. *)
Definition level_or_default (l : Level) : Level :=
  if bool_decide (DebugLevel <= l <= FatalLevel)%Z then l else InfoLevel.

Definition format_or_default (f : string) : string :=
  if bool_decide (f = "json" \/ f = "text") then f else "json".

Definition output_or_default (o : string) : string :=
  if bool_decide (o = "stdout" \/ o = "stderr" \/ o = "file") then o
  else "stdout".

(** The handler that [NewLogger] builds for a validated configuration. *)
Definition handler_of (c : Config) : Handler :=
  let formatter :=
    if String.eqb (cfg_Format c) "text"
    then FText (mkTextFormatter (cfg_AddCaller c) (cfg_AddStack c))
    else FJSON (mkJSONFormatter (cfg_AddCaller c) (cfg_AddStack c)) in
  if String.eqb (cfg_Output c) "file" then
    HFile (mkFileHandler
             (mkLumberjack (cfg_FilePath c) (cfg_MaxSize c) (cfg_MaxBackups c)
                           (cfg_MaxAge c) (cfg_Compress c))
             formatter)
  else if String.eqb (cfg_Output c) "stderr" then
    HConsole (mkConsoleHandler Stderr formatter)
  else HConsole (mkConsoleHandler Stdout formatter).

(** The first byte of an encoding is not white space and does not close
    an array. *)
Definition opens_value (c : ascii) : Prop :=
  is_ws (code c) = false /\ code c <> 93%N.

(** What the reading of one encoded tree, followed by [rest], gives. *)
Definition reads_back (x : json) : Prop :=
  forall (f : nat) (rest : bytes),
    (weight x <= f)%nat ->
    ends_value rest = true ->
    parse_value f (encode x ++ rest) = Some (coerce_json x, rest).

(** A handler built from the handlers of the package alone. *)
Fixpoint package_handler (h : Handler) : bool :=
  match h with
  | HConsole _ => true
  | HFile _ => true
  | HMulti handlers => forallb package_handler handlers
  | HCustom _ => false
  end.

(** From [w] to [w'] the field maps are as they were and the standard
    streams have kept what they held: bytes were appended at most. *)
Definition grows (w w' : World) : Prop :=
  heap w' = heap w /\
  content (stdout w) `prefix_of` content (stdout w') /\
  content (stderr w) `prefix_of` content (stderr w').

(** A string of 7-bit bytes. *)
Fixpoint all_ascii (s : string) : bool :=
  match s with
  | EmptyString => true
  | String b s' => (code b <? 128)%N && all_ascii s'
  end.

(** No byte below the space: no control character, no newline. *)
Definition no_control (bs : bytes) : bool :=
  forallb (fun b => (32 <=? code b)%N) bs.

(** The world [n] readings of the clock later. *)
Definition later (n : nat) (w : World) : World :=
  mkWorld (heap w) (stdout w) (stderr w) (files w) (clock w) (n + ticks w)
          (callers w) (mkdir_error w) (writer w) (multi_frame w).

(** A letter of either case or a digit. *)
Definition alnum (b : ascii) : bool :=
  ((97 <=? code b)%N && (code b <=? 122)%N)
  || ((65 <=? code b)%N && (code b <=? 90)%N)
  || ((48 <=? code b)%N && (code b <=? 57)%N).

Definition digit (b : ascii) : bool :=
  (48 <=? code b)%N && (code b <=? 57)%N.

(** An instant whose civil fields are in their usual ranges, with a year
    of at most four digits. *)
Definition civil (t : Time) : Prop :=
  (0 <= year t <= 9999)%Z /\ (1 <= month t <= 12)%Z /\ (1 <= day t <= 31)%Z /\
  (0 <= hour t <= 23)%Z /\ (0 <= minute t <= 59)%Z /\ (0 <= second t <= 59)%Z.

(** [appendInt x width] is [width] digits and nothing else. *)
Definition padded (width : nat) (x : Z) : bool :=
  (length (to_bytes (appendInt x width)) =? width)%nat
  && forallb digit (to_bytes (appendInt x width)).

(** The level at which the middleware reports a status. *)
Definition status_level (status : Z) : Level :=
  if (500 <=? status)%Z then ErrorLevel
  else if (400 <=? status)%Z then WarnLevel
  else InfoLevel.

(** ** Sample data *)

Definition sample_time : Time := mkTime 2024 3 9 7 5 1 123456789 0.

(** A writer with room to spare: the bytes go to the end of the log
    file. *)
Definition sample_writer (l : Lumberjack) (data : bytes)
    (fs : gmap string Stream) (now : nat)
  : gmap string Stream * nat * option error :=
  let f := default new_file (fs !! lj_Filename l) in
  (<[lj_Filename l := mkStream (content f ++ data) (room f)]> fs, 0%nat, None).

Definition sample_multi_frame : Frame :=
  mkFrame "gin-service/pkg/logger.(*MultiHandler).Handle"
          "/app/pkg/logger/handlers.go" 116.

Definition sample_world : World :=
  mkWorld ∅ new_file new_file ∅ (fun _ => sample_time) 0
          (fun _ => None) (fun _ => None) sample_writer sample_multi_frame.

Definition sample_config : Config :=
  mkConfig InfoLevel "json" "stdout" "logs/app.log" 100 3 28 true false false.

Definition sample_logger : logger :=
  mkLogger sample_config
           (HConsole (mkConsoleHandler Stdout (FJSON (mkJSONFormatter false false))))
           None.

Definition sample_base : Fields :=
  <["service" := VString "api"]> {["env" := VString "prod"]}.

Definition sample_extra : Fields :=
  <["env" := VString "test"]> {["request_id" := VString "r-1"]}.

Definition sample_heap_world : World :=
  set_heap (<[2%positive := sample_extra]> {[1%positive := sample_base]})
           sample_world.

Definition sample_base_logger : logger :=
  mkLogger sample_config (logger_handler sample_logger) (Some 1%positive).

Definition sample_chan_entry : Entry :=
  mkEntry InfoLevel sample_time "job queued" {["queue" := VChan 824633802752]}
          None [].

Definition sample_lumberjack : Lumberjack :=
  mkLumberjack "logs/app.log" 100 3 28 true.

(** The entry of the call
    [Info(ctx, "request completed", {"status": 200, "path": "/health"})]. *)
Definition sample_request_entry : Entry :=
  mkEntry InfoLevel sample_time "request completed"
          (<["status" := VInt 200]> {["path" := VString "/health"]}) None [].

(** An entry with a field named level. *)
Definition sample_shadow_entry : Entry :=
  mkEntry InfoLevel sample_time "user logged in" {["level" := VString "gold"]}
          None [].

Definition sample_request_world : World :=
  set_heap {[1%positive := entry_Fields sample_request_entry]} sample_world.

Definition sample_request_json : json :=
  JObj [("level", JStr "INFO");
        ("message", JStr "request completed");
        ("path", JStr "/health");
        ("status", JNum 200);
        ("timestamp", JStr "2024-03-09T07:05:01Z")].

(** A console handler with the text formatter, and a multi handler over
    it and a file handler. *)
Definition sample_text_console : Handler :=
  HConsole (mkConsoleHandler Stdout (FText (mkTextFormatter false false))).

Definition sample_multi : Handler :=
  HMulti [sample_text_console;
          HFile (mkFileHandler sample_lumberjack
                               (FJSON (mkJSONFormatter false false)))].

Definition sample_text_logger : logger :=
  mkLogger sample_config sample_text_console None.

Definition sample_multi_logger : logger :=
  mkLogger sample_config sample_multi None.

(** A call of [Info]: the third frame above [Format] is [log], the
    fourth is [Info]; and a console handler that adds the caller. *)
Definition sample_stack : Callers :=
  fun skip =>
    match skip with
    | 2%nat => Some (mkFrame "gin-service/pkg/logger.(*logger).log"
                             "/app/pkg/logger/logger.go" 101)
    | 3%nat => Some (mkFrame "gin-service/pkg/logger.(*logger).Info"
                             "/app/pkg/logger/logger.go" 120)
    | _ => None
    end.

Definition sample_stack_world : World := set_callers sample_stack sample_world.

Definition sample_caller_console : Handler :=
  HConsole (mkConsoleHandler Stdout (FJSON (mkJSONFormatter true false))).

(** The clock of the samples, in nanoseconds since 1970. *)
Definition sample_ops : TimeOps :=
  mkTimeOps (fun _ _ => "1.5ms")
            (fun t => 1709967901000000000 + nanosecond t)%Z.

(** A clock one nanosecond before 1970. *)
Definition sample_old_ops : TimeOps :=
  mkTimeOps (fun _ _ => "1.5ms") (fun _ => -1)%Z.

(** The request [GET /health] with and without an identifier, and a
    chain of handlers that answers 200 with two bytes. *)
Definition sample_gin : GinContext :=
  mkGinContext "/health" "" "GET" "curl/8.5.0" "req-42" "10.0.0.7"
               200 (-1) 0 "" [].

Definition sample_gin_anonymous : GinContext :=
  mkGinContext "/health" "" "GET" "curl/8.5.0" "" "10.0.0.7"
               200 (-1) 0 "" [].

Definition sample_chain : Chain :=
  fun c w =>
    (mkGinContext (gin_Path c) (gin_RawQuery c) (gin_Method c)
                  (gin_UserAgent c) (gin_HeaderRequestID c) (gin_ClientIP c)
                  200 2 (gin_ErrorsLen c) (gin_ErrorsString c)
                  (gin_Context c), w).

(** * Properties *)

(** ** The model on concrete inputs *)

Example Level_String_values :
  Level_String DebugLevel = "DEBUG" /\ Level_String InfoLevel = "INFO" /\
  Level_String WarnLevel = "WARN" /\ Level_String ErrorLevel = "ERROR" /\
  Level_String FatalLevel = "FATAL" /\ Level_String 7 = "UNKNOWN".
Proof. repeat split. Qed.

Example filepath_Base_values :
  filepath_Base "/srv/app/logger.go" = "logger.go" /\
  filepath_Base "logs/" = "logs" /\
  filepath_Base "///" = "/" /\
  filepath_Base "" = ".".
Proof. repeat split. Qed.

Example Time_Format_values :
  Time_Format_RFC3339 sample_time = "2024-03-09T07:05:01Z" /\
  Time_Format_millis (mkTime 2024 3 9 7 5 1 123456789 (-19800))
  = "2024-03-09T07:05:01.123-05:30".
Proof. split; vm_compute; reflexivity. Qed.

Example fmt_v_values :
  fmt_v (VSlice [VInt (-3); VString "a"; VNil; VBool true]) = "[-3 a <nil> true]" /\
  fmt_v (VChan 824633802752) = "0xc000014000".
Proof. split; vm_compute; reflexivity. Qed.

Example TextFormatter_Format_value :
  TextFormatter_Format (mkTextFormatter false false) (fun _ => None)
    (mkEntry WarnLevel sample_time "slow query" {["ms" := VInt 1200]}
             (Some "timeout") [])
  = (to_bytes ("2024-03-09T07:05:01.123Z [WARN] slow query {ms=1200} error=timeout"
               +:+ String newline ""),
     None).
Proof. vm_compute. reflexivity. Qed.

Example JSONFormatter_Format_value :
  JSONFormatter_Format (mkJSONFormatter false false) (fun _ => None)
                       sample_request_entry
  = (encode sample_request_json, None).
Proof. vm_compute. reflexivity. Qed.

Example json_parse_values :
  json_parse (to_bytes " [1, -20 ,true , null] ")
  = Some (JArr [JNum 1; JNum (-20); JBool true; JNull]) /\
  json_parse (to_bytes "[1,]") = None /\
  json_parse (to_bytes "01") = None /\
  json_parse (to_bytes "{} {}") = None.
Proof. repeat split. Qed.

(** ** Strings and bytes *)

Lemma append_assoc (a b c : string) : (a +:+ b) +:+ c = a +:+ (b +:+ c).
Proof.
  induction a as [| x a IH]; [reflexivity |].
  change (String x ((a +:+ b) +:+ c) = String x (a +:+ (b +:+ c))).
  f_equal. exact IH.
Qed.



Lemma of_to_bytes (s : string) : of_bytes (to_bytes s) = s.
Proof. apply string_of_list_ascii_of_string. Qed.

(** ** The level filter *)

(** C1: a call below the minimum level of the logger returns at once and
    leaves the world as it was: the clock is not read (no entry is built),
    the handler is not run and no sink receives a byte. *)
Theorem log_below_threshold_is_noop
    (l : logger) (ctx : Context) (level : Level) (msg : string)
    (err : option error) (fields : FieldsRef) (w : World) :
  (level < cfg_Level (logger_config l))%Z ->
  logger_log l ctx level msg err fields w = Returned w.
Proof.
  intros Hlt. unfold logger_log.
  destruct (Z.ltb_spec level (cfg_Level (logger_config l))) as [_ | Hge].
  - reflexivity.
  - lia.
Qed.

Lemma log_below_threshold_is_noop_witness :
  (DebugLevel < cfg_Level (logger_config sample_logger))%Z /\
  logger_Debug sample_logger [] "cache miss" None sample_world
  = Returned sample_world.
Proof.
  split.
  - reflexivity.
  - apply (log_below_threshold_is_noop sample_logger [] DebugLevel).
    reflexivity.
Defined.

(** ** Field maps *)

Lemma copy_into_union (src dst : Fields) : copy_into src dst = src ∪ dst.
Proof.
  unfold copy_into.
  apply (map_fold_weak_ind (fun r m => r = m ∪ dst)).
  - symmetry. apply (left_id_L ∅ (∪)).
  - intros k v m r Hk ->. apply insert_union_l.
Qed.

Lemma merge_fields_union (base extra : Fields) :
  merge_fields base extra = extra ∪ base.
Proof.
  unfold merge_fields. rewrite !copy_into_union.
  f_equal. apply (right_id_L ∅ (∪)).
Qed.

Lemma merge_fields_lookup (base extra : Fields) (k : string) :
  merge_fields base extra !! k
  = match extra !! k with Some v => Some v | None => base !! k end.
Proof.
  rewrite merge_fields_union, lookup_union.
  destruct (extra !! k), (base !! k); reflexivity.
Qed.

Lemma deref_alloc_old (m : Fields) (w : World) (r : FieldsRef) :
  ref_ok w r -> deref (alloc m w).2 r = deref w r.
Proof.
  destruct r as [p |]; [| reflexivity]. simpl. intros Hp.
  rewrite lookup_insert_ne; [reflexivity |].
  intros <-. exact (is_fresh (dom (heap w)) Hp).
Qed.

Lemma deref_alloc_new (m : Fields) (w : World) :
  deref (alloc m w).2 (Some (alloc m w).1) = m.
Proof. simpl. rewrite lookup_insert_eq. reflexivity. Qed.

(** C2: [WithFields] on a logger with base fields [B], given [C],
    allocates a map that holds [C]'s value for every key of [C] and [B]'s
    value for every other key of [B]; the maps behind [B] and [C] read as
    before; an entry built afterwards by a call without fields of its own
    carries that merged map for the new logger and [B] alone for the
    receiver, and a call with fields [D] lays [D] over them. *)
Theorem WithFields_merges_and_preserves
    (l : logger) (c : FieldsRef) (w : World) :
  ref_ok w (logger_fields l) ->
  ref_ok w c ->
  let B := deref w (logger_fields l) in
  let C := deref w c in
  let l' := (logger_WithFields l c w).1 in
  let w' := (logger_WithFields l c w).2 in
  (forall k, deref w' (logger_fields l') !! k
             = match C !! k with Some v => Some v | None => B !! k end) /\
  deref w' (logger_fields l) = B /\
  deref w' c = C /\
  logger_fields l' <> logger_fields l /\
  (forall ctx level msg err,
      entry_Fields (log_entry l' ctx level msg err None w').1
      = deref w' (logger_fields l') /\
      entry_Fields (log_entry l ctx level msg err None w').1 = B) /\
  (forall ctx level msg err d k,
      let D := deref w' d in
      entry_Fields (log_entry l' ctx level msg err d w').1 !! k
      = match D !! k with
        | Some v => Some v
        | None => match C !! k with Some v => Some v | None => B !! k end
        end /\
      entry_Fields (log_entry l ctx level msg err d w').1 !! k
      = match D !! k with Some v => Some v | None => B !! k end).
Proof.
  intros Hl Hc B C l' w'.
  assert (Hnew : deref w' (logger_fields l') = merge_fields B C).
  { apply deref_alloc_new. }
  assert (HB : deref w' (logger_fields l) = B).
  { apply deref_alloc_old. exact Hl. }
  assert (HC : deref w' c = C).
  { apply deref_alloc_old. exact Hc. }
  assert (Hentry : forall (x : logger) ctx level msg err d,
             entry_Fields (log_entry x ctx level msg err d w').1
             = merge_fields (deref w' (logger_fields x)) (deref w' d)).
  { reflexivity. }
  split; [| split; [exact HB | split; [exact HC | split; [| split]]]].
  - intros k. rewrite Hnew. apply merge_fields_lookup.
  - simpl. intros Heq. destruct (logger_fields l) as [p |]; [| discriminate].
    injection Heq as Heq. simpl in Hl. rewrite <- Heq in Hl.
    exact (is_fresh (dom (heap w)) Hl).
  - intros ctx level msg err. rewrite !Hentry, !merge_fields_union, HB.
    split; apply (left_id_L ∅ (∪)).
  - intros ctx level msg err d k D. rewrite !Hentry. split.
    + rewrite merge_fields_lookup, Hnew, merge_fields_lookup. reflexivity.
    + rewrite merge_fields_lookup, HB. reflexivity.
Qed.

Lemma WithFields_merges_and_preserves_witness :
  let l' := (logger_WithFields sample_base_logger (Some 2%positive)
                               sample_heap_world).1 in
  let w' := (logger_WithFields sample_base_logger (Some 2%positive)
                               sample_heap_world).2 in
  ref_ok sample_heap_world (Some 1%positive) /\
  ref_ok sample_heap_world (Some 2%positive) /\
  deref w' (logger_fields l') !! "env" = Some (VString "test") /\
  deref w' (logger_fields l') !! "service" = Some (VString "api") /\
  deref w' (Some 1%positive) = sample_base /\
  deref w' (Some 2%positive) = sample_extra.
Proof.
  assert (H1 : ref_ok sample_heap_world (Some 1%positive)).
  { apply (proj2 (elem_of_dom (heap sample_heap_world) 1%positive)).
    exists sample_base. reflexivity. }
  assert (H2 : ref_ok sample_heap_world (Some 2%positive)).
  { apply (proj2 (elem_of_dom (heap sample_heap_world) 2%positive)).
    exists sample_extra. reflexivity. }
  destruct (WithFields_merges_and_preserves
              sample_base_logger (Some 2%positive) sample_heap_world H1 H2)
    as (Hm & HB & HC & _).
  intros l' w'.
  split; [exact H1 |]. split; [exact H2 |].
  split; [exact (Hm "env") |]. split; [exact (Hm "service") |].
  split; [exact HB | exact HC].
Defined.

(** ** Handlers *)

(** C6: when the formatter of a console or of a file handler reports an
    error, [Handle] returns that error and the world, with every sink in
    it, is as before. *)
Theorem handle_format_error_writes_nothing
    (fmt : Formatter) (o : Output) (lj : Lumberjack) (entry : Entry)
    (w : World) (data : bytes) (err : error) :
  Formatter_Format fmt (callers w) entry = (data, Some err) ->
  ConsoleHandler_Handle (mkConsoleHandler o fmt) entry w = (w, Some err) /\
  FileHandler_Handle (mkFileHandler lj fmt) entry w = (w, Some err).
Proof.
  intros Hfmt. split.
  - unfold ConsoleHandler_Handle. simpl. rewrite Hfmt. reflexivity.
  - unfold FileHandler_Handle. simpl. rewrite Hfmt. reflexivity.
Qed.

Lemma handle_format_error_writes_nothing_witness :
  ConsoleHandler_Handle
    (mkConsoleHandler Stdout (FJSON (mkJSONFormatter false false)))
    sample_chan_entry sample_world
  = (sample_world, Some "json: unsupported type: chan int") /\
  FileHandler_Handle
    (mkFileHandler sample_lumberjack (FJSON (mkJSONFormatter false false)))
    sample_chan_entry sample_world
  = (sample_world, Some "json: unsupported type: chan int").
Proof.
  apply (handle_format_error_writes_nothing
           (FJSON (mkJSONFormatter false false)) Stdout sample_lumberjack
           sample_chan_entry sample_world []).
  vm_compute. reflexivity.
Defined.

Lemma last_error_cons (r : option error) (rs : list (option error)) :
  last_error (r :: rs)
  = match last_error rs with Some e' => Some e' | None => r end.
Proof.
  unfold last_error. destruct r as [e |].
  - change (omap id (Some e :: rs)) with (e :: omap id rs).
    destruct (omap id rs) as [| x xs]; [reflexivity |].
    rewrite last_cons. destruct (last (x :: xs)); reflexivity.
  - change (omap id (None :: rs)) with (omap id rs).
    destruct (last (omap id rs)); reflexivity.
Qed.

Lemma MultiHandler_loop_last (entry : Entry) (hs : list Handler) :
  forall (w : World) (acc : option error),
  exists rs w',
    visits entry hs w rs w' /\
    MultiHandler_loop Handler_Handle entry hs w acc
    = (w', match last_error rs with Some e => Some e | None => acc end).
Proof.
  induction hs as [| h hs IH]; intros w acc.
  - exists [], w. split; [constructor | reflexivity].
  - simpl. destruct (Handler_Handle h entry (enter_multi w)) as [w1 r] eqn:Hh.
    destruct r as [e |].
    + destruct (IH (leave_multi w w1) (Some e)) as (rs & w' & Hv & Hl).
      exists (Some e :: rs), w'. split; [econstructor; eauto |].
      rewrite Hl, last_error_cons. destruct (last_error rs); reflexivity.
    + destruct (IH (leave_multi w w1) acc) as (rs & w' & Hv & Hl).
      exists (None :: rs), w'. split; [econstructor; eauto |].
      rewrite Hl, last_error_cons. destruct (last_error rs); reflexivity.
Qed.

Lemma visits_length (entry : Entry) hs w rs w' :
  visits entry hs w rs w' -> length rs = length hs.
Proof. induction 1; simpl; congruence. Qed.

(** C7: the multi handler runs every member once, in the order of the
    list and whatever the earlier members answered, and returns the last
    error among their answers, or nil when none failed. *)
Theorem multi_handle_visits_all (hs : list Handler) (entry : Entry) (w : World) :
  exists rs w',
    visits entry hs w rs w' /\
    length rs = length hs /\
    MultiHandler_Handle hs entry w = (w', last_error rs) /\
    (Forall (fun r => r = None) rs -> last_error rs = None).
Proof.
  destruct (MultiHandler_loop_last entry hs w None) as (rs & w' & Hv & Hl).
  exists rs, w'. repeat split.
  - exact Hv.
  - eapply visits_length; eauto.
  - unfold MultiHandler_Handle. simpl. rewrite Hl.
    destruct (last_error rs); reflexivity.
  - intros Hall. unfold last_error.
    replace (omap id rs) with (@nil error); [reflexivity |].
    clear -Hall. induction Hall as [| r rs' Hr _ IH]; [reflexivity |].
    subst r. simpl. exact IH.
Qed.

(** ** The text formatter *)

(** C10: the text formatter returns a nil error for every entry, so a
    console or file handler with a text formatter always reaches the
    write of the formatted bytes. *)
Theorem text_format_never_fails
    (f : TextFormatter) (cs : Callers) (entry : Entry) :
  (TextFormatter_Format f cs entry).2 = None /\
  (forall o w,
      ConsoleHandler_Handle (mkConsoleHandler o (FText f)) entry w
      = File_Write o (TextFormatter_Format f (callers w) entry).1 w) /\
  (forall lj w,
      FileHandler_Handle (mkFileHandler lj (FText f)) entry w
      = Lumberjack_Write lj (TextFormatter_Format f (callers w) entry).1 w).
Proof.
  split; [reflexivity |].
  split; intros; reflexivity.
Qed.

(** ** Termination of the process *)

Lemma log_returns (l : logger) ctx level msg err fields w :
  exists w', logger_log l ctx level msg err fields w = Returned w'.
Proof.
  unfold logger_log.
  destruct (level <? cfg_Level (logger_config l))%Z; [eauto |].
  destruct (log_entry l ctx level msg err fields w) as [entry w1].
  destruct (Handler_Handle (logger_handler l) entry w1) as [w2 [e |]]; [| eauto].
  simpl. eauto.
Qed.

(** C5: [Fatal] runs the write path of [log] to its end, fallback
    included, and then exits with status 1; [Debug], [Info], [Warn] and
    [Error] return; [WithContext] and [WithFields] only build a logger:
    the first touches nothing, the second leaves the sinks and the clock
    alone. *)
Theorem only_fatal_exits
    (l : logger) (ctx : Context) (msg : string) (err : option error)
    (fields : FieldsRef) (w : World) :
  (exists w', logger_log l ctx FatalLevel msg err fields w = Returned w' /\
              logger_Fatal l ctx msg err fields w = Exited 1 w') /\
  (1 <> 0)%Z /\
  (exists w', logger_Debug l ctx msg fields w = Returned w') /\
  (exists w', logger_Info l ctx msg fields w = Returned w') /\
  (exists w', logger_Warn l ctx msg fields w = Returned w') /\
  (exists w', logger_Error l ctx msg err fields w = Returned w') /\
  logger_WithContext l ctx = l /\
  (let w' := (logger_WithFields l fields w).2 in
   stdout w' = stdout w /\ stderr w' = stderr w /\ files w' = files w /\
   ticks w' = ticks w).
Proof.
  split.
  { destruct (log_returns l ctx FatalLevel msg err fields w) as [w' Hw'].
    exists w'. split; [exact Hw' |]. unfold logger_Fatal. rewrite Hw'.
    reflexivity. }
  split; [lia |].
  repeat (split; [apply log_returns |]).
  split; [destruct l; reflexivity |].
  repeat split.
Qed.

(** ** The fallback *)

Lemma fallback_format (cs : Callers) (now : Time) (e : error) :
  TextFormatter_Format (mkTextFormatter false false) cs (fallback_entry now e)
  = (fallback_line now e, None).
Proof.
  unfold TextFormatter_Format, fallback_line. simpl.
  rewrite map_size_empty. simpl.
  f_equal. f_equal. rewrite append_assoc. reflexivity.
Qed.

(** C3: when the handler of the logger answers a call with an error, the
    call still returns; the world it leaves is the one the handler left,
    with the clock read once more and one write made to stderr, that of
    an entry of level Error in the text format; the handler of the logger
    is not run again. *)
Theorem log_failure_falls_back_to_stderr
    (l : logger) (ctx : Context) (level : Level) (msg : string)
    (err : option error) (fields : FieldsRef) (w : World)
    (entry : Entry) (w1 w2 : World) (e : error) :
  (cfg_Level (logger_config l) <= level)%Z ->
  log_entry l ctx level msg err fields w = (entry, w1) ->
  Handler_Handle (logger_handler l) entry w1 = (w2, Some e) ->
  let now := clock w2 (ticks w2) in
  let diagnostic := fallback_entry now e in
  let line := fallback_line now e in
  let w3 := set_stderr (Stream_Write (stderr w2) line).1 (time_Now w2).2 in
  logger_log l ctx level msg err fields w = Returned w3 /\
  entry_Level diagnostic = ErrorLevel /\
  entry_Error diagnostic = Some e /\
  TextFormatter_Format (mkTextFormatter false false) (callers w2) diagnostic
  = (line, None) /\
  stdout w3 = stdout w2 /\ files w3 = files w2 /\ heap w3 = heap w2 /\
  (room (stderr w2) = None ->
   content (stderr w3) = content (stderr w2) ++ line).
Proof.
  intros Hlevel Hentry Hhandle now diagnostic line w3.
  split; [| split; [reflexivity | split; [reflexivity | split]]].
  - unfold logger_log.
    destruct (Z.ltb_spec level (cfg_Level (logger_config l))) as [Hlt | _];
      [lia |].
    rewrite Hentry, Hhandle.
    change (NewConsoleHandler "stderr" (FText (mkTextFormatter false false)))
      with (@inl ConsoleHandler error
              (mkConsoleHandler Stderr (FText (mkTextFormatter false false)))).
    cbv beta iota. unfold time_Now at 1.
    unfold ConsoleHandler_Handle.
    change (Formatter_Format
              (console_formatter
                 (mkConsoleHandler Stderr (FText (mkTextFormatter false false))))
              ?cs ?en)
      with (TextFormatter_Format (mkTextFormatter false false) cs en).
    rewrite fallback_format.
    unfold File_Write, console_output. cbv beta iota.
    change (stderr (mkWorld _ _ ?s _ _ _ _ _ _ _)) with s.
    fold now. fold line.
    destruct (Stream_Write (stderr w2) line) as [s' r]. reflexivity.
  - apply fallback_format.
  - repeat split. intros Hroom. unfold w3. simpl.
    unfold Stream_Write. rewrite Hroom. reflexivity.
Qed.

(** A logger whose JSON formatter meets a channel among the fields. *)
Lemma log_failure_falls_back_to_stderr_witness :
  let entry := (log_entry sample_logger [] InfoLevel "job queued" None
                          (Some 1%positive)
                          (set_heap {[1%positive := entry_Fields sample_chan_entry]}
                                    sample_world)).1 in
  let w1 := (log_entry sample_logger [] InfoLevel "job queued" None
                       (Some 1%positive)
                       (set_heap {[1%positive := entry_Fields sample_chan_entry]}
                                 sample_world)).2 in
  Handler_Handle (logger_handler sample_logger) entry w1
  = (w1, Some "json: unsupported type: chan int") /\
  exists w3,
    logger_Info sample_logger [] "job queued" (Some 1%positive)
      (set_heap {[1%positive := entry_Fields sample_chan_entry]} sample_world)
    = Returned w3 /\
    content (stderr w3)
    = fallback_line sample_time "json: unsupported type: chan int".
Proof.
  intros entry w1.
  assert (Hh : Handler_Handle (logger_handler sample_logger) entry w1
               = (w1, Some "json: unsupported type: chan int")).
  { vm_compute. reflexivity. }
  split; [exact Hh |].
  destruct (log_failure_falls_back_to_stderr
              sample_logger [] InfoLevel "job queued" None (Some 1%positive)
              (set_heap {[1%positive := entry_Fields sample_chan_entry]}
                        sample_world)
              entry w1 w1 "json: unsupported type: chan int")
    as (Hlog & _ & _ & _ & _ & _ & _ & Hstderr).
  - vm_compute. discriminate.
  - reflexivity.
  - exact Hh.
  - eexists. split; [exact Hlog |]. apply Hstderr. reflexivity.
Defined.

(** ** Construction *)

Lemma level_or_default_eq (lv : Level) :
  (if (lv <? DebugLevel)%Z || (lv >? FatalLevel)%Z then InfoLevel else lv)
  = level_or_default lv.
Proof.
  unfold level_or_default, DebugLevel, FatalLevel. rewrite Z.gtb_ltb.
  case_bool_decide;
    destruct (Z.ltb_spec lv 0); destruct (Z.ltb_spec 4 lv); simpl;
    first [reflexivity | lia].
Qed.

Lemma format_or_default_eq (fm : string) :
  (if negb (String.eqb fm "json") && negb (String.eqb fm "text")
   then "json" else fm)
  = format_or_default fm.
Proof.
  unfold format_or_default. case_bool_decide as H.
  - destruct H as [-> | ->]; reflexivity.
  - destruct (String.eqb_spec fm "json"); [tauto |].
    destruct (String.eqb_spec fm "text"); [tauto |]. reflexivity.
Qed.

Lemma output_or_default_eq (ou : string) :
  (if negb (String.eqb ou "stdout") && negb (String.eqb ou "stderr")
      && negb (String.eqb ou "file")
   then "stdout" else ou)
  = output_or_default ou.
Proof.
  unfold output_or_default. case_bool_decide as H.
  - destruct H as [-> | [-> | ->]]; reflexivity.
  - destruct (String.eqb_spec ou "stdout"); [tauto |].
    destruct (String.eqb_spec ou "stderr"); [tauto |].
    destruct (String.eqb_spec ou "file"); [tauto |]. reflexivity.
Qed.

Lemma Validate_config (c : Config) (w : World) :
  (Config_Validate c w).1
  = set_Output (output_or_default (cfg_Output c))
      (set_Format (format_or_default (cfg_Format c))
         (set_Level (level_or_default (cfg_Level c)) c)).
Proof.
  destruct c as [lv fm ou fp ms mb ma cp ac ast].
  rewrite <- level_or_default_eq, <- format_or_default_eq,
    <- output_or_default_eq.
  unfold Config_Validate; simpl.
  destruct ((lv <? DebugLevel)%Z || (lv >? FatalLevel)%Z); simpl;
    destruct (negb (String.eqb fm "json") && negb (String.eqb fm "text")); simpl;
    destruct (negb (String.eqb ou "stdout") && negb (String.eqb ou "stderr")
              && negb (String.eqb ou "file")); simpl;
    unfold set_Output, set_Format, set_Level; simpl;
    repeat match goal with
           | |- context [String.eqb ?a "file"] => destruct (String.eqb a "file")
           | |- context [MkdirAll_Dir ?p ?w] => destruct (MkdirAll_Dir p w)
           end; reflexivity.
Qed.

Lemma Validate_error (c : Config) (w : World) :
  (Config_Validate c w).2
  = if String.eqb (cfg_Output c) "file"
    then mkdir_error w (cfg_FilePath c) else None.
Proof.
  destruct c as [lv fm ou fp ms mb ma cp ac ast].
  unfold Config_Validate, MkdirAll_Dir; simpl.
  destruct ((lv <? DebugLevel)%Z || (lv >? FatalLevel)%Z); simpl;
    destruct (negb (String.eqb fm "json") && negb (String.eqb fm "text")); simpl;
    destruct (String.eqb_spec ou "stdout") as [-> | H1]; simpl; try reflexivity;
    destruct (String.eqb_spec ou "stderr") as [-> | H2]; simpl; try reflexivity;
    destruct (String.eqb_spec ou "file") as [-> | H3]; simpl;
    try destruct (mkdir_error w fp); reflexivity.
Qed.

(** C8: construction fails only for the output "file" whose directory
    cannot be created, and then with that error; in every other case it
    yields a logger whose level, format and output are those of the
    configuration where they are recognised and Info, "json" and "stdout"
    where they are not. *)
Theorem NewLogger_defaults (config : Config) (w : World) :
  let valid :=
    set_Output (output_or_default (cfg_Output config))
      (set_Format (format_or_default (cfg_Format config))
         (set_Level (level_or_default (cfg_Level config)) config)) in
  match (NewLogger config w).1 with
  | inr err =>
    cfg_Output config = "file" /\
    mkdir_error w (cfg_FilePath config) = Some err
  | inl l =>
    (cfg_Output config = "file" -> mkdir_error w (cfg_FilePath config) = None) /\
    logger_config l = valid /\
    logger_handler l = handler_of valid
  end.
Proof.
  intros valid. unfold NewLogger.
  pose proof (Validate_config config w) as Hc.
  pose proof (Validate_error config w) as He.
  destruct (Config_Validate config w) as [c e]. simpl in Hc, He. subst c.
  fold valid.
  assert (Hfmt : cfg_Format valid = "json" \/ cfg_Format valid = "text").
  { unfold valid; simpl. unfold format_or_default.
    case_bool_decide as H; [exact H | left; reflexivity]. }
  assert (Hout : cfg_Output valid = "stdout" \/ cfg_Output valid = "stderr"
                 \/ cfg_Output valid = "file").
  { unfold valid; simpl. unfold output_or_default.
    case_bool_decide as H; [exact H | left; reflexivity]. }
  destruct (String.eqb_spec (cfg_Output config) "file") as [Hfile | Hnofile].
  - destruct e as [err |].
    + simpl. split; [exact Hfile | symmetry; exact He].
    + assert (Hv : cfg_Output valid = "file").
      { unfold valid; simpl. rewrite Hfile. reflexivity. }
      unfold handler_of. rewrite Hv.
      destruct Hfmt as [Hf | Hf]; rewrite Hf; simpl;
        (split; [intros _; symmetry; exact He | split; reflexivity]).
  - subst e.
    assert (Hv : cfg_Output valid <> "file").
    { unfold valid; simpl. unfold output_or_default.
      case_bool_decide; [exact Hnofile | discriminate]. }
    unfold handler_of.
    destruct Hout as [Ho | [Ho | Ho]]; [| | congruence];
      destruct Hfmt as [Hf | Hf]; rewrite Ho, Hf; simpl;
      (split; [intros Hx; congruence | split; reflexivity]).
Qed.

(** ** Reading back what [Marshal] wrote *)

Lemma chr_code (b : ascii) : chr (code b) = b.
Proof. apply ascii_N_embedding. Qed.

Lemma parse_raw (b : ascii) (tl : bytes) :
  (128 <= code b)%N ->
  parse_chars (b :: tl) = prepend (String b "") (parse_chars tl).
Proof.
  intros Hb. simpl.
  destruct (N.eqb_spec (code b) 34) as [E | _]; [lia |].
  destruct (N.eqb_spec (code b) 92) as [E | _]; [lia |].
  destruct (N.ltb_spec (code b) 32) as [E | _]; [lia |].
  reflexivity.
Qed.

Lemma parse_escape_ascii (b : ascii) (tl : bytes) :
  (code b < 128)%N ->
  parse_chars (escape_ascii b ++ tl) = prepend (String b "") (parse_chars tl).
Proof.
  destruct b as [[] [] [] [] [] [] [] []]; intros Hb;
    first [reflexivity | vm_compute in Hb; discriminate].
Qed.

Lemma parse_replacement (tl : bytes) :
  parse_chars (replacement ++ tl) = prepend replacement_char (parse_chars tl).
Proof. reflexivity. Qed.

Lemma second_ok_ge (n1 n2 : N) : second_ok n1 n2 = true -> (128 <= n2)%N.
Proof.
  unfold second_ok, cont.
  repeat match goal with
         | |- context [(?a =? ?b)%N] => destruct (N.eqb_spec a b)
         end;
    intros H; apply andb_prop in H as [H _]; apply N.leb_le in H; lia.
Qed.

Lemma cont_ge (n : N) : cont n = true -> (128 <= n)%N.
Proof.
  unfold cont. intros H. apply andb_prop in H as [H _].
  apply N.leb_le in H. exact H.
Qed.

Lemma parse_line_sep (b1 b2 b3 : ascii) (tl : bytes) :
  line_sep (code b1) (code b2) (code b3) = true ->
  parse_chars ([backslash; "u"%char; "2"%char; "0"%char; "2"%char;
                hex_digit (code b3 mod 16)] ++ tl)
  = prepend (String b1 (String b2 (String b3 ""))) (parse_chars tl).
Proof.
  unfold line_sep. intros H.
  apply andb_prop in H as [H H3]. apply andb_prop in H as [H1 H2].
  apply N.eqb_eq in H1. apply N.eqb_eq in H2.
  rewrite <- (chr_code b1), <- (chr_code b2), <- (chr_code b3), H1, H2.
  apply orb_prop in H3 as [H3 | H3]; apply N.eqb_eq in H3; rewrite H3;
    reflexivity.
Qed.

Lemma parse_chars_appendString_bounded (n : nat) :
  forall (s : string) (rest : bytes),
    (String.length s <= n)%nat ->
    parse_chars (appendString s ++ dquote :: rest) = Some (coerce_utf8 s, rest).
Proof.
  induction n as [| n IH]; intros s rest Hlen.
  - destruct s; [reflexivity | simpl in Hlen; lia].
  - destruct s as [| b1 s1]; [reflexivity |].
    simpl in Hlen.
    assert (IH1 : forall rest, parse_chars (appendString s1 ++ dquote :: rest)
                               = Some (coerce_utf8 s1, rest)).
    { intros r. apply IH. lia. }
    assert (Hbad : parse_chars ((replacement ++ appendString s1) ++ dquote :: rest)
                   = Some (replacement_char +:+ coerce_utf8 s1, rest)).
    { rewrite <- app_assoc, parse_replacement, IH1. reflexivity. }
    cbn [appendString coerce_utf8].
    destruct (N.ltb_spec (code b1) 128) as [Hlo | Hhi].
    { rewrite <- app_assoc, parse_escape_ascii by exact Hlo.
      rewrite IH1. reflexivity. }
    destruct (rune_len (code b1)) as [| [| [| [| [| k]]]]]; try exact Hbad.
    + destruct s1 as [| b2 s2]; [exact Hbad |].
      destruct (second_ok (code b1) (code b2)) eqn:H2; [| exact Hbad].
      simpl in Hlen.
      cbn [app]. rewrite parse_raw by exact Hhi.
      rewrite parse_raw by (eapply second_ok_ge; exact H2).
      rewrite IH by lia. reflexivity.
    + destruct s1 as [| b2 [| b3 s3]]; try exact Hbad.
      destruct (second_ok (code b1) (code b2)) eqn:H2; [| exact Hbad].
      destruct (cont (code b3)) eqn:H3; [| exact Hbad].
      simpl in Hlen. cbn [andb].
      destruct (line_sep (code b1) (code b2) (code b3)) eqn:Hsep.
      * rewrite <- app_assoc, (parse_line_sep b1 b2 b3) by exact Hsep.
        rewrite IH by lia. reflexivity.
      * cbn [app]. rewrite parse_raw by exact Hhi.
        rewrite parse_raw by (eapply second_ok_ge; exact H2).
        rewrite parse_raw by (apply cont_ge; exact H3).
        rewrite IH by lia. reflexivity.
    + destruct s1 as [| b2 [| b3 [| b4 s4]]]; try exact Hbad.
      destruct (second_ok (code b1) (code b2)) eqn:H2; [| exact Hbad].
      destruct (cont (code b3)) eqn:H3; [| exact Hbad].
      destruct (cont (code b4)) eqn:H4; [| exact Hbad].
      simpl in Hlen. cbn [andb app].
      rewrite parse_raw by exact Hhi.
      rewrite parse_raw by (eapply second_ok_ge; exact H2).
      rewrite parse_raw by (apply cont_ge; exact H3).
      rewrite parse_raw by (apply cont_ge; exact H4).
      rewrite IH by lia. reflexivity.
Qed.

Lemma parse_chars_appendString (s : string) (rest : bytes) :
  parse_chars (appendString s ++ dquote :: rest) = Some (coerce_utf8 s, rest).
Proof. eapply parse_chars_appendString_bounded. reflexivity. Qed.

Lemma ends_value_span (rest : bytes) :
  ends_value rest = true -> span_digits rest = ([], rest).
Proof.
  destruct rest as [| c r]; [reflexivity |]. simpl. intros H.
  destruct (is_digit (code c)) eqn:Hd; [| reflexivity].
  unfold is_digit in Hd. apply andb_prop in Hd as [H1 H2].
  apply N.leb_le in H1. apply N.leb_le in H2.
  repeat (apply orb_prop in H as [H | H]); apply N.eqb_eq in H; lia.
Qed.

Lemma ends_value_no_fraction (rest : bytes) :
  ends_value rest = true -> starts_fraction rest = false.
Proof.
  destruct rest as [| c r]; [reflexivity |]. simpl. intros H.
  repeat (apply orb_prop in H as [H | H]); apply N.eqb_eq in H; rewrite H;
    reflexivity.
Qed.

Lemma span_digits_uint (d : uint) (rest : bytes) :
  span_digits rest = ([], rest) ->
  span_digits (to_bytes (NilEmpty.string_of_uint d) ++ rest)
  = (to_bytes (NilEmpty.string_of_uint d), rest).
Proof.
  intros Hrest. induction d; simpl; [exact Hrest | ..];
    rewrite IHd; reflexivity.
Qed.

Lemma to_uint_no_leading_zero (p : positive) (d : uint) :
  Pos.to_uint p <> D0 d.
Proof.
  intros E.
  assert (Hn : unorm (Pos.to_uint p) = Pos.to_uint p).
  { rewrite <- DecimalPos.Unsigned.to_of, DecimalPos.Unsigned.of_to.
    reflexivity. }
  rewrite E, unorm_D0 in Hn.
  assert (Hcase : nzhead d = Nil \/ nzhead d <> Nil).
  { destruct (nzhead d); [left; reflexivity | right; discriminate ..]. }
  destruct Hcase as [Hz | Hz].
  - unfold unorm in Hn. rewrite Hz in Hn.
    assert (d = Nil) by congruence. subst d.
    exact (DecimalPos.Unsigned.to_uint_nonzero p E).
  - rewrite unorm_nzhead in Hn by exact Hz.
    exact (nzhead_nonzero _ _ Hn).
Qed.

Lemma parse_digits_pos (neg : bool) (p : positive) (rest : bytes) :
  ends_value rest = true ->
  parse_digits neg (to_bytes (NilEmpty.string_of_uint (Pos.to_uint p)) ++ rest)
  = Some (if neg then Z.neg p else Z.pos p, rest).
Proof.
  intros Hrest. unfold parse_digits.
  rewrite span_digits_uint by (apply ends_value_span; exact Hrest).
  pose proof (ends_value_no_fraction rest Hrest) as Hfrac.
  pose proof (DecimalPos.Unsigned.to_uint_nonnil p) as Hnil.
  pose proof (to_uint_no_leading_zero p) as Hzero.
  pose proof (DecimalPos.Unsigned.of_to p) as Hof.
  assert (Hu : NilEmpty.uint_of_string
                 (of_bytes (to_bytes (NilEmpty.string_of_uint (Pos.to_uint p))))
               = Some (Pos.to_uint p)).
  { rewrite of_to_bytes. apply NilEmpty.usu. }
  assert (Hz : Z.of_uint (Pos.to_uint p) = Z.pos p).
  { unfold Z.of_uint. rewrite Hof. reflexivity. }
  destruct (Pos.to_uint p) as [| d | d | d | d | d | d | d | d | d | d] eqn:E;
    [congruence | exfalso; exact (Hzero d eq_refl) | ..];
    cbn [NilEmpty.string_of_uint to_bytes list_ascii_of_string];
    cbn [NilEmpty.string_of_uint to_bytes list_ascii_of_string] in Hu;
    (match goal with
     | |- context [(code ?c =? 48)%N] =>
       change (code c =? 48)%N with false
     end);
    rewrite Hfrac; cbn [andb orb]; rewrite Hu, Hz; destruct neg; reflexivity.
Qed.

Lemma itoa_first (n : Z) :
  exists c s, itoa n = String c s /\
              ((code c = 45)%N \/ is_digit (code c) = true).
Proof.
  unfold itoa. destruct n as [| p | p]; simpl.
  - exists "0"%char, "". split; [reflexivity | right; reflexivity].
  - pose proof (DecimalPos.Unsigned.to_uint_nonnil p) as Hnil.
    unfold NilZero.string_of_uint.
    destruct (Pos.to_uint p); [congruence | ..]; simpl;
      eexists _, _; (split; [reflexivity | right; reflexivity]).
  - exists "-"%char. eexists. split; [reflexivity | left; reflexivity].
Qed.

Lemma string_of_uint_nonnil (d : uint) :
  d <> Nil -> NilZero.string_of_uint d = NilEmpty.string_of_uint d.
Proof. destruct d; [congruence | reflexivity ..]. Qed.

Lemma uint_first_digit (d : uint) :
  d <> Nil ->
  exists c s, NilEmpty.string_of_uint d = String c s /\ is_digit (code c) = true.
Proof.
  destruct d; [congruence | ..]; intros _; simpl; eexists _, _;
    (split; reflexivity).
Qed.

Lemma parse_number_itoa (n : Z) (rest : bytes) :
  ends_value rest = true ->
  parse_number (to_bytes (itoa n) ++ rest) = Some (n, rest).
Proof.
  intros Hrest. unfold itoa. destruct n as [| p | p].
  - simpl. unfold parse_digits. simpl.
    rewrite (ends_value_span rest Hrest).
    rewrite (ends_value_no_fraction rest Hrest). reflexivity.
  - cbn [Z.to_int NilZero.string_of_int].
    pose proof (DecimalPos.Unsigned.to_uint_nonnil p) as Hnil.
    rewrite string_of_uint_nonnil by exact Hnil.
    rewrite <- (parse_digits_pos false p rest Hrest).
    destruct (uint_first_digit _ Hnil) as (c & s & Hs & Hc). rewrite Hs.
    cbn [to_bytes list_ascii_of_string app parse_number].
    destruct (N.eqb_spec (code c) 45) as [E | _]; [| reflexivity].
    rewrite E in Hc. discriminate.
  - cbn [Z.to_int NilZero.string_of_int].
    pose proof (DecimalPos.Unsigned.to_uint_nonnil p) as Hnil.
    rewrite string_of_uint_nonnil by exact Hnil.
    rewrite <- (parse_digits_pos true p rest Hrest). reflexivity.
Qed.

(** Induction on JSON trees, through the lists they nest. *)
Lemma json_tree_ind (P : json -> Prop) :
  P JNull ->
  (forall b, P (JBool b)) ->
  (forall n, P (JNum n)) ->
  (forall s, P (JStr s)) ->
  (forall items, Forall P items -> P (JArr items)) ->
  (forall members, Forall (fun m => P m.2) members -> P (JObj members)) ->
  forall j, P j.
Proof.
  intros Hnull Hbool Hnum Hstr Harr Hobj.
  fix IH 1. intros [| b | n | s | items | members].
  - exact Hnull.
  - apply Hbool.
  - apply Hnum.
  - apply Hstr.
  - apply Harr. induction items as [| x l IHl]; constructor; [apply IH | exact IHl].
  - apply Hobj. induction members as [| [k x] l IHl]; constructor;
      [apply IH | exact IHl].
Qed.

Lemma parse_value_S (f : nat) (bs : bytes) :
  parse_value (S f) bs
  = match skip_ws bs with
    | [] => None
    | b :: r =>
      let n := code b in
      if (n =? 110)%N then
        option_map (pair JNull) (expect (to_bytes "ull") r)
      else if (n =? 116)%N then
        option_map (pair (JBool true)) (expect (to_bytes "rue") r)
      else if (n =? 102)%N then
        option_map (pair (JBool false)) (expect (to_bytes "alse") r)
      else if (n =? 34)%N then
        match parse_chars r with
        | Some (s, rest) => Some (JStr s, rest)
        | None => None
        end
      else if (n =? 91)%N then
        match skip_ws r with
        | c :: r' =>
          if (code c =? 93)%N then Some (JArr [], r')
          else
            match parse_elems f r with
            | Some (vs, rest) => Some (JArr vs, rest)
            | None => None
            end
        | [] => None
        end
      else if (n =? 123)%N then
        match skip_ws r with
        | c :: r' =>
          if (code c =? 125)%N then Some (JObj [], r')
          else
            match parse_members f r with
            | Some (ms, rest) => Some (JObj ms, rest)
            | None => None
            end
        | [] => None
        end
      else
        match parse_number (b :: r) with
        | Some (z, rest) => Some (JNum z, rest)
        | None => None
        end
    end.
Proof. reflexivity. Qed.

Lemma parse_elems_S (f : nat) (bs : bytes) :
  parse_elems (S f) bs
  = match parse_value f bs with
    | Some (v, rest) =>
      match skip_ws rest with
      | c :: r =>
        if (code c =? 44)%N then
          match parse_elems f r with
          | Some (vs, rest') => Some (v :: vs, rest')
          | None => None
          end
        else if (code c =? 93)%N then Some ([v], r)
        else None
      | [] => None
      end
    | None => None
    end.
Proof. reflexivity. Qed.

Lemma parse_members_S (f : nat) (bs : bytes) :
  parse_members (S f) bs
  = match skip_ws bs with
    | q :: r =>
      if (code q =? 34)%N then
        match parse_chars r with
        | Some (k, rest) =>
          match skip_ws rest with
          | c :: r1 =>
            if (code c =? 58)%N then
              match parse_value f r1 with
              | Some (v, rest1) =>
                match skip_ws rest1 with
                | d :: r2 =>
                  if (code d =? 44)%N then
                    match parse_members f r2 with
                    | Some (ms, rest') => Some ((k, v) :: ms, rest')
                    | None => None
                    end
                  else if (code d =? 125)%N then Some ([(k, v)], r2)
                  else None
                | [] => None
                end
              | None => None
              end
            else None
          | [] => None
          end
        | None => None
        end
      else None
    | [] => None
    end.
Proof. reflexivity. Qed.

Lemma encode_head (j : json) :
  exists c tl, encode j = c :: tl /\ opens_value c.
Proof.
  destruct j as [| [|] | n | s | items | members]; simpl;
    try (eexists _, _; split; [reflexivity | split; [reflexivity | discriminate]]).
  destruct (itoa_first n) as (c & s & Hs & Hc). rewrite Hs.
  exists c, (to_bytes s). split; [reflexivity |].
  unfold opens_value, is_ws. unfold is_digit in Hc.
  destruct Hc as [Hc | Hc].
  - rewrite Hc. split; [reflexivity | discriminate].
  - apply andb_prop in Hc as [H1 H2]. apply N.leb_le in H1. apply N.leb_le in H2.
    split; [| lia].
    repeat match goal with
           | |- context [(?a =? ?b)%N] => destruct (N.eqb_spec a b); [lia |]
           end.
    reflexivity.
Qed.

Lemma skip_ws_opens (c : ascii) (tl : bytes) :
  opens_value c -> skip_ws (c :: tl) = c :: tl.
Proof. intros [Hws _]. simpl. rewrite Hws. reflexivity. Qed.

Lemma parse_value_number (f : nat) (c : ascii) (tl : bytes) :
  (code c = 45)%N \/ is_digit (code c) = true ->
  parse_value (S f) (c :: tl)
  = match parse_number (c :: tl) with
    | Some (z, rest) => Some (JNum z, rest)
    | None => None
    end.
Proof.
  intros Hc. rewrite parse_value_S.
  assert (Hrange : (code c = 45 \/ 48 <= code c <= 57)%N).
  { destruct Hc as [Hc | Hc]; [left; exact Hc | right].
    unfold is_digit in Hc. apply andb_prop in Hc as [H1 H2].
    apply N.leb_le in H1. apply N.leb_le in H2. lia. }
  assert (Hws : is_ws (code c) = false).
  { unfold is_ws.
    repeat match goal with
           | |- context [(?a =? ?b)%N] => destruct (N.eqb_spec a b); [lia |]
           end.
    reflexivity. }
  cbn [skip_ws]. rewrite Hws. cbv zeta.
  repeat match goal with
         | |- context [(code c =? ?b)%N] =>
           destruct (N.eqb_spec (code c) b); [lia |]
         end.
  reflexivity.
Qed.

Lemma parse_elems_encode (items : list json) :
  Forall reads_back items ->
  items <> [] ->
  forall (f : nat) (rest : bytes),
    (list_sum (map (fun x => S (weight x)) items) <= f)%nat ->
    parse_elems f (encode_list encode items ++ "]"%char :: rest)
    = Some (map coerce_json items, rest).
Proof.
  induction 1 as [| x l Hx Hl IH]; [congruence |].
  intros _ f rest Hf. simpl in Hf.
  destruct f as [| f]; [lia |].
  rewrite parse_elems_S.
  destruct l as [| y l']; simpl in Hf.
  - cbn [encode_list].
    rewrite (Hx f ("]"%char :: rest)) by (first [lia | reflexivity]).
    reflexivity.
  - change (encode_list encode (x :: y :: l'))
      with (encode x ++ ","%char :: encode_list encode (y :: l')).
    rewrite <- app_assoc. cbn [app].
    rewrite (Hx f) by (first [lia | reflexivity]).
    cbn [skip_ws]. change (is_ws (code ","%char)) with false. cbv iota.
    change (code ","%char =? 44)%N with true. cbv iota.
    rewrite IH by (first [congruence | simpl in *; lia]).
    reflexivity.
Qed.

Lemma parse_members_encode (members : list (string * json)) :
  Forall (fun m => reads_back m.2) members ->
  members <> [] ->
  forall (f : nat) (rest : bytes),
    (list_sum (map (fun '(_, x) => S (weight x)) members) <= f)%nat ->
    parse_members f (encode_list encode_member members ++ "}"%char :: rest)
    = Some (map coerce_member members, rest).
Proof.
  induction 1 as [| [k x] l Hx Hl IH]; [congruence |].
  intros _ f rest Hf. simpl in Hf. simpl in Hx.
  destruct f as [| f]; [lia |].
  rewrite parse_members_S.
  assert (Hkey : forall tl,
             encode_member (k, x) ++ tl
             = dquote :: appendString k ++ dquote :: ":"%char :: encode x ++ tl).
  { intros tl. unfold encode_member, quote. cbn [app].
    rewrite <- !app_assoc. reflexivity. }
  destruct l as [| y l']; simpl in Hf.
  - cbn [encode_list]. rewrite Hkey.
    cbn [skip_ws]. change (is_ws (code dquote)) with false. cbv iota.
    change (code dquote =? 34)%N with true. cbv iota.
    rewrite parse_chars_appendString.
    cbn [skip_ws]. change (is_ws (code ":"%char)) with false. cbv iota.
    change (code ":"%char =? 58)%N with true. cbv iota.
    rewrite (Hx f ("}"%char :: rest)) by (first [lia | reflexivity]).
    reflexivity.
  - change (encode_list encode_member ((k, x) :: y :: l'))
      with (encode_member (k, x) ++ ","%char :: encode_list encode_member (y :: l')).
    rewrite <- app_assoc. rewrite Hkey.
    cbn [skip_ws]. change (is_ws (code dquote)) with false. cbv iota.
    change (code dquote =? 34)%N with true. cbv iota.
    rewrite parse_chars_appendString.
    cbn [skip_ws]. change (is_ws (code ":"%char)) with false. cbv iota.
    change (code ":"%char =? 58)%N with true. cbv iota.
    cbn [app].
    rewrite (Hx f) by (first [lia | reflexivity]).
    cbn [skip_ws]. change (is_ws (code ","%char)) with false. cbv iota.
    change (code ","%char =? 44)%N with true. cbv iota.
    rewrite IH by (first [congruence | simpl in *; lia]).
    reflexivity.
Qed.

Lemma encode_list_head {A : Type} (enc : A -> bytes) (x : A) (l : list A)
    (c : ascii) (tl : bytes) :
  enc x = c :: tl ->
  exists tl', encode_list enc (x :: l) = c :: tl'.
Proof.
  intros Hx. destruct l as [| y l']; cbn [encode_list]; rewrite Hx.
  - exists tl. reflexivity.
  - eexists. reflexivity.
Qed.

Lemma encode_JObj (members : list (string * json)) :
  encode (JObj members)
  = "{"%char :: encode_list encode_member members ++ ["}"%char].
Proof. reflexivity. Qed.

Lemma coerce_JObj (members : list (string * json)) :
  coerce_json (JObj members) = JObj (map coerce_member members).
Proof. reflexivity. Qed.

Lemma weight_JObj (members : list (string * json)) :
  weight (JObj members)
  = S (list_sum (map (fun '(_, x) => S (weight x)) members)).
Proof. reflexivity. Qed.

Theorem parse_value_encode (j : json) : reads_back j.
Proof.
  induction j as [| b | n | s | items IH | members IH] using json_tree_ind;
    intros f rest Hf Hrest; (destruct f as [| f]; [simpl in Hf; lia |]).
  - reflexivity.
  - destruct b; reflexivity.
  - destruct (itoa_first n) as (c & s & Hs & Hc).
    cbn [encode coerce_json].
    pose proof (parse_number_itoa n rest Hrest) as Hnum.
    rewrite Hs in *. cbn [to_bytes list_ascii_of_string app] in *.
    rewrite parse_value_number by exact Hc.
    rewrite Hnum. reflexivity.
  - cbn [encode coerce_json]. unfold quote. cbn [app].
    rewrite <- app_assoc. cbn [app].
    rewrite parse_value_S. cbn [skip_ws].
    change (is_ws (code dquote)) with false. cbv iota zeta.
    change (code dquote =? 110)%N with false.
    change (code dquote =? 116)%N with false.
    change (code dquote =? 102)%N with false.
    change (code dquote =? 34)%N with true. cbv iota.
    rewrite parse_chars_appendString. reflexivity.
  - cbn [encode coerce_json weight] in *.
    rewrite parse_value_S. cbn [app skip_ws].
    change (is_ws (code "["%char)) with false. cbv iota zeta.
    change (code "["%char =? 110)%N with false.
    change (code "["%char =? 116)%N with false.
    change (code "["%char =? 102)%N with false.
    change (code "["%char =? 34)%N with false.
    change (code "["%char =? 91)%N with true. cbv iota.
    rewrite <- app_assoc. cbn [app].
    destruct items as [| x l]; [reflexivity |].
    destruct (encode_head x) as (c & tl & Hx & Hc).
    destruct (encode_list_head encode x l c tl Hx) as (tl' & Hl).
    rewrite parse_elems_encode by (first [assumption | congruence | lia]).
    rewrite Hl. cbn [app]. rewrite skip_ws_opens by exact Hc.
    destruct Hc as [_ Hc]. destruct (N.eqb_spec (code c) 93); [contradiction |].
    reflexivity.
  - rewrite encode_JObj, coerce_JObj. rewrite weight_JObj in Hf.
    rewrite parse_value_S. cbn [app skip_ws].
    change (is_ws (code "{"%char)) with false. cbv iota zeta.
    change (code "{"%char =? 110)%N with false.
    change (code "{"%char =? 116)%N with false.
    change (code "{"%char =? 102)%N with false.
    change (code "{"%char =? 34)%N with false.
    change (code "{"%char =? 91)%N with false.
    change (code "{"%char =? 123)%N with true. cbv iota.
    rewrite <- app_assoc. cbn [app].
    destruct members as [| [k x] l]; [reflexivity |].
    rewrite parse_members_encode by (first [assumption | congruence | lia]).
    destruct l as [| y l']; cbn [encode_list encode_member quote app];
      (change (is_ws (code dquote)) with false; cbv iota;
       change (code dquote =? 125)%N with false; cbv iota; reflexivity).
Qed.

Lemma itoa_length (n : Z) : (1 <= length (to_bytes (itoa n)))%nat.
Proof.
  destruct (itoa_first n) as (c & s & Hs & _). rewrite Hs. simpl. lia.
Qed.

Lemma encode_list_length {A : Type} (enc : A -> bytes) (wt : A -> nat)
    (l : list A) :
  Forall (fun x => (wt x <= length (enc x))%nat) l ->
  (list_sum (map (fun x => S (wt x)) l) <= S (length (encode_list enc l)))%nat.
Proof.
  induction 1 as [| x l Hx Hl IH]; [simpl; lia |].
  destruct l as [| y l'].
  - simpl. lia.
  - change (encode_list enc (x :: y :: l'))
      with (enc x ++ ","%char :: encode_list enc (y :: l')).
    change (list_sum (map (fun x => S (wt x)) (x :: y :: l')))
      with (S (wt x) + list_sum (map (fun x => S (wt x)) (y :: l')))%nat.
    rewrite length_app. cbn [length]. lia.
Qed.

Lemma weight_le_length (j : json) : (weight j <= length (encode j))%nat.
Proof.
  induction j as [| b | n | s | items IH | members IH] using json_tree_ind.
  - simpl. lia.
  - destruct b; simpl; lia.
  - apply itoa_length.
  - simpl. rewrite length_app. simpl. lia.
  - cbn [weight encode length]. rewrite length_app. cbn [length].
    pose proof (encode_list_length encode weight items IH). lia.
  - rewrite weight_JObj, encode_JObj. cbn [length]. rewrite length_app.
    cbn [length].
    assert (Hm : Forall (fun m : string * json =>
                           (weight m.2 <= length (encode_member m))%nat) members).
    { eapply Forall_impl; [exact IH |]. intros [k x] Hx. simpl in *.
      rewrite length_app. simpl. rewrite length_app. simpl. lia. }
    pose proof (encode_list_length encode_member (fun m => weight m.2) members Hm)
      as Hlen.
    assert (Heq : map (fun '(_, x) => S (weight x)) members
                  = map (fun m : string * json => S (weight m.2)) members).
    { apply map_ext. intros [k x]. reflexivity. }
    rewrite Heq. lia.
Qed.

(** Reading the encoding of a tree gives the tree back, up to the
    replacement of ill-formed UTF-8 in its strings. *)
Theorem json_parse_encode (j : json) :
  json_parse (encode j) = Some (coerce_json j).
Proof.
  unfold json_parse.
  rewrite <- (app_nil_r (encode j)) at 2.
  rewrite (parse_value_encode j) by
    (first [pose proof (weight_le_length j); lia | reflexivity]).
  reflexivity.
Qed.

(** ** The map of the JSON formatter *)

Lemma fields_overlay (fields data : Fields) :
  (if (0 <? size fields)%nat then copy_into fields data else data)
  = fields ∪ data.
Proof.
  destruct (Nat.ltb_spec 0 (size fields)) as [_ | Hz].
  - apply copy_into_union.
  - assert (fields = ∅) as -> by (apply map_size_empty_inv; lia).
    symmetry. apply (left_id_L ∅ (∪)).
Qed.

Lemma is_Some_Some_true {A : Type} (x : A) :
  bool_decide (is_Some (Some x)) = true.
Proof. apply bool_decide_eq_true_2. eauto. Qed.

Lemma is_Some_None_false {A : Type} :
  bool_decide (is_Some (@None A)) = false.
Proof. apply bool_decide_eq_false_2. intros [x Hx]. discriminate. Qed.

Lemma data_lookup (f : JSONFormatter) (cs : Callers) (e : Entry) (k : string) :
  k ∉ engine_keys f cs e ->
  JSONFormatter_data f cs e !! k = (entry_Fields e ∪ json_base e) !! k.
Proof.
  unfold JSONFormatter_data, engine_keys. rewrite fields_overlay.
  destruct (entry_Error e) as [err |], (json_AddCaller f), (cs 3%nat) as [fr |],
    (json_AddStack f), (0 <? length (json_stack cs))%nat;
    rewrite ?is_Some_Some_true, ?is_Some_None_false;
    cbn [andb app]; intros Hk;
    repeat (rewrite lookup_insert_ne by (intros <-; apply Hk; set_solver));
    reflexivity.
Qed.

Lemma to_json_strings (l : list string) :
  to_json (VSlice (VString <$> l)) = Some (JArr (JStr <$> l)).
Proof.
  cbn [to_json].
  assert (H : all_some to_json (VString <$> l) = Some (JStr <$> l)).
  { induction l as [| x l IH]; [reflexivity |].
    cbn [fmap list_fmap all_some to_json] in *. rewrite IH. reflexivity. }
  rewrite H. reflexivity.
Qed.

Lemma json_base_ok (e : Entry) : map_Forall member_ok (json_base e).
Proof.
  unfold json_base.
  repeat (apply map_Forall_insert_2; [split; [reflexivity | eexists; reflexivity] |]).
  apply map_Forall_empty.
Qed.

Lemma data_ok (f : JSONFormatter) (cs : Callers) (e : Entry) :
  map_Forall member_ok (entry_Fields e) ->
  map_Forall member_ok (JSONFormatter_data f cs e).
Proof.
  intros Hfields. unfold JSONFormatter_data. rewrite fields_overlay.
  assert (H0 : map_Forall member_ok (entry_Fields e ∪ json_base e)).
  { apply map_Forall_union_2; [exact Hfields | apply json_base_ok]. }
  destruct (entry_Error e) as [err |], (json_AddCaller f), (cs 3%nat) as [fr |],
    (json_AddStack f), (0 <? length (json_stack cs))%nat;
    rewrite ?is_Some_Some_true, ?is_Some_None_false; cbn [andb];
    repeat (apply map_Forall_insert_2;
            [split; [reflexivity
                    | first [eexists; reflexivity
                            | rewrite to_json_strings; eexists; reflexivity]] |]);
    exact H0.
Qed.

(** ** [Marshal] of a map *)

Lemma all_some_Forall2 {A B : Type} (f : A -> option B) (l : list A) :
  forall ys, all_some f l = Some ys -> Forall2 (fun x y => f x = Some y) l ys.
Proof.
  induction l as [| x l IH]; intros ys H; cbn [all_some] in H.
  - injection H as <-. constructor.
  - destruct (f x) as [y |] eqn:Hx; [| discriminate].
    destruct (all_some f l) as [ys' |]; [| discriminate].
    injection H as <-. constructor; [exact Hx | apply IH; reflexivity].
Qed.

Lemma all_some_is_Some {A B : Type} (f : A -> option B) (l : list A) :
  Forall (fun x => is_Some (f x)) l -> is_Some (all_some f l).
Proof.
  induction 1 as [| x l [y Hy] _ [ys Hys]]; cbn [all_some].
  - eexists; reflexivity.
  - rewrite Hy, Hys. eexists; reflexivity.
Qed.

Lemma members_fst (l : list (string * Value)) (ms : list (string * json)) :
  Forall2 (fun x y => member_to_json x = Some y) l ms -> ms.*1 = l.*1.
Proof.
  induction 1 as [| [k v] [k' j] l ms Hx _ IH]; [reflexivity |].
  cbn [fmap list_fmap]. rewrite IH. f_equal.
  unfold member_to_json in Hx. simpl in *.
  destruct (to_json v); [| discriminate]. injection Hx as -> _. reflexivity.
Qed.

Lemma members_elem (l : list (string * Value)) (ms : list (string * json))
    (k : string) (v : Value) (j : json) :
  Forall2 (fun x y => member_to_json x = Some y) l ms ->
  (k, v) ∈ l -> to_json v = Some j -> (k, j) ∈ ms.
Proof.
  induction 1 as [| x y l ms Hx _ IH]; intros Hin Hj.
  - inversion Hin.
  - apply elem_of_cons in Hin as [<- | Hin].
    + unfold member_to_json in Hx. simpl in Hx. rewrite Hj in Hx.
      injection Hx as <-. left.
    + right. apply IH; assumption.
Qed.

Lemma Marshal_members (data : Fields) :
  map_Forall member_ok data ->
  exists ms,
    json_Marshal data = (encode (JObj ms), None) /\
    NoDup ms.*1 /\
    Forall (fun m => valid_utf8 m.1) ms /\
    (forall k v j, data !! k = Some v -> to_json v = Some j -> (k, j) ∈ ms).
Proof.
  intros Hok.
  assert (Hperm : sorted_pairs data ≡ₚ map_to_list data).
  { apply merge_sort_Permutation. }
  assert (Hall : Forall (fun x => is_Some (member_to_json x)) (sorted_pairs data)).
  { rewrite Hperm. apply map_Forall_to_list in Hok.
    eapply Forall_impl; [exact Hok |]. intros [k v] [_ [j Hj]].
    unfold member_to_json. simpl in *. rewrite Hj. eexists; reflexivity. }
  destruct (all_some_is_Some _ _ Hall) as [ms Hms].
  pose proof (all_some_Forall2 _ _ _ Hms) as H2.
  pose proof (members_fst _ _ H2) as Hfst.
  exists ms. split; [| split; [| split]].
  - unfold json_Marshal, members_to_json. rewrite Hms. reflexivity.
  - rewrite Hfst, Hperm. apply NoDup_fst_map_to_list.
  - apply Forall_forall. intros [k j] Hin.
    assert (Hk : k ∈ ms.*1).
    { apply list_elem_of_fmap. exists (k, j). split; [reflexivity | exact Hin]. }
    rewrite Hfst, Hperm in Hk.
    apply list_elem_of_fmap in Hk as ([k' v] & -> & Hin').
    apply elem_of_map_to_list in Hin'.
    exact (proj1 (Hok _ _ Hin')).
  - intros k v j Hk Hj.
    apply (members_elem _ _ k v j H2); [| exact Hj].
    rewrite Hperm. apply elem_of_map_to_list. exact Hk.
Qed.

(** ** Members of the document read back *)

Lemma assoc_last_None (k : string) (ms : list (string * json)) :
  k ∉ ms.*1 -> assoc_last k ms = None.
Proof.
  induction ms as [| [k' x] ms IH]; [reflexivity |].
  cbn [fmap list_fmap]. simpl. intros Hk.
  apply not_elem_of_cons in Hk as [Hne Hk].
  rewrite IH by exact Hk.
  destruct (String.eqb_spec k k'); [contradiction | reflexivity].
Qed.

Lemma assoc_last_NoDup (k : string) (x : json) (ms : list (string * json)) :
  NoDup ms.*1 -> (k, x) ∈ ms -> assoc_last k ms = Some x.
Proof.
  induction ms as [| [k' x'] ms IH]; intros Hnd Hin.
  - inversion Hin.
  - cbn [fmap list_fmap] in Hnd. simpl in Hnd.
    apply NoDup_cons in Hnd as [Hk' Hnd].
    apply elem_of_cons in Hin as [Heq | Hin].
    + injection Heq as -> ->. simpl.
      rewrite assoc_last_None by exact Hk'.
      rewrite String.eqb_refl. reflexivity.
    + simpl. rewrite IH by assumption. reflexivity.
Qed.

Lemma coerce_members_fst (ms : list (string * json)) :
  Forall (fun m => valid_utf8 m.1) ms -> (map coerce_member ms).*1 = ms.*1.
Proof.
  induction 1 as [| [k x] ms Hk _ IH]; [reflexivity |].
  cbn [map fmap list_fmap coerce_member]. simpl in *.
  rewrite Hk. f_equal. exact IH.
Qed.

Lemma coerce_members_elem (ms : list (string * json)) (k : string) (j : json) :
  valid_utf8 k -> (k, j) ∈ ms -> (k, coerce_json j) ∈ map coerce_member ms.
Proof.
  intros Hk Hin.
  apply (list_elem_of_fmap_2' coerce_member ms (k, j)); [exact Hin |].
  simpl. rewrite Hk. reflexivity.
Qed.

(** The member of a key, in the document that the formatter wrote. *)
Lemma Marshal_get (data : Fields) :
  map_Forall member_ok data ->
  exists ms,
    json_Marshal data = (encode (JObj ms), None) /\
    forall k v j,
      data !! k = Some v -> to_json v = Some j ->
      json_get k (coerce_json (JObj ms)) = Some (coerce_json j).
Proof.
  intros Hok. destruct (Marshal_members data Hok) as (ms & Hm & Hnd & Hval & Hin).
  exists ms. split; [exact Hm |].
  intros k v j Hk Hj. rewrite coerce_JObj. cbn [json_get].
  apply assoc_last_NoDup.
  - rewrite coerce_members_fst by exact Hval. exact Hnd.
  - apply coerce_members_elem; [exact (proj1 (Hok _ _ Hk)) |].
    exact (Hin k v j Hk Hj).
Qed.

(** ** The round trip through the JSON formatter *)

Lemma engine_keys_names (f : JSONFormatter) (cs : Callers) (e : Entry)
    (k : string) :
  k ∈ engine_keys f cs e -> k ∈ ["error"; "caller"; "function"; "stack"].
Proof.
  unfold engine_keys.
  destruct (bool_decide (is_Some (entry_Error e))), (json_AddCaller f),
    (bool_decide (is_Some (cs 3%nat))), (json_AddStack f),
    (0 <? length (json_stack cs))%nat; cbn [andb app]; intros Hin;
    repeat (apply elem_of_cons in Hin as [-> | Hin]; [repeat constructor |]);
    inversion Hin.
Qed.




Lemma not_engine_key (f : JSONFormatter) (cs : Callers) (e : Entry)
    (k : string) :
  k ∉ ["error"; "caller"; "function"; "stack"] -> k ∉ engine_keys f cs e.
Proof. intros Hk Hin. apply Hk. eapply engine_keys_names. exact Hin. Qed.






(** The other conditions of the amended statement are needed too: a
    channel among the fields makes the formatter fail, an ill-formed byte
    in the message comes back as U+FFFD, and the error of the entry is
    written over a field named error. *)
Example json_format_refuses_channel :
  JSONFormatter_Format (mkJSONFormatter false false) (fun _ => None)
                       sample_chan_entry
  = ([], Some "json: unsupported type: chan int").
Proof. vm_compute. reflexivity. Qed.

Example json_message_ill_formed_byte :
  let e := mkEntry InfoLevel sample_time (String (chr 255) "") ∅ None [] in
  exists obj,
    json_parse (JSONFormatter_Format (mkJSONFormatter false false)
                                     (fun _ => None) e).1 = Some obj /\
    json_get "message" obj = Some (JStr replacement_char).
Proof. eexists. split; vm_compute; reflexivity. Qed.

Example json_error_key_overwritten :
  let e := mkEntry ErrorLevel sample_time "save failed"
                   {["error" := VInt 7]} (Some "disk full") [] in
  exists obj,
    json_parse (JSONFormatter_Format (mkJSONFormatter false false)
                                     (fun _ => None) e).1 = Some obj /\
    json_get "error" obj = Some (JStr "disk full").
Proof. eexists. split; vm_compute; reflexivity. Qed.

(** ** The JSON formatter on the console *)

Lemma Marshal_inv (data : Fields) (out : bytes) :
  json_Marshal data = (out, None) -> exists ms, out = encode (JObj ms).
Proof.
  unfold json_Marshal. destruct (members_to_json (sorted_pairs data)) as [ms |].
  - intros [= <-]. exists ms. reflexivity.
  - discriminate.
Qed.

Lemma encode_JObj_last (ms : list (string * json)) :
  last (encode (JObj ms)) = Some "}"%char.
Proof.
  rewrite encode_JObj. rewrite app_comm_cons. apply last_snoc.
Qed.

(** C9: on a logger whose handler is the console handler on stdout with
    the JSON formatter, a call that passes the level filter appends to
    stdout the encoding of one JSON object, which a JSON reader accepts,
    and nothing more: the last byte written is the closing brace of the
    object, not a newline. *)
Theorem json_console_write_has_no_newline
    (l : logger) (f : JSONFormatter) (ctx : Context) (level : Level)
    (msg : string) (err : option error) (fields : FieldsRef) (w : World)
    (entry : Entry) (w1 : World) (data : bytes) :
  logger_handler l = HConsole (mkConsoleHandler Stdout (FJSON f)) ->
  (cfg_Level (logger_config l) <= level)%Z ->
  log_entry l ctx level msg err fields w = (entry, w1) ->
  JSONFormatter_Format f (callers w1) entry = (data, None) ->
  room (stdout w) = None ->
  exists w' ms,
    logger_log l ctx level msg err fields w = Returned w' /\
    content (stdout w') = content (stdout w) ++ data /\
    data = encode (JObj ms) /\
    json_parse data = Some (coerce_json (JObj ms)) /\
    last data = Some "}"%char /\
    last data <> Some newline.
Proof.
  intros Hh Hlevel Hentry Hfmt Hroom.
  destruct (Marshal_inv _ _ Hfmt) as [ms Hms].
  assert (Hout : stdout w1 = stdout w).
  { unfold log_entry in Hentry. simpl in Hentry. injection Hentry as _ <-.
    reflexivity. }
  exists (set_stdout (mkStream (content (stdout w) ++ data) None) w1), ms.
  split; [| split; [reflexivity | split; [exact Hms | split; [| split]]]].
  - unfold logger_log.
    destruct (Z.ltb_spec level (cfg_Level (logger_config l))) as [Hlt | _];
      [lia |].
    rewrite Hentry, Hh. cbn [Handler_Handle].
    unfold ConsoleHandler_Handle. cbn [console_formatter Formatter_Format].
    rewrite Hfmt. cbn [console_output File_Write].
    unfold Stream_Write. rewrite Hout, Hroom. reflexivity.
  - rewrite Hms. apply json_parse_encode.
  - rewrite Hms. apply encode_JObj_last.
  - rewrite Hms, encode_JObj_last. discriminate.
Qed.

Lemma json_console_write_has_no_newline_witness :
  exists w',
    logger_Info sample_logger [] "request completed" (Some 1%positive)
                sample_request_world
    = Returned w' /\
    content (stdout w') = encode sample_request_json /\
    last (content (stdout w')) <> Some newline.
Proof.
  destruct (json_console_write_has_no_newline
              sample_logger (mkJSONFormatter false false) []
              InfoLevel "request completed" None (Some 1%positive)
              sample_request_world
              (log_entry sample_logger [] InfoLevel "request completed" None
                         (Some 1%positive) sample_request_world).1
              (log_entry sample_logger [] InfoLevel "request completed" None
                         (Some 1%positive) sample_request_world).2
              (encode sample_request_json))
    as (w' & ms & Hlog & Hcontent & _ & _ & _ & Hlast).
  - reflexivity.
  - vm_compute. discriminate.
  - reflexivity.
  - vm_compute. reflexivity.
  - reflexivity.
  - exists w'. split; [exact Hlog |]. split; [exact Hcontent |].
    rewrite Hcontent. exact Hlast.
Defined.


(** * Further properties of the package *)

(** ** Levels *)

(** X1: the names of the five levels are pairwise distinct, and a level
    is named UNKNOWN exactly when it is none of the five. *)
Theorem Level_String_injective :
  (forall l1 l2 : Level,
      (DebugLevel <= l1 <= FatalLevel)%Z ->
      (DebugLevel <= l2 <= FatalLevel)%Z ->
      Level_String l1 = Level_String l2 -> l1 = l2) /\
  (forall l : Level,
      Level_String l = "UNKNOWN" <->
      (l < DebugLevel)%Z \/ (FatalLevel < l)%Z).
Proof.
  unfold DebugLevel, FatalLevel. split.
  - intros l1 l2 H1 H2.
    assert (E1 : (l1 = 0 \/ l1 = 1 \/ l1 = 2 \/ l1 = 3 \/ l1 = 4)%Z) by lia.
    assert (E2 : (l2 = 0 \/ l2 = 1 \/ l2 = 2 \/ l2 = 3 \/ l2 = 4)%Z) by lia.
    destruct E1 as [-> | [-> | [-> | [-> | ->]]]];
      destruct E2 as [-> | [-> | [-> | [-> | ->]]]];
      intros H; first [reflexivity | discriminate H].
  - intros l. unfold Level_String, DebugLevel, InfoLevel, WarnLevel,
      ErrorLevel, FatalLevel.
    destruct (Z.eqb_spec l 0); [split; [discriminate | lia] |].
    destruct (Z.eqb_spec l 1); [split; [discriminate | lia] |].
    destruct (Z.eqb_spec l 2); [split; [discriminate | lia] |].
    destruct (Z.eqb_spec l 3); [split; [discriminate | lia] |].
    destruct (Z.eqb_spec l 4); [split; [discriminate | lia] |].
    split; [lia | reflexivity].
Qed.

(** ** Validation of the configuration *)

Lemma level_or_default_range (l : Level) :
  (DebugLevel <= level_or_default l <= FatalLevel)%Z.
Proof.
  unfold level_or_default. case_bool_decide as H; [exact H |].
  unfold DebugLevel, InfoLevel, FatalLevel. lia.
Qed.

Lemma format_or_default_known (f : string) :
  format_or_default f = "json" \/ format_or_default f = "text".
Proof.
  unfold format_or_default. case_bool_decide as H; [exact H | left; reflexivity].
Qed.

Lemma output_or_default_known (o : string) :
  output_or_default o = "stdout" \/ output_or_default o = "stderr"
  \/ output_or_default o = "file".
Proof.
  unfold output_or_default. case_bool_decide as H; [exact H | left; reflexivity].
Qed.

(** X2: whatever the configuration, after [Validate] its level is one of
    the five levels, its format is json or text and its output is stdout,
    stderr or file; the output is file afterwards only if it was file
    before; and the other seven settings are untouched. *)
Theorem Validate_normalises (c : Config) (w : World) :
  let c' := (Config_Validate c w).1 in
  (DebugLevel <= cfg_Level c' <= FatalLevel)%Z /\
  (cfg_Format c' = "json" \/ cfg_Format c' = "text") /\
  (cfg_Output c' = "stdout" \/ cfg_Output c' = "stderr"
   \/ cfg_Output c' = "file") /\
  (cfg_Output c' = "file" <-> cfg_Output c = "file") /\
  cfg_FilePath c' = cfg_FilePath c /\
  cfg_MaxSize c' = cfg_MaxSize c /\
  cfg_MaxBackups c' = cfg_MaxBackups c /\
  cfg_MaxAge c' = cfg_MaxAge c /\
  cfg_Compress c' = cfg_Compress c /\
  cfg_AddCaller c' = cfg_AddCaller c /\
  cfg_AddStack c' = cfg_AddStack c.
Proof.
  intros c'. unfold c'. rewrite Validate_config. simpl.
  split; [apply level_or_default_range |].
  split; [apply format_or_default_known |].
  split; [apply output_or_default_known |].
  split; [| repeat split].
  unfold output_or_default. case_bool_decide as H; [tauto |].
  split; [discriminate | intros E; exfalso; apply H; tauto].
Qed.

(** X3: [Validate] is idempotent: a second validation in the same
    environment gives the same configuration and the same error; and
    a configuration whose level, format and output are recognised is
    returned as it is. *)
Theorem Validate_idempotent (c : Config) (w : World) :
  Config_Validate (Config_Validate c w).1 w = Config_Validate c w /\
  ((DebugLevel <= cfg_Level c <= FatalLevel)%Z ->
   (cfg_Format c = "json" \/ cfg_Format c = "text") ->
   (cfg_Output c = "stdout" \/ cfg_Output c = "stderr"
    \/ cfg_Output c = "file") ->
   (Config_Validate c w).1 = c).
Proof.
  assert (Hfix : forall c0 : Config,
             (DebugLevel <= cfg_Level c0 <= FatalLevel)%Z ->
             (cfg_Format c0 = "json" \/ cfg_Format c0 = "text") ->
             (cfg_Output c0 = "stdout" \/ cfg_Output c0 = "stderr"
              \/ cfg_Output c0 = "file") ->
             (Config_Validate c0 w).1 = c0).
  { intros c0 Hl Hf Ho. rewrite Validate_config.
    unfold level_or_default, format_or_default, output_or_default.
    rewrite !bool_decide_eq_true_2 by assumption.
    destruct c0; reflexivity. }
  split; [| apply Hfix].
  apply injective_projections.
  - apply Hfix; rewrite Validate_config; simpl.
    + apply level_or_default_range.
    + apply format_or_default_known.
    + apply output_or_default_known.
  - rewrite !Validate_error, Validate_config. simpl.
    unfold output_or_default. case_bool_decide as H; [reflexivity |].
    destruct (String.eqb_spec (cfg_Output c) "file") as [E | E];
      [exfalso; apply H; tauto | reflexivity].
Qed.

(** ** The multi handler as a composition *)

Lemma MultiHandler_loop_acc (entry : Entry) (hs : list Handler) :
  forall (w : World) (acc : option error),
    MultiHandler_loop Handler_Handle entry hs w acc
    = (let (w', r) := MultiHandler_loop Handler_Handle entry hs w None in
       (w', match r with Some x => Some x | None => acc end)).
Proof.
  induction hs as [| h hs IH]; intros w acc; [reflexivity |].
  simpl. destruct (Handler_Handle h entry (enter_multi w)) as [w1 [e |]].
  - rewrite (IH (leave_multi w w1) (Some e)).
    destruct (MultiHandler_loop Handler_Handle entry hs (leave_multi w w1) None)
      as [w' [x |]]; reflexivity.
  - apply IH.
Qed.

Lemma MultiHandler_loop_app (entry : Entry) (hs1 hs2 : list Handler) :
  forall (w : World) (acc : option error),
    MultiHandler_loop Handler_Handle entry (hs1 ++ hs2) w acc
    = (let (w1, a1) := MultiHandler_loop Handler_Handle entry hs1 w acc in
       MultiHandler_loop Handler_Handle entry hs2 w1 a1).
Proof.
  induction hs1 as [| h hs1 IH]; intros w acc; [reflexivity |].
  simpl. destruct (Handler_Handle h entry (enter_multi w)) as [w1 [e |]];
    apply IH.
Qed.

(** X4: a multi handler over [hs1 ++ hs2] does what the multi handler
    over [hs1] followed by the one over [hs2] does, and returns the error
    of the second if it has one, else that of the first; with no member
    it does nothing and returns nil.  With one member it does what that
    member does one call deeper: in the call stack of the member the
    frame of [MultiHandler.Handle] comes third, so the frame that a
    formatter takes for the caller, the fourth, is the one that a handler
    called by [log] itself finds third, and so on up the stack; the JSON
    and the text formatter of a member format as on the stack of [log]
    moved by one frame. *)
Theorem multi_handle_append
    (hs1 hs2 : list Handler) (entry : Entry) (w : World) :
  MultiHandler_Handle (hs1 ++ hs2) entry w
  = (let (w1, e1) := MultiHandler_Handle hs1 entry w in
     let (w2, e2) := MultiHandler_Handle hs2 entry w1 in
     (w2, match e2 with Some x => Some x | None => e1 end)) /\
  MultiHandler_Handle [] entry w = (w, None) /\
  (forall h,
      MultiHandler_Handle [h] entry w
      = (let (w', e) := Handler_Handle h entry (enter_multi w) in
         (leave_multi w w', e))) /\
  callers (enter_multi w) 2%nat = Some (multi_frame w) /\
  (forall skip, (3 <= skip)%nat ->
                callers (enter_multi w) skip = callers w (skip - 1)%nat) /\
  (forall f : JSONFormatter,
      JSONFormatter_Format f (callers (enter_multi w)) entry
      = JSONFormatter_Format f (fun skip => callers w (skip - 1)%nat) entry) /\
  (forall f : TextFormatter,
      TextFormatter_Format f (callers (enter_multi w)) entry
      = TextFormatter_Format f (fun skip => callers w (skip - 1)%nat) entry).
Proof.
  assert (Happ : forall a b w0,
             MultiHandler_Handle (a ++ b) entry w0
             = (let (w1, e1) := MultiHandler_Handle a entry w0 in
                let (w2, e2) := MultiHandler_Handle b entry w1 in
                (w2, match e2 with Some x => Some x | None => e1 end))).
  { intros a b w0. unfold MultiHandler_Handle. cbn [Handler_Handle].
    rewrite MultiHandler_loop_app.
    destruct (MultiHandler_loop Handler_Handle entry a w0 None) as [w1 e1].
    apply MultiHandler_loop_acc. }
  assert (Hshift : forall skip, (3 <= skip)%nat ->
             callers (enter_multi w) skip = callers w (skip - 1)%nat).
  { intros skip Hskip.
    destruct skip as [| [| [| up]]]; try lia.
    replace (S (S (S up)) - 1)%nat with (S (S up)) by lia. reflexivity. }
  split; [apply Happ |]. split; [reflexivity |].
  split; [| split; [| split; [| split]]].
  - intros h. unfold MultiHandler_Handle. cbn [Handler_Handle]. simpl.
    destruct (Handler_Handle h entry (enter_multi w)) as [w1 [e |]];
      reflexivity.
  - reflexivity.
  - exact Hshift.
  - intros f. reflexivity.
  - intros f. reflexivity.
Qed.

(** The caller that a console handler reports when [log] calls it, and
    when [log] calls a multi handler of which it is the one member. *)
Example multi_member_caller_values :
  let direct :=
    (Handler_Handle sample_caller_console sample_request_entry
                    sample_stack_world).1 in
  let member :=
    (Handler_Handle (HMulti [sample_caller_console]) sample_request_entry
                    sample_stack_world).1 in
  (json_parse (content (stdout direct)) ≫= json_get "caller")
  = Some (JStr "logger.go:120") /\
  (json_parse (content (stdout member)) ≫= json_get "caller")
  = Some (JStr "logger.go:101") /\
  callers member = callers direct.
Proof. vm_compute. repeat split. Qed.

(** ** What the handlers touch *)

Lemma Stream_Write_prefix (s : Stream) (data : bytes) :
  content s `prefix_of` content (Stream_Write s data).1.
Proof.
  unfold Stream_Write. destruct (room s) as [n |].
  - destruct (length data <=? n)%nat; simpl; eexists; reflexivity.
  - simpl. eexists; reflexivity.
Qed.



(** The induction principle of handlers, with the members of a multi
    handler. *)
Lemma Handler_tree_ind (P : Handler -> Prop) :
  (forall c, P (HConsole c)) ->
  (forall f, P (HFile f)) ->
  (forall hs, Forall P hs -> P (HMulti hs)) ->
  (forall g, P (HCustom g)) ->
  forall h, P h.
Proof.
  intros Hc Hf Hm Hg.
  fix IH 1. intros [c | f | hs | g].
  - apply Hc.
  - apply Hf.
  - apply Hm. induction hs as [| h hs IHhs]; constructor.
    + apply IH.
    + exact IHhs.
  - apply Hg.
Qed.

Lemma grows_refl (w : World) : grows w w.
Proof. repeat split; reflexivity. Qed.

Lemma grows_trans (w1 w2 w3 : World) : grows w1 w2 -> grows w2 w3 -> grows w1 w3.
Proof.
  intros (Hh & Ho & He) (Hh' & Ho' & He').
  split; [congruence |]. split; etransitivity; eassumption.
Qed.

Lemma File_Write_grows (o : Output) (data : bytes) (w : World) :
  grows w (File_Write o data w).1 /\
  files (File_Write o data w).1 = files w /\
  ticks (File_Write o data w).1 = ticks w.
Proof.
  unfold File_Write. destruct o.
  - pose proof (Stream_Write_prefix (stdout w) data) as Hp.
    destruct (Stream_Write (stdout w) data) as [s' r]. simpl in *.
    repeat split; first [reflexivity | exact Hp].
  - pose proof (Stream_Write_prefix (stderr w) data) as Hp.
    destruct (Stream_Write (stderr w) data) as [s' r]. simpl in *.
    repeat split; first [reflexivity | exact Hp].
Qed.

Lemma Lumberjack_Write_grows (lj : Lumberjack) (data : bytes) (w : World) :
  grows w (Lumberjack_Write lj data w).1.
Proof.
  unfold Lumberjack_Write.
  destruct (writer w lj data (files w) (ticks w)) as [[fs n] err].
  repeat split; reflexivity.
Qed.

Lemma package_handler_grows (h : Handler) :
  package_handler h = true ->
  forall (entry : Entry) (w : World),
    grows w (Handler_Handle h entry w).1 /\
    (console_only h = true ->
     files (Handler_Handle h entry w).1 = files w /\
     ticks (Handler_Handle h entry w).1 = ticks w).
Proof.
  induction h as [c | f | hs IH | g] using Handler_tree_ind; intros Hp entry w.
  - cbn [Handler_Handle]. unfold ConsoleHandler_Handle.
    destruct (Formatter_Format (console_formatter c) (callers w) entry)
      as [data [e |]]; cbn [fst].
    + split; [apply grows_refl | intros _; split; reflexivity].
    + destruct (File_Write_grows (console_output c) data w) as (Hg & Hf & Ht).
      split; [exact Hg | intros _; split; assumption].
  - cbn [Handler_Handle]. unfold FileHandler_Handle.
    split; [| discriminate].
    destruct (Formatter_Format (file_formatter f) (callers w) entry)
      as [data [e |]]; cbn [fst].
    + apply grows_refl.
    + apply Lumberjack_Write_grows.
  - cbn [Handler_Handle].
    cbn [package_handler] in Hp. cbn [console_only].
    generalize (@None error) as acc. revert w.
    induction IH as [| h hs Hh _ IHhs]; intros w acc.
    + split; [apply grows_refl | intros _; split; reflexivity].
    + cbn [forallb] in Hp |- *. apply andb_prop in Hp as [Hp1 Hp2].
      cbn [MultiHandler_loop].
      destruct (Hh Hp1 entry (enter_multi w)) as [Hg1 Hc1].
      destruct (Handler_Handle h entry (enter_multi w)) as [w1 r].
      cbn [fst] in Hg1, Hc1.
      assert (Hstep : grows w (leave_multi w w1)) by exact Hg1.
      assert (Hrest : forall acc',
                 grows w (MultiHandler_loop Handler_Handle entry hs
                            (leave_multi w w1) acc').1 /\
                 (console_only h && forallb console_only hs = true ->
                  files (MultiHandler_loop Handler_Handle entry hs
                           (leave_multi w w1) acc').1 = files w /\
                  ticks (MultiHandler_loop Handler_Handle entry hs
                           (leave_multi w w1) acc').1 = ticks w)).
      { intros acc'.
        destruct (IHhs Hp2 (leave_multi w w1) acc') as [Hg2 Hc2].
        split; [eapply grows_trans; eassumption |].
        intros Hco. apply andb_prop in Hco as [Hco1 Hco2].
        destruct (Hc1 Hco1) as [Hf1 Ht1]. destruct (Hc2 Hco2) as [Hf2 Ht2].
        split; [rewrite Hf2; exact Hf1 | rewrite Ht2; exact Ht1]. }
      destruct r as [e |]; apply Hrest.
  - discriminate Hp.
Qed.

(** X6: [Handle] of a handler built from the console, file and multi
    handlers of the package changes no field map and never removes or
    rewrites a byte of the standard streams: each starts afterwards with
    what it held before.  When no file handler is among them, the log
    files are as before too and the clock is not read. *)
Theorem package_handlers_only_append
    (h : Handler) (entry : Entry) (w : World) :
  package_handler h = true ->
  let w' := (Handler_Handle h entry w).1 in
  heap w' = heap w /\
  content (stdout w) `prefix_of` content (stdout w') /\
  content (stderr w) `prefix_of` content (stderr w') /\
  (console_only h = true -> files w' = files w /\ ticks w' = ticks w).
Proof.
  intros Hp w'.
  destruct (package_handler_grows h Hp entry w) as [(Hh & Ho & He) Hc].
  repeat split; first [assumption | apply Hc; assumption].
Qed.

Lemma package_handlers_only_append_witness :
  package_handler sample_multi = true /\
  let w' := (Handler_Handle sample_multi sample_request_entry sample_world).1 in
  heap w' = heap sample_world /\
  content (stdout sample_world) `prefix_of` content (stdout w') /\
  content (stderr sample_world) `prefix_of` content (stderr w').
Proof.
  split; [reflexivity |].
  destruct (package_handlers_only_append
              sample_multi sample_request_entry sample_world eq_refl)
    as (Hh & Ho & He & _).
  split; [exact Hh |]. split; [exact Ho | exact He].
Defined.

(** X7: with a handler built from the handlers of the package, a log
    call always returns, changes no field map and only appends to the
    standard streams.  When no file handler is among them, the log files
    are as before and the clock is read at most twice: once for the
    entry, once more on the fallback path. *)
Theorem log_only_appends
    (l : logger) (ctx : Context) (level : Level) (msg : string)
    (err : option error) (fields : FieldsRef) (w : World) :
  package_handler (logger_handler l) = true ->
  exists w',
    logger_log l ctx level msg err fields w = Returned w' /\
    heap w' = heap w /\
    content (stdout w) `prefix_of` content (stdout w') /\
    content (stderr w) `prefix_of` content (stderr w') /\
    (console_only (logger_handler l) = true ->
     files w' = files w /\ (ticks w <= ticks w' <= ticks w + 2)%nat).
Proof.
  intros Hp. unfold logger_log.
  destruct (level <? cfg_Level (logger_config l))%Z.
  { exists w. repeat split; first [reflexivity | lia]. }
  unfold log_entry, time_Now. cbv beta iota zeta.
  match goal with
  | |- context [Handler_Handle _ ?e ?w0] =>
    destruct (package_handler_grows _ Hp e w0) as [(Hh & Ho & He) Hc];
      destruct (Handler_Handle (logger_handler l) e w0) as [w2 [e2 |]]
  end; cbn [fst] in Hh, Ho, He, Hc; simpl in Hh, Ho, He, Hc.
  - change (NewConsoleHandler "stderr" (FText (mkTextFormatter false false)))
      with (@inl ConsoleHandler error
              (mkConsoleHandler Stderr (FText (mkTextFormatter false false)))).
    cbv beta iota.
    unfold ConsoleHandler_Handle. cbn [console_formatter console_output].
    match goal with
    | |- context [Formatter_Format ?f ?c ?en] =>
      destruct (Formatter_Format f c en) as [data [e3 |]]
    end.
    + eexists. split; [reflexivity |]. simpl.
      split; [exact Hh |]. split; [exact Ho |]. split; [exact He |].
      intros Hco. destruct (Hc Hco) as [Hf Ht]. split; [exact Hf | lia].
    + match goal with
      | |- context [File_Write Stderr data ?w3] =>
        destruct (File_Write_grows Stderr data w3)
          as ((Hh' & Ho' & He') & Hf' & Ht')
      end.
      eexists. split; [reflexivity |]. simpl in *.
      split; [congruence |].
      split; [etransitivity; eassumption |].
      split; [etransitivity; eassumption |].
      intros Hco. destruct (Hc Hco) as [Hf Ht]. split; [congruence | lia].
  - exists w2. split; [reflexivity |].
    split; [exact Hh |]. split; [exact Ho |]. split; [exact He |].
    intros Hco. destruct (Hc Hco) as [Hf Ht]. split; [exact Hf | lia].
Qed.

Lemma log_only_appends_witness :
  package_handler (logger_handler sample_multi_logger) = true /\
  exists w',
    logger_Info sample_multi_logger [] "request completed" None sample_world
    = Returned w' /\
    heap w' = heap sample_world /\
    content (stderr sample_world) `prefix_of` content (stderr w').
Proof.
  split; [reflexivity |].
  destruct (log_only_appends sample_multi_logger [] InfoLevel
              "request completed" None None sample_world eq_refl)
    as (w' & Hlog & Hheap & _ & Herr & _).
  exists w'. split; [exact Hlog |]. split; [exact Hheap | exact Herr].
Defined.

(** ** The line of the text formatter *)

Lemma to_bytes_snoc (s : string) (c : ascii) :
  to_bytes (s +:+ String c "") = to_bytes s ++ [c].
Proof.
  induction s as [| x s IH]; [reflexivity |].
  change (x :: to_bytes (s +:+ String c "") = x :: (to_bytes s ++ [c])).
  f_equal. exact IH.
Qed.

Lemma ToUpper_Level_String (l : Level) :
  strings_ToUpper (Level_String l) = Level_String l.
Proof.
  unfold Level_String.
  repeat match goal with
         | |- context [(l =? ?x)%Z] => destruct (l =? x)%Z
         end; reflexivity.
Qed.

Lemma strings_Join_cons (x : string) (l : list string) :
  exists tail, strings_Join (x :: l) " " = x +:+ tail.
Proof.
  destruct l as [| y l'].
  - exists "". simpl. clear. induction x as [| a x IH]; [reflexivity |].
    change (String a x = String a (x +:+ "")). f_equal. exact IH.
  - eexists. reflexivity.
Qed.

Lemma strings_Join_head (ts lv x : string) (l : list string) :
  strings_Join (ts :: ("[" +:+ lv +:+ "]") :: x :: l) " "
  = ts +:+ " [" +:+ lv +:+ "] " +:+ strings_Join (x :: l) " ".
Proof.
  change (ts +:+ String " " (String "[" ((lv +:+ "]") +:+
                               (" " +:+ strings_Join (x :: l) " ")))
          = ts +:+ String " " (String "[" (lv +:+ "] " +:+
                               strings_Join (x :: l) " "))).
  rewrite append_assoc. reflexivity.
Qed.

Lemma TextFormatter_newline (f : TextFormatter) (cs : Callers) (e : Entry) :
  last (TextFormatter_Format f cs e).1 = Some newline.
Proof.
  unfold TextFormatter_Format. cbv zeta. cbn [fst].
  rewrite to_bytes_snoc. apply last_snoc.
Qed.

(** X8: for every entry the text formatter returns one run of bytes that
    starts with the timestamp in milliseconds, a space and the name of
    the level in brackets, and that ends with a newline; when no caller
    is added, the message follows the level at once, byte for byte. *)
Theorem text_line_shape (f : TextFormatter) (cs : Callers) (e : Entry) :
  exists rest,
    (TextFormatter_Format f cs e).1
    = to_bytes (Time_Format_millis (entry_Timestamp e) +:+ " [" +:+
                Level_String (entry_Level e) +:+ "] " +:+ rest)
      ++ [newline] /\
    (text_AddCaller f = false -> exists tail, rest = entry_Message e +:+ tail).
Proof.
  unfold TextFormatter_Format. cbv zeta. cbn [fst].
  rewrite to_bytes_snoc, ToUpper_Level_String.
  destruct (text_AddCaller f), (cs 3%nat) as [fr |],
    (0 <? size (entry_Fields e))%nat, (entry_Error e) as [err |],
    (text_AddStack f);
    cbn [andb app];
    try rewrite is_Some_Some_true; try rewrite is_Some_None_false;
    cbn [andb app];
    try (destruct (0 <? length _)%nat; cbn [app]);
    rewrite strings_Join_head;
    (eexists; split; [reflexivity |]);
    first [discriminate | intros _; apply strings_Join_cons].
Qed.

(** X9: on a logger whose handler is the console handler on stdout with
    the text formatter, a call that passes the level filter appends to
    stdout exactly the line of the text formatter for the entry of the
    call, newline at the end, and leaves stderr alone. *)
Theorem text_console_log_writes_a_line
    (l : logger) (f : TextFormatter) (ctx : Context) (level : Level)
    (msg : string) (err : option error) (fields : FieldsRef) (w : World) :
  logger_handler l = HConsole (mkConsoleHandler Stdout (FText f)) ->
  (cfg_Level (logger_config l) <= level)%Z ->
  room (stdout w) = None ->
  let entry := (log_entry l ctx level msg err fields w).1 in
  let line := (TextFormatter_Format f (callers w) entry).1 in
  exists w',
    logger_log l ctx level msg err fields w = Returned w' /\
    content (stdout w') = content (stdout w) ++ line /\
    last line = Some newline /\
    stderr w' = stderr w.
Proof.
  intros Hh Hlevel Hroom entry line.
  exists (set_stdout (mkStream (content (stdout w) ++ line) None)
                     (log_entry l ctx level msg err fields w).2).
  split; [| split; [reflexivity | split; [apply TextFormatter_newline |
                                          reflexivity]]].
  unfold logger_log.
  destruct (Z.ltb_spec level (cfg_Level (logger_config l))) as [Hlt | _];
    [lia |].
  destruct (log_entry l ctx level msg err fields w) as [en w1] eqn:Hentry.
  assert (Hw1 : stdout w1 = stdout w /\ callers w1 = callers w).
  { unfold log_entry in Hentry. simpl in Hentry. injection Hentry as _ <-.
    split; reflexivity. }
  destruct Hw1 as [Hout Hcs].
  rewrite Hh. cbn [Handler_Handle]. unfold ConsoleHandler_Handle.
  cbn [console_formatter console_output Formatter_Format].
  unfold TextFormatter_Format at 1. cbv zeta. cbn [File_Write].
  unfold Stream_Write. rewrite Hout, Hroom, Hcs. reflexivity.
Qed.

Lemma text_console_log_writes_a_line_witness :
  (cfg_Level (logger_config sample_text_logger) <= WarnLevel)%Z /\
  exists w' line,
    logger_Warn sample_text_logger [] "disk almost full" None sample_world
    = Returned w' /\
    content (stdout w') = content (stdout sample_world) ++ line /\
    last line = Some newline.
Proof.
  assert (Hlevel : (cfg_Level (logger_config sample_text_logger) <= WarnLevel)%Z).
  { unfold WarnLevel. simpl. unfold InfoLevel. lia. }
  split; [exact Hlevel |].
  destruct (text_console_log_writes_a_line
              sample_text_logger (mkTextFormatter false false) [] WarnLevel
              "disk almost full" None None sample_world eq_refl Hlevel eq_refl)
    as (w' & Hlog & Hout & Hlast & _).
  exists w'. eexists. split; [exact Hlog |]. split; [exact Hout | exact Hlast].
Defined.

(** ** Frames of the call stack *)

Lemma stack_lines_length (cs : Callers) (line : Frame -> string) (n : nat) :
  forall i, (length (stack_lines cs line i n) <= n)%nat.
Proof.
  induction n as [| n IH]; intros i; simpl; [lia |].
  destruct (cs (i + 3)%nat); simpl; specialize (IH (S i)); lia.
Qed.

Lemma stack_lines_ext (cs cs' : Callers) (line : Frame -> string) (n : nat) :
  forall i,
    (forall j, (j < n)%nat -> cs (i + j + 3)%nat = cs' (i + j + 3)%nat) ->
    stack_lines cs line i n = stack_lines cs' line i n.
Proof.
  induction n as [| n IH]; intros i H; [reflexivity |].
  simpl. pose proof (H 0%nat ltac:(lia)) as H0.
  replace (i + 0 + 3)%nat with (i + 3)%nat in H0 by lia. rewrite H0.
  rewrite (IH (S i)); [reflexivity |].
  intros j Hj. specialize (H (S j) ltac:(lia)).
  replace (S i + j + 3)%nat with (i + S j + 3)%nat by lia. exact H.
Qed.

(** X10: the formatters look at the call stack from the fourth frame on
    and no deeper than ten frames (JSON) or five (text): two stacks that
    agree on those frames give the same bytes; and a stack trace in JSON
    has at most ten lines, one in text at most five. *)
Theorem formatters_use_bounded_frames
    (jf : JSONFormatter) (tf : TextFormatter) (e : Entry) (cs cs' : Callers) :
  ((forall k, (3 <= k < 13)%nat -> cs k = cs' k) ->
   JSONFormatter_Format jf cs e = JSONFormatter_Format jf cs' e) /\
  ((forall k, (3 <= k < 8)%nat -> cs k = cs' k) ->
   TextFormatter_Format tf cs e = TextFormatter_Format tf cs' e) /\
  (length (json_stack cs) <= 10)%nat /\
  (forall line, length (stack_lines cs line 0 5) <= 5)%nat.
Proof.
  split; [| split; [| split]].
  - intros H. unfold JSONFormatter_Format, JSONFormatter_data, json_stack.
    rewrite (H 3%nat) by lia.
    rewrite (stack_lines_ext cs cs' _ 10 0); [reflexivity |].
    intros j Hj. apply H. lia.
  - intros H. unfold TextFormatter_Format.
    rewrite (H 3%nat) by lia.
    rewrite (stack_lines_ext cs cs' _ 5 0); [reflexivity |].
    intros j Hj. apply H. lia.
  - apply stack_lines_length.
  - intros line. apply stack_lines_length.
Qed.

(** ** When the JSON formatter fails *)

Lemma json_base_strings (e : Entry) (k : string) (v : Value) :
  json_base e !! k = Some v -> exists s, v = VString s.
Proof.
  unfold json_base. intros H.
  repeat (apply lookup_insert_Some in H as [[_ <-] | [_ H]]; [eexists; reflexivity |]).
  rewrite lookup_empty in H. discriminate H.
Qed.

Lemma data_engine_values (f : JSONFormatter) (cs : Callers) (e : Entry)
    (k : string) (v : Value) :
  k ∈ engine_keys f cs e ->
  JSONFormatter_data f cs e !! k = Some v ->
  (exists s, v = VString s) \/ (exists l, v = VSlice (VString <$> l)).
Proof.
  unfold JSONFormatter_data, engine_keys. rewrite fields_overlay.
  destruct (entry_Error e) as [err |], (json_AddCaller f), (cs 3%nat) as [fr |],
    (json_AddStack f), (0 <? length (json_stack cs))%nat;
    rewrite ?is_Some_Some_true, ?is_Some_None_false;
    cbn [andb app]; intros Hk Hv;
    repeat (apply lookup_insert_Some in Hv as [[_ <-] | [? Hv]];
            [first [left; eexists; reflexivity | right; eexists; reflexivity] |]);
    exfalso;
    repeat (apply elem_of_cons in Hk as [-> | Hk]; [congruence |]);
    inversion Hk.
Qed.

Lemma data_values (P : string -> Value -> Prop)
    (f : JSONFormatter) (cs : Callers) (e : Entry) :
  (forall k s, P k (VString s)) ->
  (forall k l, P k (VSlice (VString <$> l))) ->
  (forall k v, entry_Fields e !! k = Some v -> k ∉ engine_keys f cs e -> P k v) ->
  map_Forall P (JSONFormatter_data f cs e).
Proof.
  intros Hs Hl Hf k v Hv.
  destruct (decide (k ∈ engine_keys f cs e)) as [Hin | Hout].
  - destruct (data_engine_values f cs e k v Hin Hv) as [[s ->] | [l ->]];
      [apply Hs | apply Hl].
  - rewrite data_lookup in Hv by exact Hout.
    apply lookup_union_Some_raw in Hv as [Hv | [_ Hv]].
    + apply Hf; assumption.
    + destruct (json_base_strings e k v Hv) as [s ->]. apply Hs.
Qed.

Lemma all_some_Forall {A B : Type} (f : A -> option B) (l : list A) :
  is_Some (all_some f l) <-> Forall (fun x => is_Some (f x)) l.
Proof.
  split; [| apply all_some_is_Some].
  intros [ys Hys]. apply all_some_Forall2 in Hys.
  induction Hys as [| x y l ys Hx _ IH]; constructor; [eexists; exact Hx | exact IH].
Qed.

Lemma Marshal_succeeds (data : Fields) :
  (json_Marshal data).2 = None <->
  map_Forall (fun _ v => is_Some (to_json v)) data.
Proof.
  unfold json_Marshal, members_to_json.
  assert (Hiff : is_Some (all_some member_to_json (sorted_pairs data)) <->
                 map_Forall (fun _ v => is_Some (to_json v)) data).
  { rewrite all_some_Forall, map_Forall_to_list.
    unfold sorted_pairs. rewrite merge_sort_Permutation.
    apply Forall_iff. intros [k v]. unfold member_to_json. simpl.
    destruct (to_json v); split; intros [x Hx]; first [eexists; reflexivity | discriminate]. }
  destruct (all_some member_to_json (sorted_pairs data)) as [ms |]; simpl.
  - split; [intros _; apply Hiff; eexists; reflexivity | reflexivity].
  - split; [discriminate |]. intros H. apply Hiff in H as [x Hx]. discriminate.
Qed.

(** X11: the JSON formatter fails exactly when some field that it does
    not overwrite with a key of its own holds a value that [Marshal]
    refuses; and when it fails it returns no bytes at all. *)
Theorem json_format_fails_iff (f : JSONFormatter) (cs : Callers) (e : Entry) :
  ((JSONFormatter_Format f cs e).2 = None <->
   forall k v, entry_Fields e !! k = Some v -> k ∉ engine_keys f cs e ->
               is_Some (to_json v)) /\
  ((JSONFormatter_Format f cs e).2 <> None ->
   (JSONFormatter_Format f cs e).1 = []).
Proof.
  unfold JSONFormatter_Format. split.
  - rewrite Marshal_succeeds. split.
    + intros Hall k v Hk Hout. apply (Hall k v).
      rewrite data_lookup by exact Hout. apply lookup_union_Some_l. exact Hk.
    + intros Hf. apply data_values.
      * intros _ s. eexists; reflexivity.
      * intros _ l. rewrite to_json_strings. eexists; reflexivity.
      * exact Hf.
  - unfold json_Marshal.
    destruct (members_to_json (sorted_pairs (JSONFormatter_data f cs e)));
      simpl; [congruence | reflexivity].
Qed.

(** ** Which value a key of the document has *)

Lemma all_ascii_app (a b : string) :
  all_ascii (a +:+ b) = all_ascii a && all_ascii b.
Proof.
  induction a as [| x a IH]; [reflexivity |].
  change (((code x <? 128)%N && all_ascii (a +:+ b))
          = ((code x <? 128)%N && all_ascii a) && all_ascii b).
  rewrite IH. apply andb_assoc.
Qed.

Lemma all_ascii_valid (s : string) : all_ascii s = true -> valid_utf8 s.
Proof.
  unfold valid_utf8. induction s as [| b s IH]; [reflexivity |].
  cbn [all_ascii coerce_utf8]. intros H. apply andb_prop in H as [Hb Hs].
  rewrite Hb, (IH Hs). reflexivity.
Qed.

Lemma all_ascii_uint (d : uint) : all_ascii (NilEmpty.string_of_uint d) = true.
Proof. induction d; simpl; try exact IHd; reflexivity. Qed.

Lemma all_ascii_itoa (z : Z) : all_ascii (itoa z) = true.
Proof.
  unfold itoa. destruct z as [| p | p]; [reflexivity | |];
    cbn [Z.to_int NilZero.string_of_int];
    rewrite string_of_uint_nonnil by apply DecimalPos.Unsigned.to_uint_nonnil;
    [| cbn [all_ascii]; change (code "-"%char <? 128)%N with true; cbn [andb]];
    apply all_ascii_uint.
Qed.

Lemma all_ascii_zeros (n : nat) : all_ascii (zeros n) = true.
Proof. induction n as [| n IH]; [reflexivity | exact IH]. Qed.

Lemma all_ascii_appendInt (x : Z) (width : nat) :
  all_ascii (appendInt x width) = true.
Proof.
  unfold appendInt.
  rewrite !all_ascii_app, all_ascii_zeros, all_ascii_itoa.
  destruct (x <? 0)%Z; reflexivity.
Qed.

Lemma all_ascii_RFC3339 (t : Time) : all_ascii (Time_Format_RFC3339 t) = true.
Proof.
  unfold Time_Format_RFC3339, format_date_time, format_zone.
  destruct (offset t =? 0)%Z;
    [| destruct (Z.quot (offset t) 60 <? 0)%Z];
    rewrite !all_ascii_app, !all_ascii_appendInt; reflexivity.
Qed.

Lemma data_error (f : JSONFormatter) (cs : Callers) (e : Entry) (err : error) :
  entry_Error e = Some err ->
  JSONFormatter_data f cs e !! "error" = Some (VString err).
Proof.
  intros Herr. unfold JSONFormatter_data. rewrite fields_overlay, Herr.
  destruct (json_AddCaller f), (cs 3%nat) as [fr |], (json_AddStack f),
    (0 <? length (json_stack cs))%nat;
    rewrite ?is_Some_Some_true; cbn [andb];
    repeat (rewrite lookup_insert_ne by discriminate);
    apply lookup_insert_eq.
Qed.

Lemma front_key_not_engine (f : JSONFormatter) (cs : Callers) (e : Entry)
    (k : string) :
  k ∈ ["level"; "message"; "timestamp"] -> k ∉ engine_keys f cs e.
Proof.
  intros Hk. apply not_engine_key. intros Hin.
  repeat (apply elem_of_cons in Hk as [-> | Hk];
          [repeat (apply elem_of_cons in Hin as [Hin | Hin]; [discriminate Hin |]);
           inversion Hin |]).
  inversion Hk.
Qed.

(** X12: in the document of an entry whose fields [Marshal] accepts, the
    error of the entry is the value of the key error, whatever field has
    that name; a field named level, message or timestamp is the value of
    that key, in place of the level, message or timestamp of the entry;
    and without a field named timestamp the key holds the timestamp of
    the entry in the RFC 3339 layout. *)
Theorem json_key_precedence (f : JSONFormatter) (cs : Callers) (e : Entry) :
  map_Forall member_ok (entry_Fields e) ->
  exists obj,
    json_parse (JSONFormatter_Format f cs e).1 = Some obj /\
    (forall err, entry_Error e = Some err ->
                 json_get "error" obj = Some (JStr (coerce_utf8 err))) /\
    (forall k v j,
        k ∈ ["level"; "message"; "timestamp"] ->
        entry_Fields e !! k = Some v -> to_json v = Some j ->
        json_get k obj = Some (coerce_json j)) /\
    (entry_Fields e !! "timestamp" = None ->
     json_get "timestamp" obj
     = Some (JStr (Time_Format_RFC3339 (entry_Timestamp e)))).
Proof.
  intros Hfields.
  destruct (Marshal_get _ (data_ok f cs e Hfields)) as (ms & Hm & Hget).
  exists (coerce_json (JObj ms)). unfold JSONFormatter_Format. rewrite Hm.
  cbn [fst]. split; [apply json_parse_encode |]. split; [| split].
  - intros err Herr.
    apply (Hget "error" (VString err) (JStr err)); [| reflexivity].
    apply data_error. exact Herr.
  - intros k v j Hk Hv Hj. apply (Hget k v j); [| exact Hj].
    rewrite data_lookup by (apply front_key_not_engine; exact Hk).
    apply lookup_union_Some_l. exact Hv.
  - intros Hnone.
    rewrite (Hget "timestamp"
                  (VString (Time_Format_RFC3339 (entry_Timestamp e)))
                  (JStr (Time_Format_RFC3339 (entry_Timestamp e)))).
    + cbn [coerce_json].
      rewrite (all_ascii_valid _ (all_ascii_RFC3339 (entry_Timestamp e))).
      reflexivity.
    + rewrite data_lookup by (apply front_key_not_engine; repeat constructor).
      rewrite lookup_union_r by exact Hnone. reflexivity.
    + reflexivity.
Qed.

Lemma json_key_precedence_witness :
  map_Forall member_ok (entry_Fields sample_shadow_entry) /\
  exists obj,
    json_parse (JSONFormatter_Format (mkJSONFormatter false false)
                                     (fun _ => None) sample_shadow_entry).1
    = Some obj /\
    json_get "level" obj = Some (coerce_json (JStr "gold")).
Proof.
  assert (Hok : map_Forall member_ok (entry_Fields sample_shadow_entry)).
  { apply map_Forall_singleton. split.
    - apply all_ascii_valid. reflexivity.
    - eexists. reflexivity. }
  split; [exact Hok |].
  destruct (json_key_precedence (mkJSONFormatter false false) (fun _ => None)
              sample_shadow_entry Hok) as (obj & Hparse & _ & Hkey & _).
  exists obj. split; [exact Hparse |].
  apply (Hkey "level" (VString "gold") (JStr "gold")).
  - apply elem_of_cons. left. reflexivity.
  - reflexivity.
  - reflexivity.
Defined.

(** ** The JSON document stays on one line *)

Lemma no_control_app (a b : bytes) :
  no_control (a ++ b) = no_control a && no_control b.
Proof. apply forallb_app. Qed.

Lemma escape_ascii_no_control (b : ascii) : no_control (escape_ascii b) = true.
Proof. destruct b as [[] [] [] [] [] [] [] []]; reflexivity. Qed.

Lemma high_byte_no_control (b : ascii) (tl : bytes) :
  (128 <= code b)%N -> no_control (b :: tl) = no_control tl.
Proof.
  intros H. unfold no_control. cbn [forallb].
  destruct (N.leb_spec 32 (code b)); [reflexivity | lia].
Qed.

Lemma line_sep_no_control (b1 b2 b3 : ascii) :
  line_sep (code b1) (code b2) (code b3) = true ->
  no_control [backslash; "u"%char; "2"%char; "0"%char; "2"%char;
              hex_digit (code b3 mod 16)] = true.
Proof.
  unfold line_sep. intros H. apply andb_prop in H as [_ H3].
  apply orb_prop in H3 as [H3 | H3]; apply N.eqb_eq in H3; rewrite H3;
    reflexivity.
Qed.

Lemma appendString_no_control_bounded (n : nat) :
  forall s : string,
    (String.length s <= n)%nat -> no_control (appendString s) = true.
Proof.
  induction n as [| n IH]; intros s Hlen.
  - destruct s; [reflexivity | simpl in Hlen; lia].
  - destruct s as [| b1 s1]; [reflexivity |].
    simpl in Hlen.
    assert (IH1 : no_control (appendString s1) = true) by (apply IH; lia).
    assert (Hbad : no_control (replacement ++ appendString s1) = true).
    { rewrite no_control_app, IH1. reflexivity. }
    cbn [appendString].
    destruct (N.ltb_spec (code b1) 128) as [Hlo | Hhi].
    { rewrite no_control_app, escape_ascii_no_control, IH1. reflexivity. }
    destruct (rune_len (code b1)) as [| [| [| [| [| k]]]]]; try exact Hbad.
    + destruct s1 as [| b2 s2]; [exact Hbad |].
      destruct (second_ok (code b1) (code b2)) eqn:H2; [| exact Hbad].
      simpl in Hlen.
      rewrite high_byte_no_control by exact Hhi.
      rewrite high_byte_no_control by (eapply second_ok_ge; exact H2).
      apply IH. lia.
    + destruct s1 as [| b2 [| b3 s3]]; try exact Hbad.
      destruct (second_ok (code b1) (code b2)) eqn:H2; [| exact Hbad].
      destruct (cont (code b3)) eqn:H3; [| exact Hbad].
      simpl in Hlen. cbn [andb].
      destruct (line_sep (code b1) (code b2) (code b3)) eqn:Hsep.
      * rewrite no_control_app, (line_sep_no_control b1 b2 b3) by exact Hsep.
        apply IH. lia.
      * rewrite high_byte_no_control by exact Hhi.
        rewrite high_byte_no_control by (eapply second_ok_ge; exact H2).
        rewrite high_byte_no_control by (apply cont_ge; exact H3).
        apply IH. lia.
    + destruct s1 as [| b2 [| b3 [| b4 s4]]]; try exact Hbad.
      destruct (second_ok (code b1) (code b2)) eqn:H2; [| exact Hbad].
      destruct (cont (code b3)) eqn:H3; [| exact Hbad].
      destruct (cont (code b4)) eqn:H4; [| exact Hbad].
      simpl in Hlen. cbn [andb].
      rewrite high_byte_no_control by exact Hhi.
      rewrite high_byte_no_control by (eapply second_ok_ge; exact H2).
      rewrite high_byte_no_control by (apply cont_ge; exact H3).
      rewrite high_byte_no_control by (apply cont_ge; exact H4).
      apply IH. lia.
Qed.

Lemma quote_no_control (s : string) : no_control (quote s) = true.
Proof.
  unfold quote. change (dquote :: appendString s ++ [dquote])
    with ([dquote] ++ appendString s ++ [dquote]).
  rewrite !no_control_app.
  rewrite (appendString_no_control_bounded (String.length s) s) by reflexivity.
  reflexivity.
Qed.

Lemma uint_no_control (d : uint) :
  no_control (to_bytes (NilEmpty.string_of_uint d)) = true.
Proof. induction d; simpl; try exact IHd; reflexivity. Qed.

Lemma itoa_no_control (z : Z) : no_control (to_bytes (itoa z)) = true.
Proof.
  unfold itoa. destruct z as [| p | p]; [reflexivity | |];
    cbn [Z.to_int NilZero.string_of_int];
    rewrite string_of_uint_nonnil by apply DecimalPos.Unsigned.to_uint_nonnil;
    [apply uint_no_control |].
  change (no_control ("-"%char :: to_bytes (NilEmpty.string_of_uint (Pos.to_uint p)))
          = true).
  unfold no_control. cbn [forallb]. apply uint_no_control.
Qed.

Lemma encode_list_no_control {A : Type} (enc : A -> bytes) (l : list A) :
  Forall (fun x => no_control (enc x) = true) l ->
  no_control (encode_list enc l) = true.
Proof.
  induction 1 as [| x l Hx _ IH]; [reflexivity |].
  destruct l as [| y l']; [exact Hx |].
  change (encode_list enc (x :: y :: l'))
    with (enc x ++ [","%char] ++ encode_list enc (y :: l')).
  rewrite !no_control_app, Hx, IH. reflexivity.
Qed.

Lemma encode_no_control (j : json) : no_control (encode j) = true.
Proof.
  induction j as [| b | n | s | items IH | members IH] using json_tree_ind.
  - reflexivity.
  - destruct b; reflexivity.
  - apply itoa_no_control.
  - apply quote_no_control.
  - cbn [encode].
    change ("["%char :: encode_list encode items ++ ["]"%char])
      with (["["%char] ++ encode_list encode items ++ ["]"%char]).
    rewrite !no_control_app, encode_list_no_control by exact IH. reflexivity.
  - rewrite encode_JObj.
    change ("{"%char :: encode_list encode_member members ++ ["}"%char])
      with (["{"%char] ++ encode_list encode_member members ++ ["}"%char]).
    rewrite !no_control_app, encode_list_no_control; [reflexivity |].
    eapply Forall_impl; [exact IH |]. intros [k x] Hx. cbn [snd] in Hx.
    change (encode_member (k, x)) with (quote k ++ [":"%char] ++ encode x).
    rewrite !no_control_app, quote_no_control, Hx. reflexivity.
Qed.

(** X13: whatever the entry holds, the bytes of the JSON formatter have
    no control character among them: a newline in a message, a key or a
    value is written as an escape, so the document never spans two
    lines. *)
Theorem json_output_has_no_control_byte
    (f : JSONFormatter) (cs : Callers) (e : Entry) :
  no_control (JSONFormatter_Format f cs e).1 = true /\
  newline ∉ (JSONFormatter_Format f cs e).1.
Proof.
  assert (H : no_control (JSONFormatter_Format f cs e).1 = true).
  { unfold JSONFormatter_Format, json_Marshal.
    destruct (members_to_json (sorted_pairs (JSONFormatter_data f cs e)));
      [apply encode_no_control | reflexivity]. }
  split; [exact H |]. intros Hin.
  unfold no_control in H. rewrite forallb_forall in H.
  apply list_elem_of_In in Hin. specialize (H _ Hin). discriminate H.
Qed.

(** ** Derived loggers *)

Lemma ref_ok_alloc (m : Fields) (w : World) (r : FieldsRef) :
  ref_ok w r -> ref_ok (alloc m w).2 r.
Proof.
  destruct r as [p |]; [| trivial]. simpl. intros Hp.
  rewrite dom_insert_L. apply elem_of_union. right. exact Hp.
Qed.

Lemma ref_ok_alloc_new (m : Fields) (w : World) :
  ref_ok (alloc m w).2 (Some (alloc m w).1).
Proof.
  simpl. rewrite dom_insert_L. apply elem_of_union. left.
  apply elem_of_singleton. reflexivity.
Qed.

(** X14: two derivations in a row give a logger whose fields are those
    of the second call over those of the first over the base; the loggers
    in between keep their own fields, and the three maps are distinct. *)
Theorem WithFields_chain (l : logger) (c1 c2 : FieldsRef) (w : World) :
  ref_ok w (logger_fields l) ->
  ref_ok w c1 ->
  ref_ok w c2 ->
  let B := deref w (logger_fields l) in
  let C1 := deref w c1 in
  let C2 := deref w c2 in
  let l1 := (logger_WithFields l c1 w).1 in
  let w1 := (logger_WithFields l c1 w).2 in
  let l2 := (logger_WithFields l1 c2 w1).1 in
  let w2 := (logger_WithFields l1 c2 w1).2 in
  (forall k, deref w2 (logger_fields l2) !! k
             = match C2 !! k with
               | Some v => Some v
               | None => match C1 !! k with Some v => Some v | None => B !! k end
               end) /\
  (forall k, deref w2 (logger_fields l1) !! k
             = match C1 !! k with Some v => Some v | None => B !! k end) /\
  deref w2 (logger_fields l) = B /\
  logger_fields l2 <> logger_fields l1 /\
  logger_fields l2 <> logger_fields l /\
  logger_handler l2 = logger_handler l /\
  logger_config l2 = logger_config l.
Proof.
  intros Hl Hc1 Hc2 B C1 C2 l1 w1 l2 w2.
  set (m1 := merge_fields B C1).
  assert (Hl1 : ref_ok w1 (logger_fields l1)) by apply ref_ok_alloc_new.
  assert (Hl' : ref_ok w1 (logger_fields l)) by (apply ref_ok_alloc; exact Hl).
  assert (Hc2' : ref_ok w1 c2) by (apply ref_ok_alloc; exact Hc2).
  assert (D1 : deref w1 (logger_fields l1) = m1) by apply deref_alloc_new.
  assert (D2 : deref w1 c2 = C2) by (apply deref_alloc_old; exact Hc2).
  assert (D3 : deref w2 (logger_fields l2)
               = merge_fields (deref w1 (logger_fields l1)) (deref w1 c2))
    by apply deref_alloc_new.
  assert (D4 : deref w2 (logger_fields l1) = m1).
  { transitivity (deref w1 (logger_fields l1)); [| exact D1].
    apply deref_alloc_old. exact Hl1. }
  assert (D5 : deref w2 (logger_fields l) = B).
  { transitivity (deref w1 (logger_fields l)).
    - apply deref_alloc_old. exact Hl'.
    - apply deref_alloc_old. exact Hl. }
  assert (Hfresh : forall r, ref_ok w1 r -> logger_fields l2 <> r).
  { intros r Hr Heq. unfold l2, logger_WithFields in Heq. cbn [fst] in Heq.
    simpl in Heq. subst r. simpl in Hr.
    exact (is_fresh (dom (heap w1)) Hr). }
  split; [| split; [| split; [exact D5 | split; [| split; [| split]]]]].
  - intros k. rewrite D3, D1, D2. unfold m1.
    rewrite !merge_fields_lookup. reflexivity.
  - intros k. rewrite D4. unfold m1. apply merge_fields_lookup.
  - apply Hfresh. exact Hl1.
  - apply Hfresh. exact Hl'.
  - reflexivity.
  - reflexivity.
Qed.

Lemma WithFields_chain_witness :
  let l1 := (logger_WithFields sample_logger (Some 1%positive)
                               sample_heap_world).1 in
  let w1 := (logger_WithFields sample_logger (Some 1%positive)
                               sample_heap_world).2 in
  let l2 := (logger_WithFields l1 (Some 2%positive) w1).1 in
  let w2 := (logger_WithFields l1 (Some 2%positive) w1).2 in
  ref_ok sample_heap_world (Some 1%positive) /\
  ref_ok sample_heap_world (Some 2%positive) /\
  deref w2 (logger_fields l2) !! "env" = Some (VString "test") /\
  deref w2 (logger_fields l2) !! "service" = Some (VString "api") /\
  deref w2 (logger_fields l1) !! "env" = Some (VString "prod") /\
  logger_fields l2 <> logger_fields l1.
Proof.
  assert (H1 : ref_ok sample_heap_world (Some 1%positive)).
  { apply (proj2 (elem_of_dom (heap sample_heap_world) 1%positive)).
    exists sample_base. reflexivity. }
  assert (H2 : ref_ok sample_heap_world (Some 2%positive)).
  { apply (proj2 (elem_of_dom (heap sample_heap_world) 2%positive)).
    exists sample_extra. reflexivity. }
  destruct (WithFields_chain sample_logger (Some 1%positive) (Some 2%positive)
              sample_heap_world I H1 H2)
    as (Hm2 & Hm1 & _ & Hne & _).
  intros l1 w1 l2 w2.
  split; [exact H1 |]. split; [exact H2 |].
  split; [exact (Hm2 "env") |]. split; [exact (Hm2 "service") |].
  split; [exact (Hm1 "env") | exact Hne].
Defined.

(** X15: [WithFields] copies and [WithContext] shares: once a logger is
    derived with [WithFields], writing to the map that was passed in, or
    to the map of the receiver, does not change what the derived logger
    reads; the logger that [WithContext] returns reads the very map of
    its receiver, changes included. *)
Theorem WithFields_copies_WithContext_shares
    (l : logger) (c : FieldsRef) (ctx : Context) (w : World)
    (q : positive) (m : Fields) :
  ref_ok w (logger_fields l) ->
  ref_ok w c ->
  c = Some q \/ logger_fields l = Some q ->
  let l' := (logger_WithFields l c w).1 in
  let w' := (logger_WithFields l c w).2 in
  let written := set_heap (<[q := m]> (heap w')) w' in
  deref written (logger_fields l') = deref w' (logger_fields l') /\
  (logger_fields l = Some q ->
   deref written (logger_fields (logger_WithContext l ctx)) = m).
Proof.
  intros Hl Hc Hq l' w' written. split.
  - assert (Hne : Some q <> logger_fields l').
    { intros Heq. unfold l', logger_WithFields in Heq. simpl in Heq.
      injection Heq as Heq.
      assert (Hin : q ∈ dom (heap w)).
      { destruct Hq as [-> | Hq]; [exact Hc | rewrite Hq in Hl; exact Hl]. }
      rewrite Heq in Hin. exact (is_fresh (dom (heap w)) Hin). }
    destruct (logger_fields l') as [p |] eqn:Hp; [| reflexivity].
    unfold written. simpl. rewrite lookup_insert_ne by congruence. reflexivity.
  - intros Hlq. unfold logger_WithContext. cbn [logger_fields]. rewrite Hlq.
    unfold written. simpl. rewrite lookup_insert_eq. reflexivity.
Qed.

Lemma WithFields_copies_WithContext_shares_witness :
  let l' := (logger_WithFields sample_base_logger (Some 2%positive)
                               sample_heap_world).1 in
  let w' := (logger_WithFields sample_base_logger (Some 2%positive)
                               sample_heap_world).2 in
  let written := set_heap (<[1%positive := ∅]> (heap w')) w' in
  ref_ok sample_heap_world (Some 1%positive) /\
  ref_ok sample_heap_world (Some 2%positive) /\
  deref written (logger_fields l') = deref w' (logger_fields l') /\
  deref written (logger_fields (logger_WithContext sample_base_logger [])) = ∅.
Proof.
  assert (H1 : ref_ok sample_heap_world (Some 1%positive)).
  { apply (proj2 (elem_of_dom (heap sample_heap_world) 1%positive)).
    exists sample_base. reflexivity. }
  assert (H2 : ref_ok sample_heap_world (Some 2%positive)).
  { apply (proj2 (elem_of_dom (heap sample_heap_world) 2%positive)).
    exists sample_extra. reflexivity. }
  destruct (WithFields_copies_WithContext_shares
              sample_base_logger (Some 2%positive) [] sample_heap_world
              1%positive ∅ H1 H2 (or_intror eq_refl))
    as (Hcopy & Hshare).
  intros l' w' written.
  split; [exact H1 |]. split; [exact H2 |].
  split; [exact Hcopy | exact (Hshare eq_refl)].
Defined.

(** ** A logger fresh from [NewLogger] *)

Lemma NewLogger_inl (config : Config) (w : World) (l : logger) (w' : World) :
  NewLogger config w = (inl l, w') ->
  w' = (alloc ∅ w).2 /\
  logger_fields l = Some (alloc ∅ w).1 /\
  logger_config l = (Config_Validate config w).1 /\
  package_handler (logger_handler l) = true.
Proof.
  unfold NewLogger, NewConsoleHandler, NewFileHandler.
  destruct (Config_Validate config w) as [c [e |]]; [discriminate |].
  cbn [fst].
  destruct (String.eqb (cfg_Output c) "stdout"),
    (String.eqb (cfg_Output c) "stderr"),
    (String.eqb (cfg_Output c) "file"); simpl;
    intros [= <- <-]; repeat split.
Qed.

(** X16: a logger that [NewLogger] returns has one of the five levels as
    its minimum, so a call at level Fatal always passes its filter; its
    handler is one of the package; its field map is a new, empty one, so
    its entries carry exactly the fields of the call; and building it
    writes to no sink and changes no map that was there before. *)
Theorem NewLogger_fresh_logger
    (config : Config) (w : World) (l : logger) (w' : World) :
  NewLogger config w = (inl l, w') ->
  (DebugLevel <= cfg_Level (logger_config l) <= FatalLevel)%Z /\
  (FatalLevel <? cfg_Level (logger_config l))%Z = false /\
  package_handler (logger_handler l) = true /\
  ref_ok w' (logger_fields l) /\
  ~ ref_ok w (logger_fields l) /\
  deref w' (logger_fields l) = ∅ /\
  (forall ctx level msg err d,
      entry_Fields (log_entry l ctx level msg err d w').1 = deref w' d) /\
  (forall r, ref_ok w r -> deref w' r = deref w r) /\
  stdout w' = stdout w /\ stderr w' = stderr w /\ files w' = files w /\
  ticks w' = ticks w.
Proof.
  intros H. apply NewLogger_inl in H as (-> & Hf & Hc & Hp).
  assert (Hrange : (DebugLevel <= cfg_Level (logger_config l) <= FatalLevel)%Z).
  { rewrite Hc, Validate_config. simpl. apply level_or_default_range. }
  assert (Hempty : deref (alloc ∅ w).2 (logger_fields l) = ∅).
  { rewrite Hf. apply deref_alloc_new. }
  split; [exact Hrange |].
  split; [apply Z.ltb_ge; lia |].
  split; [exact Hp |].
  split; [rewrite Hf; apply ref_ok_alloc_new |].
  split; [rewrite Hf; simpl; apply is_fresh |].
  split; [exact Hempty |].
  split.
  { intros ctx level msg err d.
    change (merge_fields (deref (alloc ∅ w).2 (logger_fields l))
                         (deref (alloc ∅ w).2 d)
            = deref (alloc ∅ w).2 d).
    rewrite Hempty, merge_fields_union. apply (right_id_L ∅ (∪)). }
  split; [intros r Hr; apply deref_alloc_old; exact Hr |].
  repeat split.
Qed.

Lemma NewLogger_fresh_logger_witness :
  exists l w',
    NewLogger sample_config sample_world = (inl l, w') /\
    package_handler (logger_handler l) = true /\
    deref w' (logger_fields l) = ∅ /\
    stdout w' = stdout sample_world.
Proof.
  destruct (NewLogger sample_config sample_world) as [[l | e] w'] eqn:Hnew.
  - destruct (NewLogger_fresh_logger sample_config sample_world l w' Hnew)
      as (_ & _ & Hp & _ & _ & Hempty & _ & _ & Hout & _).
    exists l, w'. split; [reflexivity |].
    split; [exact Hp |]. split; [exact Hempty | exact Hout].
  - exfalso. unfold NewLogger, alloc in Hnew. simpl in Hnew.
    discriminate Hnew.
Defined.

(** ** Closing the handlers *)

Lemma MultiHandler_Close_loop_last (env : Closers) (hs : list Handler) :
  forall (w : World) (acc : option error),
  exists rs w',
    closes env hs w rs w' /\
    MultiHandler_Close_loop (Handler_Close env) hs w acc
    = (w', match last_error rs with Some e => Some e | None => acc end).
Proof.
  induction hs as [| h hs IH]; intros w acc.
  - exists [], w. split; [constructor | reflexivity].
  - simpl. destruct (Handler_Close env h w) as [w1 r] eqn:Hh.
    destruct r as [e |].
    + destruct (IH w1 (Some e)) as (rs & w' & Hv & Hl).
      exists (Some e :: rs), w'. split; [econstructor; eauto |].
      rewrite Hl, last_error_cons. destruct (last_error rs); reflexivity.
    + destruct (IH w1 acc) as (rs & w' & Hv & Hl).
      exists (None :: rs), w'. split; [econstructor; eauto |].
      rewrite Hl, last_error_cons. destruct (last_error rs); reflexivity.
Qed.

Lemma closes_length (env : Closers) hs w rs w' :
  closes env hs w rs w' -> length rs = length hs.
Proof. induction 1; simpl; congruence. Qed.

Lemma console_only_Close (env : Closers) (h : Handler) :
  console_only h = true -> forall w, Handler_Close env h w = (w, None).
Proof.
  induction h as [c | f | hs IH | g] using Handler_tree_ind; intros Hc w;
    try discriminate Hc; [reflexivity |].
  cbn [Handler_Close]. cbn [console_only] in Hc.
  induction IH as [| h hs Hh _ IHhs]; [reflexivity |].
  cbn [forallb] in Hc. apply andb_prop in Hc as [Hc1 Hc2].
  simpl. rewrite (Hh Hc1 w). apply IHhs. exact Hc2.
Qed.

(** X17: closing a multi handler closes every member once, in the order
    of the list and whatever the earlier ones answered, and returns the
    last error among their answers; closing a handler made of console
    handlers alone changes nothing and returns nil. *)
Theorem multi_close_visits_all
    (env : Closers) (hs : list Handler) (w : World) :
  (exists rs w',
      closes env hs w rs w' /\
      length rs = length hs /\
      MultiHandler_Close env hs w = (w', last_error rs)) /\
  (forall h, console_only h = true -> Handler_Close env h w = (w, None)).
Proof.
  split.
  - destruct (MultiHandler_Close_loop_last env hs w None) as (rs & w' & Hv & Hl).
    exists rs, w'. split; [exact Hv |].
    split; [eapply closes_length; exact Hv |].
    unfold MultiHandler_Close. cbn [Handler_Close]. rewrite Hl.
    destruct (last_error rs); reflexivity.
  - intros h Hc. apply console_only_Close. exact Hc.
Qed.

(** ** Request identifiers *)

Lemma later_time_Now (w : World) :
  time_Now w = (clock w (ticks w), later 1 w).
Proof. reflexivity. Qed.

Lemma later_later (n : nat) (w : World) : later n (later 1 w) = later (S n) w.
Proof. unfold later. simpl. f_equal. lia. Qed.

Lemma later_0 (w : World) : later 0 w = w.
Proof. destruct w. reflexivity. Qed.

Lemma charset_get (k : nat) :
  (k < 62)%nat ->
  exists b, String.get k charset = Some b /\ alnum b = true.
Proof.
  intros Hk.
  do 62 (destruct k as [| k]; [eexists; split; reflexivity |]).
  lia.
Qed.

Lemma charset_index (u : Z) :
  (0 <= Z.rem u 62)%Z ->
  exists b,
    String.get (Z.to_nat (Z.rem u 62)) charset = Some b /\ alnum b = true.
Proof.
  intros Hpos. apply charset_get.
  pose proof (Z.rem_bound_abs u 62 ltac:(lia)). lia.
Qed.

(** What [randomString] returns when no reading of the clock gives a
    negative index: one byte of [charset] per reading. *)
Lemma randomString_spec (ops : TimeOps) (n : nat) (w : World) :
  (forall i, (i < n)%nat ->
             (0 <= Z.rem (UnixNano ops (clock w (ticks w + i))) 62)%Z) ->
  exists s,
    randomString ops n w = (Some s, later n w) /\
    String.length s = n /\
    forall i, (i < n)%nat ->
      String.get i s
      = String.get (Z.to_nat (Z.rem (UnixNano ops (clock w (ticks w + i))) 62))
                   charset.
Proof.
  revert w. induction n as [| n IH]; intros w Hpos.
  - exists "". rewrite later_0. split; [reflexivity |]. split; [reflexivity |].
    intros i Hi. lia.
  - cbn [randomString]. rewrite later_time_Now.
    change (Z.of_nat (String.length charset)) with 62%Z.
    pose proof (Hpos 0%nat ltac:(lia)) as H0. rewrite Nat.add_0_r in H0.
    destruct (Z.ltb_spec (Z.rem (UnixNano ops (clock w (ticks w))) 62) 0)
      as [Hneg | _]; [lia |].
    destruct (charset_index _ H0) as (b & Hb & _). rewrite Hb.
    destruct (IH (later 1 w)) as (s & Hs & Hlen & Hget).
    { intros i Hi. simpl.
      replace (S (ticks w + i)) with (ticks w + S i)%nat by lia.
      apply Hpos. lia. }
    rewrite Hs, later_later. exists (String b s).
    split; [reflexivity |]. split; [simpl; congruence |].
    intros [| i] Hi.
    + rewrite Nat.add_0_r. simpl. symmetry. exact Hb.
    + simpl. rewrite Hget by lia. simpl.
      replace (S (ticks w + i)) with (ticks w + S i)%nat by lia. reflexivity.
Qed.

Lemma get_Some_lt (s : string) (i : nat) (b : ascii) :
  String.get i s = Some b -> (i < String.length s)%nat.
Proof.
  revert i. induction s as [| a s IH]; intros i Hb.
  - destruct i; discriminate Hb.
  - destruct i as [| i]; simpl in *; [lia |].
    apply IH in Hb. lia.
Qed.

Lemma rem_nonneg (u : Z) : (0 <= u)%Z -> (0 <= Z.rem u 62)%Z.
Proof. intros Hu. apply Z.rem_nonneg; lia. Qed.

(** X18: when the readings of the clock are not negative, [randomString]
    returns a string of the length asked for, reads the clock once per
    byte and does nothing else; byte [i] is the byte of the alphabet at
    the remainder of reading [i] by 62, so every byte is a letter or a
    digit. *)
Theorem randomString_bytes (ops : TimeOps) (n : nat) (w : World) :
  (forall i, (i < n)%nat -> (0 <= UnixNano ops (clock w (ticks w + i)))%Z) ->
  exists s,
    randomString ops n w = (Some s, later n w) /\
    String.length s = n /\
    (forall i, (i < n)%nat ->
       String.get i s
       = String.get (Z.to_nat (Z.rem (UnixNano ops (clock w (ticks w + i))) 62))
                    charset) /\
    (forall i b, String.get i s = Some b -> alnum b = true).
Proof.
  intros Hpos.
  destruct (randomString_spec ops n w) as (s & Hs & Hlen & Hget).
  { intros i Hi. apply rem_nonneg, Hpos, Hi. }
  exists s. split; [exact Hs |]. split; [exact Hlen |]. split; [exact Hget |].
  intros i b Hb.
  assert (Hi : (i < n)%nat).
  { rewrite <- Hlen. eapply get_Some_lt. exact Hb. }
  rewrite Hget in Hb by exact Hi.
  destruct (charset_index (UnixNano ops (clock w (ticks w + i))))
    as (b' & Hb' & Hal).
  { apply rem_nonneg, Hpos, Hi. }
  congruence.
Qed.

Lemma randomString_bytes_witness :
  (forall i, (i < 8)%nat ->
     (0 <= UnixNano sample_ops (clock sample_world (ticks sample_world + i)))%Z) /\
  exists s,
    randomString sample_ops 8 sample_world = (Some s, later 8 sample_world) /\
    String.length s = 8%nat /\
    (forall i b, String.get i s = Some b -> alnum b = true).
Proof.
  assert (Hpos : forall i, (i < 8)%nat ->
     (0 <= UnixNano sample_ops
             (clock sample_world (ticks sample_world + i)))%Z).
  { intros i _. simpl. lia. }
  split; [exact Hpos |].
  destruct (randomString_bytes sample_ops 8 sample_world Hpos)
    as (s & Hs & Hlen & _ & Hal).
  exists s. split; [exact Hs |]. split; [exact Hlen | exact Hal].
Defined.

(** X19: [randomString] takes nothing but the clock: while the clock
    stands still over the readings, every byte of the string is the same
    byte. *)
Theorem randomString_stuck_clock
    (ops : TimeOps) (n : nat) (w : World) (u : Z) :
  (0 <= u)%Z ->
  (forall i, (i < n)%nat -> UnixNano ops (clock w (ticks w + i)) = u) ->
  exists b s,
    String.get (Z.to_nat (Z.rem u 62)) charset = Some b /\
    randomString ops n w = (Some s, later n w) /\
    to_bytes s = replicate n b.
Proof.
  intros Hu Hsame.
  destruct (charset_index u (rem_nonneg u Hu)) as (b & Hb & _).
  destruct (randomString_spec ops n w) as (s & Hs & Hlen & Hget).
  { intros i Hi. rewrite (Hsame i Hi). apply rem_nonneg, Hu. }
  exists b, s. split; [exact Hb |]. split; [exact Hs |].
  assert (Hall : forall i, (i < n)%nat -> String.get i s = Some b).
  { intros i Hi. rewrite (Hget i Hi), (Hsame i Hi). exact Hb. }
  clear Hs Hget Hsame. revert s Hlen Hall.
  induction n as [| n IH]; intros s Hlen Hall.
  - destruct s; [reflexivity | discriminate Hlen].
  - destruct s as [| a s]; [discriminate Hlen |].
    injection Hlen as Hlen.
    pose proof (Hall 0%nat ltac:(lia)) as H0. simpl in H0.
    injection H0 as ->.
    change (b :: to_bytes s = b :: replicate n b). f_equal.
    apply IH; [exact Hlen |].
    intros i Hi. apply (Hall (S i)). lia.
Qed.

Lemma randomString_stuck_clock_witness :
  (0 <= 1709967901123456789)%Z /\
  (forall i, (i < 8)%nat ->
     UnixNano sample_ops (clock sample_world (ticks sample_world + i))
     = 1709967901123456789%Z) /\
  randomString sample_ops 8 sample_world
  = (Some "FFFFFFFF", later 8 sample_world).
Proof.
  assert (Hu : (0 <= 1709967901123456789)%Z) by lia.
  assert (Hsame : forall i, (i < 8)%nat ->
     UnixNano sample_ops (clock sample_world (ticks sample_world + i))
     = 1709967901123456789%Z).
  { intros i _. reflexivity. }
  split; [exact Hu |]. split; [exact Hsame |].
  destruct (randomString_stuck_clock sample_ops 8 sample_world _ Hu Hsame)
    as (b & s & Hb & Hs & Hrep).
  rewrite Hs. f_equal. f_equal.
  rewrite <- (of_to_bytes s), Hrep.
  vm_compute in Hb. injection Hb as <-. reflexivity.
Defined.

(** X20: [randomString] panics exactly when one of its readings of the
    clock, taken as nanoseconds since 1970, leaves a negative remainder
    by 62: an instant before 1970 that is no multiple of 62 nanoseconds
    away from it. *)
Theorem randomString_panics_iff (ops : TimeOps) (n : nat) (w : World) :
  (randomString ops n w).1 = None <->
  exists i, (i < n)%nat /\
            (Z.rem (UnixNano ops (clock w (ticks w + i))) 62 < 0)%Z.
Proof.
  revert w. induction n as [| n IH]; intros w.
  - split; [discriminate | intros (i & Hi & _); lia].
  - cbn [randomString]. rewrite later_time_Now.
    change (Z.of_nat (String.length charset)) with 62%Z.
    destruct (Z.ltb_spec (Z.rem (UnixNano ops (clock w (ticks w))) 62) 0)
      as [Hneg | Hpos].
    + split; [| reflexivity]. intros _. exists 0%nat.
      rewrite Nat.add_0_r. split; [lia | exact Hneg].
    + destruct (charset_index _ Hpos) as (b & Hb & _). rewrite Hb.
      specialize (IH (later 1 w)).
      destruct (randomString ops n (later 1 w)) as [[s |] w'];
        cbn [fst] in IH |- *.
      * split; [discriminate |]. intros (i & Hi & Hrem).
        destruct i as [| i].
        { rewrite Nat.add_0_r in Hrem. lia. }
        destruct IH as [_ IH]. discriminate IH.
        exists i. split; [lia |]. simpl.
        replace (S (ticks w + i)) with (ticks w + S i)%nat by lia.
        exact Hrem.
      * split; [| reflexivity]. intros _.
        destruct IH as [IH _]. destruct (IH eq_refl) as (i & Hi & Hrem).
        exists (S i). split; [lia |]. simpl in Hrem.
        replace (S (ticks w + i)) with (ticks w + S i)%nat in Hrem by lia.
        exact Hrem.
Qed.

Lemma to_bytes_app (a b : string) : to_bytes (a +:+ b) = to_bytes a ++ to_bytes b.
Proof.
  induction a as [| x a IH]; [reflexivity |].
  change (x :: to_bytes (a +:+ b) = x :: (to_bytes a ++ to_bytes b)).
  f_equal. exact IH.
Qed.

Lemma get_forallb (P : ascii -> bool) (s : string) :
  (forall i b, String.get i s = Some b -> P b = true) ->
  forallb P (to_bytes s) = true.
Proof.
  induction s as [| a s IH]; intros H; [reflexivity |].
  change (P a && forallb P (to_bytes s) = true).
  rewrite (H 0%nat a eq_refl). apply IH.
  intros i b Hb. apply (H (S i) b). exact Hb.
Qed.

Lemma padded_below (width bound : nat) (x : Z) :
  forallb (fun k => padded width (Z.of_nat k)) (seq 0 bound) = true ->
  (0 <= x < Z.of_nat bound)%Z ->
  padded width x = true.
Proof.
  intros Hall Hx.
  pose proof (proj1 (forallb_forall _ _) Hall (Z.to_nat x)) as H.
  cbv beta in H. rewrite Z2Nat.id in H by lia. apply H.
  apply in_seq. lia.
Qed.

Lemma padded_2 (x : Z) : (0 <= x < 100)%Z -> padded 2 x = true.
Proof. apply (padded_below 2 100). vm_compute. reflexivity. Qed.

Lemma padded_4 (x : Z) : (0 <= x < 10000)%Z -> padded 4 x = true.
Proof.
  intros Hx. apply (padded_below 4 (Z.to_nat 10000)); [| lia].
  vm_compute. reflexivity.
Qed.

Lemma padded_app (width : nat) (x : Z) (n : nat) (rest : string) :
  padded width x = true ->
  length (to_bytes rest) = n ->
  forallb digit (to_bytes rest) = true ->
  length (to_bytes (appendInt x width +:+ rest)) = (width + n)%nat /\
  forallb digit (to_bytes (appendInt x width +:+ rest)) = true.
Proof.
  unfold padded. intros Hp Hn Hd.
  apply andb_prop in Hp as [Hlen Hdig]. apply Nat.eqb_eq in Hlen.
  rewrite to_bytes_app, length_app, forallb_app, Hlen, Hn, Hdig, Hd.
  split; reflexivity.
Qed.

Lemma Time_Format_compact_digits (t : Time) :
  civil t ->
  length (to_bytes (Time_Format_compact t)) = 14%nat /\
  forallb digit (to_bytes (Time_Format_compact t)) = true.
Proof.
  intros (Hy & Hmo & Hd & Hh & Hmi & Hs). unfold Time_Format_compact.
  apply (padded_app 4 _ 10); [apply padded_4; lia | |];
    [apply (padded_app 2 _ 8); [apply padded_2; lia | |];
     [apply (padded_app 2 _ 6); [apply padded_2; lia | |];
      [apply (padded_app 2 _ 4); [apply padded_2; lia | |];
       [apply (padded_app 2 _ 2); [apply padded_2; lia | |];
        [pose proof (padded_2 (second t) ltac:(lia)) as Hp; unfold padded in Hp;
         apply andb_prop in Hp as [Hlen Hdig]; apply Nat.eqb_eq in Hlen;
         first [exact Hlen | exact Hdig] ..] ..] ..] ..] ..].
Qed.

(** X21: at an instant with civil fields in range, and with readings of
    the clock that are not negative afterwards, [generateRequestID]
    returns 23 bytes: the 14 digits of the instant in the layout
    20060102150405, a dash, and 8 letters or digits, which come from the
    eight readings that follow. *)
Theorem generateRequestID_shape (ops : TimeOps) (w : World) :
  civil (clock w (ticks w)) ->
  (forall i, (1 <= i <= 8)%nat ->
             (0 <= UnixNano ops (clock w (ticks w + i)))%Z) ->
  exists stamp r,
    generateRequestID ops w = (Some (stamp +:+ "-" +:+ r), later 9 w) /\
    stamp = Time_Format_compact (clock w (ticks w)) /\
    length (to_bytes stamp) = 14%nat /\
    forallb digit (to_bytes stamp) = true /\
    length (to_bytes r) = 8%nat /\
    forallb alnum (to_bytes r) = true /\
    (forall i, (i < 8)%nat ->
       String.get i r
       = String.get
           (Z.to_nat (Z.rem (UnixNano ops (clock w (ticks w + S i))) 62))
           charset).
Proof.
  intros Hcivil Hpos.
  destruct (Time_Format_compact_digits _ Hcivil) as [Hlen Hdig].
  assert (Hpos' : forall i, (i < 8)%nat ->
            (0 <= Z.rem (UnixNano ops (clock (later 1 w)
                                            (ticks (later 1 w) + i))) 62)%Z).
  { intros i Hi. apply rem_nonneg. simpl.
    replace (S (ticks w + i)) with (ticks w + S i)%nat by lia.
    apply Hpos. lia. }
  destruct (randomString_spec ops 8 (later 1 w) Hpos') as (r & Hr & Hrlen & Hget).
  exists (Time_Format_compact (clock w (ticks w))), r.
  split.
  { unfold generateRequestID. rewrite later_time_Now, Hr, later_later.
    reflexivity. }
  split; [reflexivity |]. split; [exact Hlen |]. split; [exact Hdig |].
  assert (Hget' : forall i, (i < 8)%nat ->
     String.get i r
     = String.get
         (Z.to_nat (Z.rem (UnixNano ops (clock w (ticks w + S i))) 62))
         charset).
  { intros i Hi. rewrite (Hget i Hi). simpl.
    replace (S (ticks w + i)) with (ticks w + S i)%nat by lia. reflexivity. }
  split.
  { rewrite <- Hrlen. clear. induction r as [| a r IH]; [reflexivity |].
    simpl. f_equal. exact IH. }
  split; [| exact Hget'].
  apply get_forallb. intros i b Hb.
  assert (Hi : (i < 8)%nat).
  { rewrite <- Hrlen. eapply get_Some_lt. exact Hb. }
  rewrite (Hget' i Hi) in Hb.
  destruct (charset_index (UnixNano ops (clock w (ticks w + S i))))
    as (b' & Hb' & Hal).
  { apply rem_nonneg, Hpos. lia. }
  congruence.
Qed.

Lemma generateRequestID_shape_witness :
  civil (clock sample_world (ticks sample_world)) /\
  (forall i, (1 <= i <= 8)%nat ->
     (0 <= UnixNano sample_ops (clock sample_world (ticks sample_world + i)))%Z) /\
  generateRequestID sample_ops sample_world
  = (Some "20240309070501-FFFFFFFF", later 9 sample_world).
Proof.
  assert (Hcivil : civil (clock sample_world (ticks sample_world))).
  { unfold civil. simpl. lia. }
  assert (Hpos : forall i, (1 <= i <= 8)%nat ->
     (0 <= UnixNano sample_ops
             (clock sample_world (ticks sample_world + i)))%Z).
  { intros i _. simpl. lia. }
  split; [exact Hcivil |]. split; [exact Hpos |].
  destruct (generateRequestID_shape sample_ops sample_world Hcivil Hpos)
    as (stamp & r & Hid & _).
  rewrite Hid. vm_compute in Hid |- *. congruence.
Defined.

(** ** The middleware *)

Ltac lookup_field :=
  repeat (rewrite lookup_insert_ne by discriminate);
  first [rewrite lookup_insert_eq; reflexivity | reflexivity].

(** X22: [HTTPMiddleware] logs one entry, after the handlers have run,
    at the level of the status they left: Error from 500 on, Warn from
    400 on, Info below.  The map of the entry is a new one; path and query
    in it are those of the request as it came in, while method, client
    address, status, size and user agent are read after the handlers; the
    latency is taken between the reading of the clock on entry and the
    reading after the handlers; and each of these overrides a field of
    that name on the logger. *)
Theorem HTTPMiddleware_entry
    (ops : TimeOps) (log : logger) (Next : Chain) (c : GinContext) (w : World) :
  let c' := (Next c (later 1 w)).1 in
  let w1 := (Next c (later 1 w)).2 in
  let level := status_level (gin_Status c') in
  let msg :=
    if (500 <=? gin_Status c')%Z then "HTTP Server Error"
    else if (400 <=? gin_Status c')%Z then "HTTP Client Error"
    else if (300 <=? gin_Status c')%Z then "HTTP Redirect"
    else "HTTP Request" in
  exists p w2,
    HTTPMiddleware ops log Next c w
    = logger_log log (gin_Context c') level msg None (Some p) w2 /\
    (p ∉ dom (heap w1)) /\
    stdout w2 = stdout w1 /\ stderr w2 = stderr w1 /\ files w2 = files w1 /\
    ticks w2 = S (ticks w1) /\
    let fields :=
      entry_Fields
        (log_entry log (gin_Context c') level msg None (Some p) w2).1 in
    fields !! "path" = Some (VString (gin_Path c)) /\
    fields !! "raw_query" = Some (VString (gin_RawQuery c)) /\
    fields !! "method" = Some (VString (gin_Method c')) /\
    fields !! "client_ip" = Some (VString (gin_ClientIP c')) /\
    fields !! "status" = Some (VInt (gin_Status c')) /\
    fields !! "body_size" = Some (VInt (gin_Size c')) /\
    fields !! "user_agent" = Some (VString (gin_UserAgent c')) /\
    fields !! "latency"
    = Some (VString (Since_String ops (clock w (ticks w))
                                  (clock w1 (ticks w1)))) /\
    ((0 < gin_ErrorsLen c')%nat ->
     fields !! "errors" = Some (VString (gin_ErrorsString c'))).
Proof.
  unfold HTTPMiddleware. rewrite later_time_Now.
  destruct (Next c (later 1 w)) as [c' w1]. cbn [fst snd].
  rewrite later_time_Now. unfold alloc. cbv zeta.
  match goal with
  | |- context [set_heap (<[?q := ?m]> _) _] =>
    exists q, (set_heap (<[q := m]> (heap (later 1 w1))) (later 1 w1));
      set (fields := m)
  end.
  split.
  { unfold status_level, logger_Error, logger_Warn, logger_Info.
    destruct (500 <=? gin_Status c')%Z; [reflexivity |].
    destruct (400 <=? gin_Status c')%Z; [reflexivity |].
    destruct (300 <=? gin_Status c')%Z; reflexivity. }
  split; [apply is_fresh |].
  do 4 (split; [reflexivity |]).
  unfold log_entry. rewrite later_time_Now. cbn [fst entry_Fields].
  assert (Hd : deref (set_heap (<[fresh (dom (heap (later 1 w1))) := fields]>
                                  (heap (later 1 w1))) (later 1 w1))
                     (Some (fresh (dom (heap (later 1 w1))))) = fields).
  { simpl. rewrite lookup_insert_eq. reflexivity. }
  rewrite Hd. clear Hd.
  repeat split; try intros Herr; rewrite merge_fields_lookup; unfold fields;
    destruct (Nat.ltb_spec 0 (gin_ErrorsLen c')) as [Hlt | Hge];
    try lia; lookup_field.
Qed.

(** X23: [HTTPMiddleware] always returns, whatever the handler of the
    logger answers; and when the level of the status is below the minimum
    of the logger, it writes nothing: the sinks are as the handlers of the
    request left them, and so is every field map that was there. *)
Theorem HTTPMiddleware_returns_and_filters
    (ops : TimeOps) (log : logger) (Next : Chain) (c : GinContext) (w : World) :
  let c' := (Next c (later 1 w)).1 in
  let w1 := (Next c (later 1 w)).2 in
  exists w',
    HTTPMiddleware ops log Next c w = Returned w' /\
    ((status_level (gin_Status c') < cfg_Level (logger_config log))%Z ->
     stdout w' = stdout w1 /\ stderr w' = stderr w1 /\ files w' = files w1 /\
     ticks w' = S (ticks w1) /\
     forall r, ref_ok w1 r -> deref w' r = deref w1 r).
Proof.
  unfold HTTPMiddleware. rewrite later_time_Now.
  destruct (Next c (later 1 w)) as [c' w1]. cbn [fst snd].
  rewrite later_time_Now.
  match goal with
  | |- context [alloc ?m (later 1 w1)] =>
    set (fields := m);
      pose proof (fun r => deref_alloc_old fields (later 1 w1) r) as Hold;
      destruct (alloc fields (later 1 w1)) as [p w2] eqn:Halloc
  end.
  assert (Hw2 : stdout w2 = stdout w1 /\ stderr w2 = stderr w1 /\
                files w2 = files w1 /\ ticks w2 = S (ticks w1)).
  { unfold alloc in Halloc. injection Halloc as _ <-. repeat split. }
  cbn [snd] in Hold.
  unfold status_level, logger_Error, logger_Warn, logger_Info.
  assert (Hgen : forall level msg,
    exists w',
      logger_log log (gin_Context c') level msg None (Some p) w2 = Returned w' /\
      ((level < cfg_Level (logger_config log))%Z ->
       stdout w' = stdout w1 /\ stderr w' = stderr w1 /\ files w' = files w1 /\
       ticks w' = S (ticks w1) /\
       forall r, ref_ok w1 r -> deref w' r = deref w1 r)).
  { intros level msg.
    destruct (log_returns log (gin_Context c') level msg None (Some p) w2)
      as (w' & Hret).
    exists w'. split; [exact Hret |]. intros Hlt.
    unfold logger_log in Hret.
    destruct (Z.ltb_spec level (cfg_Level (logger_config log))) as [_ | Hge];
      [| lia].
    injection Hret as <-.
    destruct Hw2 as (Ho & He & Hf & Ht).
    split; [exact Ho |]. split; [exact He |]. split; [exact Hf |].
    split; [exact Ht |].
    intros r Hr. apply (Hold r). exact Hr. }
  destruct (500 <=? gin_Status c')%Z; [apply Hgen |].
  destruct (400 <=? gin_Status c')%Z; [apply Hgen |].
  destruct (300 <=? gin_Status c')%Z; apply Hgen.
Qed.

(** X24: [RequestLogger] takes the identifier of the request from the
    header X-Request-ID, and generates one only when the header is empty.
    With the identifier [id] it logs a first entry at level Info, with the
    identifier, method, path and client address of the request as it came
    in, before the handlers run; the handlers then run on the request
    whose context holds [id] under request_id; and a second entry is
    logged after them, at the level of the status they left, with the
    same identifier and with method, path, status and size read after the
    handlers.  Both maps are new ones, and the call returns. *)
Theorem RequestLogger_entries
    (ops : TimeOps) (log : logger) (Next : Chain) (c : GinContext) (w : World)
    (id : string) (wi : World) :
  ((gin_HeaderRequestID c <> "") /\
   (id = gin_HeaderRequestID c) /\ (wi = later 1 w)) \/
  ((gin_HeaderRequestID c = "") /\
   (generateRequestID ops (later 1 w) = (Some id, wi))) ->
  let ctx := ("request_id", id) :: gin_Context c in
  exists p w0 w1,
    logger_Info log ctx "Request started" (Some p) w0 = Returned w1 /\
    (p ∉ dom (heap wi)) /\
    stdout w0 = stdout wi /\ stderr w0 = stderr wi /\ files w0 = files wi /\
    ticks w0 = ticks wi /\
    (let started :=
       entry_Fields
         (log_entry log ctx InfoLevel "Request started" None (Some p) w0).1 in
     started !! "request_id" = Some (VString id) /\
     started !! "method" = Some (VString (gin_Method c)) /\
     started !! "path" = Some (VString (gin_Path c)) /\
     started !! "client_ip" = Some (VString (gin_ClientIP c))) /\
    let c' := (Next (set_gin_Context ctx c) w1).1 in
    let w2 := (Next (set_gin_Context ctx c) w1).2 in
    let level := status_level (gin_Status c') in
    let msg :=
      if (500 <=? gin_Status c')%Z then "Request failed with server error"
      else if (400 <=? gin_Status c')%Z then "Request failed with client error"
      else "Request completed" in
    exists q w3,
      RequestLogger ops log Next c w
      = logger_log log (gin_Context c') level msg None (Some q) w3 /\
      (q ∉ dom (heap w2)) /\
      stdout w3 = stdout w2 /\ stderr w3 = stderr w2 /\ files w3 = files w2 /\
      ticks w3 = S (ticks w2) /\
      let fields :=
        entry_Fields
          (log_entry log (gin_Context c') level msg None (Some q) w3).1 in
      fields !! "request_id" = Some (VString id) /\
      fields !! "method" = Some (VString (gin_Method c')) /\
      fields !! "path" = Some (VString (gin_Path c')) /\
      fields !! "status" = Some (VInt (gin_Status c')) /\
      fields !! "body_size" = Some (VInt (gin_Size c')) /\
      fields !! "latency"
      = Some (VString (Since_String ops (clock w (ticks w))
                                    (clock w2 (ticks w2)))) /\
      ((0 < gin_ErrorsLen c')%nat ->
       fields !! "errors" = Some (VString (gin_ErrorsString c'))) /\
      exists w', RequestLogger ops log Next c w = Returned w'.
Proof.
  intros Hsrc ctx.
  assert (Hid : (if String.eqb (gin_HeaderRequestID c) ""
                 then generateRequestID ops (later 1 w)
                 else (Some (gin_HeaderRequestID c), later 1 w))
                = (Some id, wi)).
  { destruct Hsrc as [(Hne & -> & ->) | (Heq & Hgen)].
    - destruct (String.eqb_spec (gin_HeaderRequestID c) "") as [E | _];
        [contradiction | reflexivity].
    - rewrite Heq. exact Hgen. }
  clear Hsrc.
  unfold RequestLogger. rewrite later_time_Now, Hid.
  fold ctx. unfold alloc. cbv zeta.
  match goal with
  | |- context [logger_Info log ctx "Request started" (Some ?p0) ?w00] =>
    exists p0, w00;
      destruct (log_returns log ctx InfoLevel "Request started" None
                            (Some p0) w00) as (w1 & Hret)
  end.
  exists w1. split; [exact Hret |].
  split; [apply is_fresh |].
  do 4 (split; [reflexivity |]).
  split.
  { unfold log_entry. rewrite later_time_Now. cbn [fst entry_Fields].
    match goal with
    | |- context [deref (set_heap (<[?p0 := ?m]> ?h) ?w00) (Some ?p0)] =>
      assert (Hd : deref (set_heap (<[p0 := m]> h) w00) (Some p0) = m)
        by (simpl; rewrite lookup_insert_eq; reflexivity);
        rewrite Hd; clear Hd
    end.
    repeat split; rewrite merge_fields_lookup; lookup_field. }
  unfold logger_Info at 1 3. rewrite Hret. cbv beta iota.
  destruct (Next (set_gin_Context ctx c) w1) as [c' w2]. cbn [fst snd].
  rewrite later_time_Now.
  match goal with
  | |- context [set_heap (<[?q := ?m]> _) (later 1 w2)] =>
    exists q, (set_heap (<[q := m]> (heap (later 1 w2))) (later 1 w2));
      set (fields := m)
  end.
  match goal with
  | |- ?lhs = _ /\ _ =>
    assert (Hrun : lhs
                   = logger_log log (gin_Context c')
                       (status_level (gin_Status c'))
                       (if (500 <=? gin_Status c')%Z
                        then "Request failed with server error"
                        else if (400 <=? gin_Status c')%Z
                             then "Request failed with client error"
                             else "Request completed")
                       None (Some (fresh (dom (heap (later 1 w2)))))
                       (set_heap (<[fresh (dom (heap (later 1 w2))) := fields]>
                                    (heap (later 1 w2))) (later 1 w2)))
  end.
  { unfold status_level, logger_Error, logger_Warn, logger_Info.
    destruct (500 <=? gin_Status c')%Z; [reflexivity |].
    destruct (400 <=? gin_Status c')%Z; reflexivity. }
  split; [exact Hrun |].
  split; [apply is_fresh |].
  do 4 (split; [reflexivity |]).
  unfold log_entry. rewrite later_time_Now. cbn [fst entry_Fields].
  assert (Hd : deref (set_heap (<[fresh (dom (heap (later 1 w2))) := fields]>
                                  (heap (later 1 w2))) (later 1 w2))
                     (Some (fresh (dom (heap (later 1 w2))))) = fields).
  { simpl. rewrite lookup_insert_eq. reflexivity. }
  rewrite Hd. clear Hd.
  repeat split; try intros Herr;
    try (rewrite merge_fields_lookup; unfold fields;
         destruct (Nat.ltb_spec 0 (gin_ErrorsLen c')) as [Hlt | Hge];
         try lia; lookup_field).
  rewrite Hrun. apply log_returns.
Qed.

Lemma RequestLogger_entries_witness :
  gin_HeaderRequestID sample_gin <> "" /\
  exists w',
    RequestLogger sample_ops sample_logger sample_chain sample_gin sample_world
    = Returned w'.
Proof.
  assert (Hne : gin_HeaderRequestID sample_gin <> "") by discriminate.
  split; [exact Hne |].
  pose proof (RequestLogger_entries sample_ops sample_logger sample_chain
                sample_gin sample_world "req-42" (later 1 sample_world)
                (or_introl (conj Hne (conj eq_refl eq_refl)))) as H.
  cbv zeta in H.
  destruct H as (p & w0 & w1 & _ & _ & _ & _ & _ & _ & _ & q & w3 & H).
  destruct H as (_ & _ & _ & _ & _ & _ & _ & _ & _ & _ & _ & _ & _ & H).
  exact H.
Defined.

(** X25: on a request without the header, [RequestLogger] panics when
    the clock, at the first of the eight readings for the random part of
    the identifier, is before 1970 and no multiple of 62 nanoseconds away
    from it; by then it has read the clock three times and done nothing
    else: no entry is logged and the handlers of the request do not run. *)
Theorem RequestLogger_panics_before_epoch
    (ops : TimeOps) (log : logger) (Next : Chain) (c : GinContext) (w : World) :
  gin_HeaderRequestID c = "" ->
  (Z.rem (UnixNano ops (clock w (ticks w + 2))) 62 < 0)%Z ->
  RequestLogger ops log Next c w = Panicked (later 3 w).
Proof.
  intros Hheader Hneg. unfold RequestLogger.
  rewrite later_time_Now, Hheader. cbn [String.eqb].
  unfold generateRequestID. rewrite later_time_Now.
  change 8%nat with (S 7). cbn [randomString]. rewrite later_time_Now.
  change (Z.of_nat (String.length charset)) with 62%Z.
  change (clock (later 1 (later 1 w)) (ticks (later 1 (later 1 w))))
    with (clock w (S (S (ticks w)))).
  replace (S (S (ticks w))) with (ticks w + 2)%nat by lia.
  destruct (Z.ltb_spec (Z.rem (UnixNano ops (clock w (ticks w + 2))) 62) 0)
    as [_ | Hge]; [| lia].
  rewrite !later_later. reflexivity.
Qed.

Lemma RequestLogger_panics_before_epoch_witness :
  gin_HeaderRequestID sample_gin_anonymous = "" /\
  (Z.rem (UnixNano sample_old_ops
                   (clock sample_world (ticks sample_world + 2))) 62 < 0)%Z /\
  RequestLogger sample_old_ops sample_logger sample_chain sample_gin_anonymous
                sample_world
  = Panicked (later 3 sample_world).
Proof.
  split; [reflexivity |]. split; [reflexivity |].
  apply (RequestLogger_panics_before_epoch
           sample_old_ops sample_logger sample_chain sample_gin_anonymous
           sample_world); reflexivity.
Defined.
